(** * bibletexts.github.io: the HTML converter, the search indexer and the
      sitemap writer, embedded in Rocq.

    The Python sources work on BeautifulSoup trees, which are mutable
    objects handed around by reference.  The embedding keeps that: an
    element carries an object identity, a soup is a store holding the
    document tree and the trees that are currently detached from it, and
    every operation of the library that the sources call (find_all,
    extract, append, extend, replace_with, unwrap, decompose, ...) is a
    function on that store, addressed by identity.

    A Python str is held as the Rocq string of its UTF-8 bytes: one
    character of the Rocq string for a code point below 128, two to four
    for another.  Prefixes, substrings and replacements are the same on
    the bytes as on the code points; white space and [lower] are read off
    the bytes of whole code points. *)

From Stdlib Require Import List String Ascii Arith Lia Bool Permutation.
From Stdlib Require Import DecimalString.
Import ListNotations.
Open Scope string_scope.
Open Scope list_scope.

Set Implicit Arguments.
Set Warnings "-register-all".

(* ================================================================== *)
(** * Python strings *)
(* ================================================================== *)

Module PyStr.

(** [s.startswith(p)] *)
Definition startswith (s p : string) : bool := String.prefix p s.

(** [sub in s] *)
Fixpoint contains (sub s : string) : bool :=
  match s with
  | EmptyString => String.prefix sub EmptyString
  | String _ s' => String.prefix sub s || contains sub s'
  end.

(** [s.replace(old, new)] for a non-empty [old]: occurrences are found
    from left to right and do not overlap.  [skip] counts the characters
    of the occurrence being consumed. *)
Fixpoint replace_from (old new s : string) (skip : nat) : string :=
  match s with
  | EmptyString => EmptyString
  | String c s' =>
      match skip with
      | S k => replace_from old new s' k
      | O =>
          if String.prefix old s
          then new ++ replace_from old new s' (String.length old - 1)
          else String c (replace_from old new s' 0)
      end
  end.

Definition replace (s old new : string) : string := replace_from old new s 0.

(** the suffix of [s] after its first [n] characters *)
Fixpoint drop (n : nat) (s : string) : string :=
  match n, s with
  | O, _ => s
  | S _, EmptyString => EmptyString
  | S k, String _ s' => drop k s'
  end.

Definition lower_char (c : ascii) : ascii :=
  let n := nat_of_ascii c in
  if ((65 <=? n)%nat && (n <=? 90)%nat) then ascii_of_nat (n + 32) else c.

(** U+212A, the Kelvin sign, and U+0130, the dotted capital I, in UTF-8 *)
Definition kelvin_sign : string :=
  String (ascii_of_nat 226) (String (ascii_of_nat 132)
    (String (ascii_of_nat 170) EmptyString)).

Definition dotted_capital_i : string :=
  String (ascii_of_nat 196) (String (ascii_of_nat 176) EmptyString).

(** U+0307, the combining dot above *)
Definition combining_dot : string :=
  String (ascii_of_nat 204) (String (ascii_of_nat 135) EmptyString).

(** [s.lower()], as far as the letters of ASCII go: the letters A to Z
    are lowered, the Kelvin sign gives "k" and the dotted capital I gives
    "i" with a combining dot, the two characters beyond ASCII whose lower
    case holds an ASCII letter.  Every other character beyond ASCII keeps
    its bytes here, where [lower] gives a character beyond ASCII again:
    the sources look in the lowered text for words of ASCII letters only,
    and those tests do not tell the two apart. *)
Fixpoint lower_from (s : string) (skip : nat) : string :=
  match s with
  | EmptyString => EmptyString
  | String c s' =>
      match skip with
      | S k => lower_from s' k
      | O =>
          if String.prefix kelvin_sign s
          then String "k" (lower_from s' 2)
          else if String.prefix dotted_capital_i s
               then (String "i" combining_dot ++ lower_from s' 1)%string
               else String (lower_char c) (lower_from s' 0)
      end
  end.

Definition lower (s : string) : string := lower_from s 0.

(** The white space of [str.strip], [str.split] and of the regular
    expression \s: U+0009 to U+000D, U+001C to U+0020, U+0085, U+00A0,
    U+1680, U+2000 to U+200A, U+2028, U+2029, U+202F, U+205F, U+3000.
    [space_width s] is the number of bytes of the white-space character
    that [s] starts with, 0 when it starts with none. *)
Definition between (lo n hi : nat) : bool :=
  (lo <=? n)%nat && (n <=? hi)%nat.

Definition space_width (s : string) : nat :=
  match s with
  | EmptyString => 0
  | String c0 s1 =>
      let n0 := nat_of_ascii c0 in
      if between 9 n0 13 || between 28 n0 32 then 1
      else
        match s1 with
        | EmptyString => 0
        | String c1 s2 =>
            let n1 := nat_of_ascii c1 in
            if Nat.eqb n0 194 && (Nat.eqb n1 133 || Nat.eqb n1 160) then 2
            else
              match s2 with
              | EmptyString => 0
              | String c2 _ =>
                  let n2 := nat_of_ascii c2 in
                  if Nat.eqb n0 225 && Nat.eqb n1 154 && Nat.eqb n2 128 then 3
                  else if Nat.eqb n0 226 && Nat.eqb n1 128
                          && (between 128 n2 138 || Nat.eqb n2 168
                              || Nat.eqb n2 169 || Nat.eqb n2 175)
                  then 3
                  else if Nat.eqb n0 226 && Nat.eqb n1 129 && Nat.eqb n2 159
                  then 3
                  else if Nat.eqb n0 227 && Nat.eqb n1 128 && Nat.eqb n2 128
                  then 3
                  else 0
              end
        end
  end.

(** [skip] counts the bytes left of the white-space character being
    passed *)
Fixpoint lstrip_from (s : string) (skip : nat) : string :=
  match s with
  | EmptyString => EmptyString
  | String _ s' =>
      match skip with
      | S k => lstrip_from s' k
      | O =>
          match space_width s with
          | S k => lstrip_from s' k
          | O => s
          end
      end
  end.

Definition lstrip (s : string) : string := lstrip_from s 0.

(** [s] is white space from end to end *)
Fixpoint blank_from (s : string) (skip : nat) : bool :=
  match s with
  | EmptyString => true
  | String _ s' =>
      match skip with
      | S k => blank_from s' k
      | O =>
          match space_width s with
          | S k => blank_from s' k
          | O => false
          end
      end
  end.

Definition blank (s : string) : bool := blank_from s 0.

Fixpoint rstrip (s : string) : string :=
  match s with
  | EmptyString => EmptyString
  | String c s' => if blank s then EmptyString else String c (rstrip s')
  end.

(** [s.strip()] *)
Definition strip (s : string) : string := rstrip (lstrip s).

(** [re.sub(r'\s+', ' ', s)]: [inrun] tells that the previous character
    was white space, already replaced by one blank *)
Fixpoint collapse_from (inrun : bool) (skip : nat) (s : string) : string :=
  match s with
  | EmptyString => EmptyString
  | String c s' =>
      match skip with
      | S k => collapse_from inrun k s'
      | O =>
          match space_width s with
          | S k =>
              if inrun then collapse_from true k s'
              else String " " (collapse_from true k s')
          | O => String c (collapse_from false 0 s')
          end
      end
  end.

Definition collapse_ws (s : string) : string := collapse_from false 0 s.

(** the pieces of [s] between its white-space characters, the empty ones
    as well *)
Fixpoint split_space (s : string) (skip : nat) : list string :=
  match s with
  | EmptyString => [EmptyString]
  | String c s' =>
      match skip with
      | S k => split_space s' k
      | O =>
          match space_width s with
          | S k => EmptyString :: split_space s' k
          | O =>
              match split_space s' 0 with
              | [] => [String c EmptyString]
              | t :: ts => String c t :: ts
              end
          end
      end
  end.

(** [re.findall(r'\S+', s)] *)
Definition tokens (s : string) : list string :=
  filter (fun t => negb (String.eqb t EmptyString)) (split_space s 0).

(** [s.split(',')]: never empty, the empty string gives one empty token *)
Fixpoint split_comma (s : string) : list string :=
  match s with
  | EmptyString => [EmptyString]
  | String c s' =>
      if Ascii.eqb c ","
      then EmptyString :: split_comma s'
      else match split_comma s' with
           | [] => [String c EmptyString]
           | t :: ts => String c t :: ts
           end
  end.

(** [str(n)] for a natural number *)
Definition of_nat (n : nat) : string := NilEmpty.string_of_uint (Nat.to_uint n).

(** [enumerate(l)] *)
Definition enumerate {A} (l : list A) : list (nat * A) :=
  combine (seq 0 (List.length l)) l.

(** [x in l] for a list of strings *)
Definition mem (x : string) (l : list string) : bool :=
  existsb (String.eqb x) l.

End PyStr.

(* ================================================================== *)
(** * BeautifulSoup trees *)
(* ================================================================== *)

(** An attribute value is a string, a list of strings (the parser splits
    [class], [rel] and the like), or the Python value [True] or [False]
    that [_add_modern_structure] stores under [defer]. *)
Inductive attrval :=
| AStr (s : string)
| AList (l : list string)
| ABool (b : bool).

Definition attrs := list (string * attrval).

(** Truth value of [tag.get(k)]: [None], the empty string, the empty
    list and [False] are false. *)
Definition truthy (v : option attrval) : bool :=
  match v with
  | None => false
  | Some (AStr s) => negb (String.eqb s "")
  | Some (AList l) => match l with [] => false | _ => true end
  | Some (ABool b) => b
  end.

(** [tag.get(k)] *)
Fixpoint attr_get (k : string) (a : attrs) : option attrval :=
  match a with
  | [] => None
  | (k', v) :: a' => if String.eqb k k' then Some v else attr_get k a'
  end.

(** [k in tag.attrs] *)
Definition attr_has (k : string) (a : attrs) : bool :=
  match attr_get k a with Some _ => true | None => false end.

(** [tag[k] = v]: a dict keeps the position of a key that is already
    there and puts a new key last *)
Fixpoint attr_set (k : string) (v : attrval) (a : attrs) : attrs :=
  match a with
  | [] => [(k, v)]
  | (k', v') :: a' =>
      if String.eqb k k' then (k, v) :: a' else (k', v') :: attr_set k v a'
  end.

(** The class of a string of the tree.  The parser makes the string
    inside a script, style or template element (and inside rt and rp) an
    object of a class of its own, a CDATA section a [CData], and a
    doctype, a declaration and a processing instruction objects of their
    classes; every other string, and a string the sources make
    ([tag.string = s]), is a [NavigableString]. *)
Inductive string_class :=
| NavigableString
| CData
| Script
| Stylesheet
| TemplateString
| RubyTextString
| RubyParenthesisString
| Doctype
| Declaration
| ProcessingInstruction.

Definition string_class_eqb (c d : string_class) : bool :=
  match c, d with
  | NavigableString, NavigableString | CData, CData | Script, Script
  | Stylesheet, Stylesheet | TemplateString, TemplateString
  | RubyTextString, RubyTextString
  | RubyParenthesisString, RubyParenthesisString
  | Doctype, Doctype | Declaration, Declaration
  | ProcessingInstruction, ProcessingInstruction => true
  | _, _ => false
  end.

(** a string of the tree: its class and its characters *)
Record tree_string := mkString {
  class_of : string_class;
  chars : string
}.

(** a plain string is a [NavigableString] *)
Definition plain (s : string) : tree_string := mkString NavigableString s.

Coercion plain : string >-> tree_string.

(** A node of the tree.  [oid] is the identity of the Python object: the
    sources keep references to elements in lists while they move them
    around.  Strings and comments are only ever moved together with, or
    out of, the element that holds them, so they need no identity. *)
Inductive node :=
| Text (s : tree_string)
| Comment (s : string)
| Elem (oid : nat) (name : string) (a : attrs) (contents : list node).

Section NodeInd.
Variable P : node -> Prop.
Hypothesis HText : forall s, P (Text s).
Hypothesis HComment : forall s, P (Comment s).
Hypothesis HElem : forall i nm a cs, Forall P cs -> P (Elem i nm a cs).

Fixpoint node_rect' (n : node) : P n :=
  match n with
  | Text s => HText s
  | Comment s => HComment s
  | Elem i nm a cs =>
      HElem i nm a
        ((fix all (l : list node) : Forall P l :=
            match l with
            | [] => Forall_nil P
            | x :: l' => Forall_cons x (node_rect' x) (all l')
            end) cs)
  end.
End NodeInd.

Definition is_oid (i : nat) (n : node) : bool :=
  match n with Elem j _ _ _ => Nat.eqb j i | _ => false end.

Definition has_name (names : list string) (n : node) : bool :=
  match n with Elem _ nm _ _ => PyStr.mem nm names | _ => false end.

Definition node_oid (n : node) : nat :=
  match n with Elem i _ _ _ => i | _ => 0 end.

Definition node_name (n : node) : string :=
  match n with Elem _ nm _ _ => nm | _ => "" end.

Definition node_attrs (n : node) : attrs :=
  match n with Elem _ _ a _ => a | _ => [] end.

Definition node_contents (n : node) : list node :=
  match n with Elem _ _ _ cs => cs | _ => [] end.

(** The elements of a tree in document order, the tree's own root first
    (what [tag.descendants] yields below a tag, strings left out). *)
Fixpoint elements (n : node) : list node :=
  match n with
  | Elem _ _ _ cs => n :: flat_map elements cs
  | _ => []
  end.

Definition elements_of (f : list node) : list node := flat_map elements f.

(** [find_all(names)] below a list of nodes: the matching elements in
    document order.  The sources hold the result as a list of
    references; [find_all_oids] is that list. *)
Definition find_all (names : list string) (f : list node) : list node :=
  filter (has_name names) (elements_of f).

Definition find_all_oids (names : list string) (f : list node) : list nat :=
  map node_oid (find_all names f).

(** [find(name)]: the first match, or [None] *)
Definition find_first (names : list string) (f : list node) : option node :=
  hd_error (find_all names f).

(** the element with identity [i], as it is now *)
Definition lookup (i : nat) (f : list node) : option node :=
  List.find (is_oid i) (elements_of f).

(** [builder.string_containers]: the class of the strings that the
    parser makes inside an element of this name *)
Definition string_container (nm : string) : option string_class :=
  if String.eqb nm "rt" then Some RubyTextString
  else if String.eqb nm "rp" then Some RubyParenthesisString
  else if String.eqb nm "style" then Some Stylesheet
  else if String.eqb nm "script" then Some Script
  else if String.eqb nm "template" then Some TemplateString
  else None.

(** [tag.interesting_string_types]: on an element that is no such
    container, and on the soup, [NavigableString] and [CData] *)
Definition default_string_types (c : string_class) : bool :=
  match c with
  | NavigableString | CData => true
  | _ => false
  end.

Definition interesting_string_types (nm : string) : string_class -> bool :=
  match string_container nm with
  | Some k => fun c => string_class_eqb c k
  | None => default_string_types
  end.

(** [_all_strings(types=...)] joined: the strings below a node whose
    class is one of [types]; a comment is of none of them *)
Fixpoint all_strings (types : string_class -> bool) (n : node) : string :=
  match n with
  | Text s => if types (class_of s) then chars s else ""
  | Comment _ => ""
  | Elem _ _ _ cs => String.concat "" (map (all_strings types) cs)
  end.

(** [tag.get_text()]: the strings below the element that are of its
    interesting classes, joined; what lies in a script, style or
    template element below it is left out *)
Definition get_text (n : node) : string :=
  all_strings (interesting_string_types (node_name n)) n.

(** [soup.get_text()] *)
Definition get_text_of (f : list node) : string :=
  String.concat "" (map (all_strings default_string_types) f).

(** Apply [g] to the attributes and contents of the element [i]. *)
Fixpoint update (i : nat) (g : attrs -> list node -> attrs * list node)
    (n : node) : node :=
  match n with
  | Elem j nm a cs =>
      if Nat.eqb j i
      then let (a', cs') := g a cs in Elem j nm a' cs'
      else Elem j nm a (map (update i g) cs)
  | _ => n
  end.

Definition update_in (i : nat) (g : attrs -> list node -> attrs * list node)
    (f : list node) : list node :=
  map (update i g) f.

(** Put [new i n] in the place of the element [i]: nothing in its place
    removes it, its own contents unwrap it, another node replaces it. *)
Fixpoint splice (i : nat) (new : node -> list node) (n : node) : node :=
  match n with
  | Elem j nm a cs =>
      Elem j nm a
        (flat_map (fun c => if is_oid i c then new c else [splice i new c]) cs)
  | _ => n
  end.

Definition splice_in (i : nat) (new : node -> list node) (f : list node)
    : list node :=
  flat_map (fun c => if is_oid i c then new c else [splice i new c]) f.

(* ================================================================== *)
(** * The soup: a store of trees *)
(* ================================================================== *)

(** [doc] is the contents of the BeautifulSoup object, [detached] the
    trees that hang nowhere (a tag fresh from [new_tag], an extracted or
    replaced element), [fresh] the next unused identity. *)
Record soup := mkSoup {
  fresh : nat;
  doc : list node;
  detached : list node
}.

Definition everything (sp : soup) : list node := doc sp ++ detached sp.

Definition soup_lookup (i : nat) (sp : soup) : option node :=
  lookup i (everything sp).

Definition on_trees (g : list node -> list node) (sp : soup) : soup :=
  mkSoup (fresh sp) (g (doc sp)) (g (detached sp)).

Definition add_detached (n : node) (sp : soup) : soup :=
  mkSoup (fresh sp) (doc sp) (detached sp ++ [n]).

(** [builder.cdata_list_attributes]: the attributes whose value is a
    list of tokens, on every element and on an element of this name *)
Definition cdata_list_attributes (nm : string) : list string :=
  ["class"; "accesskey"; "dropzone"]
  ++ (if PyStr.mem nm ["a"; "link"] then ["rel"; "rev"]
      else if PyStr.mem nm ["td"; "th"] then ["headers"]
      else if String.eqb nm "form" then ["accept-charset"]
      else if String.eqb nm "object" then ["archive"]
      else if String.eqb nm "area" then ["rel"]
      else if String.eqb nm "icon" then ["sizes"]
      else if String.eqb nm "iframe" then ["sandbox"]
      else if String.eqb nm "output" then ["for"]
      else []).

(** [builder._replace_cdata_list_attribute_values(name, attrs)]: a
    string given for such an attribute is split at white space *)
Definition replace_cdata_list_attribute_values (nm : string) (a : attrs)
    : attrs :=
  map (fun kv : string * attrval =>
         if PyStr.mem (fst kv) (cdata_list_attributes (PyStr.lower nm))
         then (fst kv, match snd kv with
                       | AStr v => AList (PyStr.tokens v)
                       | v => v
                       end)
         else kv) a.

(** [soup.new_tag(name, **attrs)]: the constructor of [Tag] hands the
    attributes to the builder, as the parser does *)
Definition new_tag (nm : string) (a : attrs) (sp : soup) : nat * soup :=
  (fresh sp,
   mkSoup (1 + fresh sp) (doc sp)
     (detached sp
      ++ [Elem (fresh sp) nm (replace_cdata_list_attribute_values nm a) []])).

(** Take the element [i] out of wherever it is. *)
Definition take (i : nat) (sp : soup) : option (node * soup) :=
  match soup_lookup i sp with
  | Some e => Some (e, on_trees (splice_in i (fun _ => [])) sp)
  | None => None
  end.

(** [i.extract()] *)
Definition extract (i : nat) (sp : soup) : soup :=
  match take i sp with
  | Some (e, sp') => add_detached e sp'
  | None => sp
  end.

(** [i.decompose()] *)
Definition decompose (i : nat) (sp : soup) : soup :=
  match take i sp with
  | Some (_, sp') => sp'
  | None => sp
  end.

(** [i.parent is not None]: only the root of a detached tree has no
    parent *)
Definition has_parent (i : nat) (sp : soup) : bool :=
  negb (existsb (is_oid i) (detached sp)).

(** [p.insert(k, i)]: [i] leaves its place first; a position past the
    end appends *)
Definition insert (p k i : nat) (sp : soup) : soup :=
  match take i sp with
  | Some (e, sp') =>
      on_trees (update_in p (fun a cs => (a, firstn k cs ++ e :: skipn k cs))) sp'
  | None => sp
  end.

(** [p.append(i)] *)
Definition append (p i : nat) (sp : soup) : soup :=
  match take i sp with
  | Some (e, sp') => on_trees (update_in p (fun a cs => (a, cs ++ [e]))) sp'
  | None => sp
  end.

(** [dst.extend(src.contents)]: every child of [src] moves, in order, to
    the end of [dst] *)
Definition extend (dst src : nat) (sp : soup) : soup :=
  match soup_lookup src sp with
  | Some e =>
      on_trees (update_in dst (fun a cs => (a, cs ++ node_contents e)))
        (on_trees (update_in src (fun a _ => (a, []))) sp)
  | None => sp
  end.

(** [i.replace_with(w)]: [w] takes the place of [i], [i] is detached *)
Definition replace_with (i w : nat) (sp : soup) : soup :=
  match take w sp with
  | Some (new, sp') =>
      match soup_lookup i sp' with
      | Some old => add_detached old (on_trees (splice_in i (fun _ => [new])) sp')
      | None => sp
      end
  | None => sp
  end.

(** [i.unwrap()]: the contents of [i] take its place, [i] is detached,
    empty *)
Definition unwrap (i : nat) (sp : soup) : soup :=
  match soup_lookup i sp with
  | Some old =>
      add_detached (Elem (node_oid old) (node_name old) (node_attrs old) [])
        (on_trees (splice_in i node_contents) sp)
  | None => sp
  end.

(** [i[k] = v] *)
Definition set_attr (i : nat) (k : string) (v : attrval) (sp : soup) : soup :=
  on_trees (update_in i (fun a cs => (attr_set k v a, cs))) sp.

(** [i.string = s] *)
Definition set_string (i : nat) (s : string) (sp : soup) : soup :=
  on_trees (update_in i (fun a _ => (a, [Text s]))) sp.

(** [soup.insert(0, n)] for a node made on the spot *)
Definition soup_insert0 (n : node) (sp : soup) : soup :=
  mkSoup (fresh sp) (n :: doc sp) (detached sp).

(** [soup.clear()]: every child of the soup is extracted *)
Definition soup_clear (sp : soup) : soup :=
  mkSoup (fresh sp) [] (detached sp ++ doc sp).

(** [soup.append(i)] *)
Definition soup_append (i : nat) (sp : soup) : soup :=
  match take i sp with
  | Some (e, sp') => mkSoup (fresh sp') (doc sp' ++ [e]) (detached sp')
  | None => sp
  end.

(** [soup.find_all(names)], as references *)
Definition soup_find_all (names : list string) (sp : soup) : list nat :=
  find_all_oids names (doc sp).

(** [soup.find(name)] *)
Definition soup_find (names : list string) (sp : soup) : option nat :=
  option_map node_oid (find_first names (doc sp)).

(** [i.find_all(names)]: below [i], [i] itself left out *)
Definition tag_find_all (i : nat) (names : list string) (sp : soup) : list nat :=
  match soup_lookup i sp with
  | Some e => find_all_oids names (node_contents e)
  | None => []
  end.

(** [i.find(name)] *)
Definition tag_find (i : nat) (names : list string) (sp : soup) : option nat :=
  hd_error (tag_find_all i names sp).

(** the attributes of [i], as they are now *)
Definition attrs_of (i : nat) (sp : soup) : attrs :=
  match soup_lookup i sp with
  | Some e => node_attrs e
  | None => []
  end.

(** Reading an attribute as a string or as a list.  The parser stores
    [href], [id], [width], [content] and the like as strings and [class]
    as a list, and the sources only add values of those shapes, so the
    other branches are never taken on a parsed document. *)
Definition str_of (v : attrval) : string :=
  match v with
  | AStr s => s
  | AList l => String.concat " " l
  | ABool _ => ""
  end.

Definition list_of (v : option attrval) : list string :=
  match v with
  | Some (AList l) => l
  | Some (AStr s) => [s]
  | _ => []
  end.

(** [tag.get(k) == s] *)
Definition attr_is (k s : string) (a : attrs) : bool :=
  match attr_get k a with
  | Some (AStr v) => String.eqb v s
  | _ => false
  end.

(** a [for] loop over references that updates the soup *)
Definition for_each {A} (l : list A) (body : A -> soup -> soup) (sp : soup)
    : soup :=
  fold_left (fun acc x => body x acc) l sp.

(* ================================================================== *)
(** * convert_html.py *)
(* ================================================================== *)

Module HTMLConverter.

Definition allow_list : list string :=
  ["table"; "p"; "div"; "ul"; "ol"; "li"; "h1"; "h2"; "h3"; "h4"; "h5"; "h6"].

Definition heading_names : list string :=
  ["h1"; "h2"; "h3"; "h4"; "h5"; "h6"].

Definition doctype_marker : node := Comment "DOCTYPE html".

(** the new html element of [_convert_to_html5], with its empty head
    and body: the tag and the soup that holds it, detached *)
Definition make_html_tag (sp : soup) : nat * soup :=
  let (html_tag, sp) := new_tag "html" [] sp in
  let sp := set_attr html_tag "lang" (AStr "en") sp in
  let (head, sp) := new_tag "head" [] sp in
  let sp := append html_tag head sp in
  let (body, sp) := new_tag "body" [] sp in
  (html_tag, append html_tag body sp).

(** the body of [for element in existing_content] *)
Definition move_to_body (html_tag element : nat) (sp : soup) : soup :=
  if has_parent element sp then
    let sp := extract element sp in
    match tag_find html_tag ["body"] sp with
    | Some b => append b element sp
    | None => sp
    end
  else sp.

(** [_convert_to_html5] *)
Definition _convert_to_html5 (sp : soup) : soup :=
  (* if soup.find('html'): soup.html.unwrap() *)
  let sp := match soup_find ["html"] sp with
            | Some h => unwrap h sp
            | None => sp
            end in
  (* if soup.contents: soup.insert(0, Comment('DOCTYPE html')) *)
  let sp := match doc sp with
            | [] => sp
            | _ :: _ => soup_insert0 doctype_marker sp
            end in
  let (html_tag, sp) := make_html_tag sp in
  let existing_content := soup_find_all allow_list sp in
  let sp := for_each existing_content (move_to_body html_tag) sp in
  (* soup.clear(); soup.append(html_tag) *)
  soup_append html_tag (soup_clear sp).

(** [_add_modern_structure] *)
Definition _add_modern_structure (sp : soup) : soup :=
  match soup_find ["head"] sp with
  | None => sp
  | Some head =>
      let (meta_charset, sp) := new_tag "meta" [] sp in
      let sp := set_attr meta_charset "charset" (AStr "utf-8") sp in
      let (meta_viewport, sp) := new_tag "meta" [] sp in
      let sp := set_attr meta_viewport "name" (AStr "viewport") sp in
      let sp :=
        set_attr meta_viewport "content"
          (AStr "width=device-width, initial-scale=1.0") sp in
      let (meta_description, sp) := new_tag "meta" [] sp in
      let sp := set_attr meta_description "name" (AStr "description") sp in
      let sp :=
        set_attr meta_description "content"
          (AStr "Bible study resources and commentary") sp in
      let sp := insert head 0 meta_charset sp in
      let sp := insert head 1 meta_viewport sp in
      let sp := insert head 2 meta_description sp in
      let (css_link, sp) := new_tag "link" [] sp in
      let sp := set_attr css_link "rel" (AStr "stylesheet") sp in
      let sp := set_attr css_link "href" (AStr "css/modern-styles.css") sp in
      let (js_script, sp) := new_tag "script" [] sp in
      let sp := set_attr js_script "src" (AStr "js/modern-features.js") sp in
      let sp := set_attr js_script "defer" (ABool true) sp in
      let (search_script, sp) := new_tag "script" [] sp in
      let sp := set_attr search_script "src" (AStr "js/search.js") sp in
      let sp := set_attr search_script "defer" (ABool true) sp in
      let (search_index_script, sp) := new_tag "script" [] sp in
      let sp :=
        set_attr search_index_script "src" (AStr "js/search-index.js") sp in
      let sp := set_attr search_index_script "defer" (ABool true) sp in
      let sp := append head css_link sp in
      let sp := append head js_script sp in
      let sp := append head search_script sp in
      let sp := append head search_index_script sp in
      let (skip_link, sp) :=
        new_tag "a"
          [("href", AStr "#main-content"); ("class", AStr "skip-link")] sp in
      let sp := set_string skip_link "Skip to main content" sp in
      (* soup.find('body') is an element after _convert_to_html5 *)
      match soup_find ["body"] sp with
      | Some body => insert body 0 skip_link sp
      | None => sp
      end
  end.

(** the test that makes a table a layout table *)
Definition is_layout_table (a : attrs) : bool :=
  attr_is "width" "100%" a
  || truthy (attr_get "cellpadding" a)
  || truthy (attr_get "cellspacing" a)
  || attr_has "bgcolor" a.

(** the three statements that both loops over the cells of a row are
    made of: a new div with the given attributes takes the contents of
    the cell and is appended to [parent] *)
Definition wrap_cell (parent : nat) (a : attrs) (cell : nat) (sp : soup)
    : soup :=
  let (col, sp) := new_tag "div" a sp in
  let sp := extend col cell sp in
  append parent col sp.

Definition column_class (i : nat) : attrs :=
  [("class", AStr ("column column-" ++ PyStr.of_nat (i + 1)))].

Definition grid_item_class : attrs := [("class", AStr "grid-item")].

(** the body of [for row in rows] *)
Definition convert_row (wrapper row : nat) (sp : soup) : soup :=
  let cells := tag_find_all row ["td"; "th"] sp in
  match cells with
  | [cell] =>
      let (section, sp) :=
        new_tag "section" [("class", AStr "content-section")] sp in
      let sp := extend section cell sp in
      append wrapper section sp
  | [_; _] =>
      let (section, sp) :=
        new_tag "div" [("class", AStr "two-column-layout")] sp in
      let sp :=
        for_each (PyStr.enumerate cells)
          (fun '(i, cell) sp => wrap_cell section (column_class i) cell sp)
          sp in
      append wrapper section sp
  | _ =>
      let (section, sp) :=
        new_tag "div" [("class", AStr "grid-layout")] sp in
      let sp :=
        for_each cells
          (fun cell sp => wrap_cell section grid_item_class cell sp) sp in
      append wrapper section sp
  end.

(** the body of [for table in tables] *)
Definition convert_table (table : nat) (sp : soup) : soup :=
  if is_layout_table (attrs_of table sp) then
    let (wrapper, sp) :=
      new_tag "div" [("class", AStr "modern-layout")] sp in
    let rows := tag_find_all table ["tr"] sp in
    let sp := for_each rows (convert_row wrapper) sp in
    replace_with table wrapper sp
  else sp.

(** [_convert_tables] *)
Definition _convert_tables (sp : soup) : soup :=
  let tables := soup_find_all ["table"] sp in
  for_each tables convert_table sp.

(** [_add_accessibility] *)
Definition _add_accessibility (sp : soup) : soup :=
  let sp := match soup_find ["body"] sp with
            | Some main_content =>
                set_attr main_content "id" (AStr "main-content")
                  (set_attr main_content "role" (AStr "main") sp)
            | None => sp
            end in
  let headings := soup_find_all heading_names sp in
  let sp :=
    for_each (PyStr.enumerate headings)
      (fun '(i, heading) sp =>
         if negb (truthy (attr_get "id" (attrs_of heading sp)))
         then set_attr heading "id" (AStr ("heading-" ++ PyStr.of_nat i)) sp
         else sp) sp in
  let images := soup_find_all ["img"] sp in
  let sp :=
    for_each images
      (fun img sp =>
         if negb (truthy (attr_get "alt" (attrs_of img sp)))
         then set_attr img "alt" (AStr "Image") sp
         else sp) sp in
  let links := soup_find_all ["a"] sp in
  for_each links
    (fun link sp =>
       if negb (truthy (attr_get "tabindex" (attrs_of link sp)))
       then set_attr link "tabindex" (AStr "0") sp
       else sp) sp.

(** [_add_responsive_classes] *)
Definition _add_responsive_classes (sp : soup) : soup :=
  let tables := soup_find_all ["table"] sp in
  let sp :=
    for_each tables
      (fun table sp =>
         let a := attrs_of table sp in
         if attr_is "width" "100%" a
         then set_attr table "class"
                (AList (list_of (attr_get "class" a) ++ ["container"])) sp
         else sp) sp in
  let paragraphs := soup_find_all ["p"] sp in
  let sp :=
    for_each paragraphs
      (fun p sp =>
         if negb (truthy (attr_get "class" (attrs_of p sp)))
         then set_attr p "class" (AList ["responsive-text"]) sp
         else sp) sp in
  let links := soup_find_all ["a"] sp in
  for_each links
    (fun link sp =>
       let a := attrs_of link sp in
       match attr_get "href" a with
       | Some href =>
           if PyStr.startswith (str_of href) "http"
           then set_attr link "class"
                  (AList (list_of (attr_get "class" a) ++ ["external-link"])) sp
           else sp
       | None => sp
       end) sp.

Definition site_origin : string := "http://www.bibletexts.com/".

(** [soup.find_all('a', href=True)] *)
Definition anchors_with_href (sp : soup) : list nat :=
  map node_oid
    (filter (fun n => attr_has "href" (node_attrs n)) (find_all ["a"] (doc sp))).

(** the body of [for link in links] in [_update_links] *)
Definition update_link (link : nat) (sp : soup) : soup :=
  match attr_get "href" (attrs_of link sp) with
  | Some v =>
      let href := str_of v in
      if PyStr.startswith href site_origin then
        let relative_path := PyStr.replace href site_origin "" in
        set_attr link "href" (AStr relative_path) sp
      else if PyStr.startswith href "http://" then
        set_attr link "rel" (AStr "noopener noreferrer")
          (set_attr link "target" (AStr "_blank") sp)
      else sp
  | None => sp
  end.

(** [_update_links] *)
Definition _update_links (sp : soup) : soup :=
  for_each (anchors_with_href sp) update_link sp.

(** The passes of [convert_file], between parsing and writing. *)
Definition convert_soup (sp : soup) : soup :=
  let sp := _convert_to_html5 sp in
  let sp := _add_modern_structure sp in
  let sp := _convert_tables sp in
  let sp := _add_accessibility sp in
  let sp := _add_responsive_classes sp in
  _update_links sp.

End HTMLConverter.

(** What the file system and the parser may answer: a value, or an
    exception (any instance of [Exception]). *)
Inductive exc :=
| OSError (msg : string)
| ParseError (msg : string)
| OtherError (msg : string).

Definition result (A : Type) : Type := (exc + A)%type.

Definition ret {A} (x : A) : result A := inr x.

Definition bind {A B} (m : result A) (k : A -> result B) : result B :=
  match m with
  | inl e => inl e
  | inr x => k x
  end.

Notation "x <- m ;; k" := (bind m (fun x => k))
  (at level 61, m at next level, right associativity).

(** The world a batch run sees.  A path is the string of the file's path
    below the scanned directory.  [parse] is
    [BeautifulSoup(content, 'html.parser')]. *)
Record world (time : Type) := mkWorld {
  read_text : string -> result string;
  parse : string -> result soup;
  write_text : string -> list node -> result unit;
  st_mtime : string -> result time
}.

(** [convert_file]: the body of the [try] and the handler *)
Definition convert_file_body {time} (w : world time) (file_path : string)
    : result unit :=
  content <- read_text w file_path ;;
  sp <- parse w content ;;
  let sp := HTMLConverter.convert_soup sp in
  write_text w file_path (doc sp).

Definition convert_file {time} (w : world time) (file_path : string) : bool :=
  match convert_file_body w file_path with
  | inr _ => true
  | inl _ => false
  end.

Record stats := mkStats { converted : nat; failed : nat; skipped : nat }.

Definition stats_add (a b : stats) : stats :=
  mkStats (converted a + converted b) (failed a + failed b)
    (skipped a + skipped b).

(** [any(skip in str(file_path) for skip in ['_files', '.DS_Store'])] *)
Definition is_skipped (file_path : string) : bool :=
  existsb (fun skip => PyStr.contains skip file_path) ["_files"; ".DS_Store"].

(** the body of [for file_path in html_files] in [convert_all] *)
Definition convert_step {time} (w : world time) (st : stats)
    (file_path : string) : stats :=
  if is_skipped file_path
  then mkStats (converted st) (failed st) (skipped st + 1)
  else if convert_file w file_path
       then mkStats (converted st + 1) (failed st) (skipped st)
       else mkStats (converted st) (failed st + 1) (skipped st).

(** [convert_all] on a directory; [html_files] is what the two [rglob]
    calls found *)
Definition convert_all {time} (w : world time) (html_files : list string)
    : stats :=
  fold_left (convert_step w) html_files (mkStats 0 0 0).

(* ================================================================== *)
(** * build_search_index.py *)
(* ================================================================== *)

Module SearchIndexBuilder.

Record heading := mkHeading {
  level : nat;
  htext : string;
  hid : attrval
}.

Record link := mkLink {
  lurl : attrval;
  ltext : string
}.

Record page_data (time : Type) := mkPage {
  title : string;
  url : string;
  content : string;
  headings : list heading;
  links : list link;
  keywords : list string;
  last_modified : time
}.

(** [_extract_title] *)
Definition _extract_title (sp : soup) : string :=
  match find_first ["title"] (doc sp) with
  | Some title_tag => PyStr.strip (get_text title_tag)
  | None =>
      match find_first ["h1"] (doc sp) with
      | Some h1 => PyStr.strip (get_text h1)
      | None => "Untitled"
      end
  end.

(** [_get_relative_url]; the path below the source directory is what
    [relative_to] leaves *)
Definition _get_relative_url (rel_path : string) : string :=
  PyStr.replace rel_path "\" "/".

(** the first statement of [_extract_content]: the soup loses its
    [script] and [style] elements *)
Definition drop_scripts (sp : soup) : soup :=
  for_each (soup_find_all ["script"; "style"] sp) decompose sp.

(** [_extract_content]: the text, and the soup as the call leaves it *)
Definition _extract_content (sp : soup) : string * soup :=
  let sp := drop_scripts sp in
  let text := get_text_of (doc sp) in
  (PyStr.strip (PyStr.collapse_ws text), sp).

(** [int(heading.name[1])] *)
Definition level_of (nm : string) : nat :=
  match String.get 1 nm with
  | Some c => nat_of_ascii c - 48
  | None => 0
  end.

(** [_extract_headings] *)
Definition _extract_headings (sp : soup) : list heading :=
  fold_left
    (fun headings h =>
       headings ++
       [mkHeading (level_of (node_name h))
          (PyStr.strip (get_text h))
          (match attr_get "id" (node_attrs h) with
           | Some v => v
           | None => AStr ""
           end)])
    (find_all HTMLConverter.heading_names (doc sp)) [].

(** the test of [_extract_links] on an href *)
Definition keeps_href (href : string) : bool :=
  negb (PyStr.startswith href "http") && negb (PyStr.startswith href "#").

(** [soup.find_all('a', href=True)], as elements *)
Definition anchors (sp : soup) : list node :=
  filter (fun n => attr_has "href" (node_attrs n)) (find_all ["a"] (doc sp)).

Definition href_of (n : node) : attrval :=
  match attr_get "href" (node_attrs n) with
  | Some v => v
  | None => AStr ""
  end.

(** [_extract_links] *)
Definition _extract_links (sp : soup) : list link :=
  fold_left
    (fun links a =>
       let href := href_of a in
       if keeps_href (str_of href)
       then links ++ [mkLink href (PyStr.strip (get_text a))]
       else links)
    (anchors sp) [].

Definition bible_terms : list string :=
  ["bible"; "scripture"; "gospel"; "testament"; "christian"; "jesus"; "christ";
   "god"; "lord"; "prayer"; "faith"; "salvation"; "grace"; "love"; "peace";
   "forgiveness"; "repentance"; "baptism"; "communion"; "church"; "worship"].

(** [soup.find('meta', attrs={'name': 'keywords'})] *)
Definition find_meta_keywords (sp : soup) : option node :=
  List.find (fun n => attr_is "name" "keywords" (node_attrs n))
    (find_all ["meta"] (doc sp)).

(** the tokens taken from the meta tag *)
Definition meta_tokens (sp : soup) : list string :=
  match find_meta_keywords sp with
  | Some meta_keywords =>
      PyStr.split_comma
        (match attr_get "content" (node_attrs meta_keywords) with
         | Some v => str_of v
         | None => ""
         end)
  | None => []
  end.

(** the second half of [_extract_keywords]: the vocabulary terms found
    in the lower-cased text are appended to [keywords] *)
Definition add_terms (sp : soup) (keywords : list string) : list string :=
  let content := PyStr.lower (get_text_of (doc sp)) in
  fold_left
    (fun keywords term =>
       if PyStr.contains term content then keywords ++ [term] else keywords)
    bible_terms keywords.

(** [list(set(l))]: the members of [l], each once, in the order the
    hash table of this run yields them.  Python salts the hash of a
    string per process, so the order is an input of the run. *)
Definition set_order : Type := list string -> list string.

Definition is_set_order (h : set_order) : Prop :=
  forall l, NoDup (h l) /\ (forall x, In x (h l) <-> In x l).

(** [_extract_keywords] *)
Definition _extract_keywords (h : set_order) (sp : soup) : list string :=
  h (add_terms sp (meta_tokens sp)).

(** the dict display of [_index_file]: the entries are evaluated in the
    order they are written, and [_extract_content] changes the soup that
    the later ones read *)
Definition page_of {time} (h : set_order) (sp : soup) (rel_path : string)
    (mtime : time) : page_data time :=
  let t := _extract_title sp in
  let u := _get_relative_url rel_path in
  let (c, sp) := _extract_content sp in
  let hs := _extract_headings sp in
  let ls := _extract_links sp in
  let ks := _extract_keywords h sp in
  mkPage t u c hs ls ks mtime.

(** [_index_file]: the new index, or the exception *)
Definition _index_file {time} (w : world time) (h : set_order)
    (search_index : list (page_data time)) (file_path : string)
    : result (list (page_data time)) :=
  content <- read_text w file_path ;;
  sp <- parse w content ;;
  mtime <- st_mtime w file_path ;;
  ret (search_index ++ [page_of h sp file_path mtime]).

(** the loop of [build_index]: the handler keeps the index as it was *)
Definition index_step {time} (w : world time) (h : set_order)
    (search_index : list (page_data time)) (html_file : string)
    : list (page_data time) :=
  match _index_file w h search_index html_file with
  | inr idx => idx
  | inl _ => search_index
  end.

Definition build_index {time} (w : world time) (h : set_order)
    (html_files : list string) : list (page_data time) :=
  fold_left (index_step w h) html_files [].

End SearchIndexBuilder.

(* ================================================================== *)
(** * setup.py: the sitemap *)
(* ================================================================== *)

Module BibleTextsSetup.

(** A file found by [rglob]: its path below the root, as components, and
    its modification time. *)
Record html_file (time : Type) := mkFile {
  parts : list string;
  mtime : time
}.

(** [html_file.name]: the last component *)
Definition name {time} (f : html_file time) : string :=
  last (parts f) "".

(** [str(rel_path)] *)
Definition rel_path {time} (f : html_file time) : string :=
  String.concat "/" (parts f).

Definition nl : string := String (ascii_of_nat 10) EmptyString.

Definition dq : string := String (ascii_of_nat 34) EmptyString.

Definition sitemap_header : string :=
  ("<?xml version=" ++ dq ++ "1.0" ++ dq ++ " encoding=" ++ dq ++ "UTF-8"
   ++ dq ++ "?>" ++ nl ++
   "<urlset xmlns=" ++ dq ++ "http://www.sitemaps.org/schemas/sitemap/0.9"
   ++ dq ++ ">")%string.

(** the text added for one file; [fmt] is how the f-string prints the
    float *)
Definition url_entry {time} (fmt : time -> string) (f : html_file time)
    : string :=
  (nl ++ "    <url>" ++
   nl ++ "        <loc>https://bibletexts.com/" ++ rel_path f ++ "</loc>" ++
   nl ++ "        <lastmod>" ++ fmt (mtime f) ++ "</lastmod>" ++
   nl ++ "        <changefreq>monthly</changefreq>" ++
   nl ++ "        <priority>0.8</priority>" ++
   nl ++ "    </url>")%string.

(** the files that get an entry *)
Definition listed {time} (files : list (html_file time))
    : list (html_file time) :=
  filter (fun f => negb (String.eqb (name f) "index.html")) files.

(** [_create_sitemap]: the text written to sitemap.xml *)
Definition _create_sitemap {time} (fmt : time -> string)
    (files : list (html_file time)) : string :=
  (fold_left
     (fun sitemap_content f =>
        if negb (String.eqb (name f) "index.html")
        then sitemap_content ++ url_entry fmt f
        else sitemap_content)
     files sitemap_header
   ++ nl ++ "</urlset>")%string.

End BibleTextsSetup.

(* ================================================================== *)
(** * Vocabulary of the statements *)
(* ================================================================== *)

(** the identities of the elements of a forest, in document order *)
Definition oids (f : list node) : list nat := map node_oid (elements_of f).

(** what an element is by itself: identity, tag name, attributes *)
Definition head_of (n : node) : nat * string * attrs :=
  (node_oid n, node_name n, node_attrs n).

Definition heads (f : list node) : list (nat * string * attrs) :=
  map head_of (elements_of f).

(** A well-formed soup: every element is one object, and [fresh] is
    above the identities in use. *)
Definition wf (sp : soup) : Prop :=
  NoDup (oids (everything sp)) /\
  Forall (fun i => i < fresh sp) (oids (everything sp)).

(** the soup made by the parser: nothing is detached *)
Definition parsed (sp : soup) : Prop := wf sp /\ detached sp = [].

(** A forest without the elements named in [names] (and without what is
    below them). *)
Fixpoint prune_node (names : list string) (n : node) : node :=
  match n with
  | Elem i nm a cs =>
      Elem i nm a
        (flat_map (fun c => if has_name names c then [] else [prune_node names c])
           cs)
  | _ => n
  end.

Definition prune (names : list string) (f : list node) : list node :=
  flat_map (fun c => if has_name names c then [] else [prune_node names c]) f.

(* ================================================================== *)
(** * Facts about trees *)
(* ================================================================== *)

Lemma forest_ind (P : list node -> Prop) :
  P [] ->
  (forall s f, P f -> P (Text s :: f)) ->
  (forall s f, P f -> P (Comment s :: f)) ->
  (forall i nm a cs f, P cs -> P f -> P (Elem i nm a cs :: f)) ->
  forall f, P f.
Proof.
  intros Hnil Ht Hc He.
  assert (Hn : forall n f, P f -> P (n :: f)).
  { induction n as [s | s | i nm a cs IH] using node_rect'; intros f Hf.
    - now apply Ht.
    - now apply Hc.
    - apply He; [| exact Hf].
      induction IH as [| c cs' Hc' _ IHcs]; [exact Hnil |].
      now apply Hc'. }
  induction f as [| n f IH]; [exact Hnil | now apply Hn].
Qed.

Lemma elements_of_app f1 f2 :
  elements_of (f1 ++ f2) = elements_of f1 ++ elements_of f2.
Proof. unfold elements_of. apply flat_map_app. Qed.

Lemma elements_of_elem i nm a cs f :
  elements_of (Elem i nm a cs :: f)
  = Elem i nm a cs :: elements_of cs ++ elements_of f.
Proof. reflexivity. Qed.

Lemma elements_of_text s f : elements_of (Text s :: f) = elements_of f.
Proof. reflexivity. Qed.

Lemma elements_of_comment s f : elements_of (Comment s :: f) = elements_of f.
Proof. reflexivity. Qed.

Lemma oids_app f1 f2 : oids (f1 ++ f2) = oids f1 ++ oids f2.
Proof. unfold oids. now rewrite elements_of_app, map_app. Qed.

Lemma oids_elem i nm a cs f :
  oids (Elem i nm a cs :: f) = i :: oids cs ++ oids f.
Proof. unfold oids. rewrite elements_of_elem. simpl. now rewrite map_app. Qed.

Lemma oids_text s f : oids (Text s :: f) = oids f.
Proof. reflexivity. Qed.

Lemma oids_comment s f : oids (Comment s :: f) = oids f.
Proof. reflexivity. Qed.

Lemma heads_app f1 f2 : heads (f1 ++ f2) = heads f1 ++ heads f2.
Proof. unfold heads. now rewrite elements_of_app, map_app. Qed.

Lemma heads_elem i nm a cs f :
  heads (Elem i nm a cs :: f) = (i, nm, a) :: heads cs ++ heads f.
Proof. unfold heads. rewrite elements_of_elem. simpl. now rewrite map_app. Qed.

Lemma oids_heads f : oids f = map (fun h => fst (fst h)) (heads f).
Proof. unfold oids, heads. rewrite map_map. reflexivity. Qed.

Lemma elements_are_elems f n :
  In n (elements_of f) -> exists i nm a cs, n = Elem i nm a cs.
Proof.
  induction f as [| s f IH | s f IH | i nm a cs f IHcs IHf] using forest_ind;
    intros H.
  - contradiction.
  - now apply IH.
  - now apply IH.
  - rewrite elements_of_elem in H. destruct H as [H | H].
    + subst. now repeat eexists.
    + apply in_app_or in H. destruct H; auto.
Qed.

(** ** lookup *)

Lemma lookup_app i f1 f2 :
  lookup i (f1 ++ f2)
  = match lookup i f1 with Some e => Some e | None => lookup i f2 end.
Proof.
  unfold lookup. rewrite elements_of_app.
  induction (elements_of f1) as [| x l IH]; simpl; [reflexivity |].
  destruct (is_oid i x); [reflexivity | exact IH].
Qed.

Lemma lookup_elem i j nm a cs f :
  lookup i (Elem j nm a cs :: f)
  = if Nat.eqb j i then Some (Elem j nm a cs) else lookup i (cs ++ f).
Proof.
  unfold lookup. rewrite elements_of_elem, elements_of_app. reflexivity.
Qed.

Lemma lookup_text i s f : lookup i (Text s :: f) = lookup i f.
Proof. reflexivity. Qed.

Lemma lookup_comment i s f : lookup i (Comment s :: f) = lookup i f.
Proof. reflexivity. Qed.

Lemma lookup_notin i f : ~ In i (oids f) -> lookup i f = None.
Proof.
  unfold lookup, oids. induction (elements_of f) as [| x l IH]; simpl;
    [reflexivity |].
  intros H. destruct x as [s | s | j nm a cs]; simpl in *; auto.
  destruct (Nat.eqb_spec j i); [exfalso; auto | auto].
Qed.

Lemma lookup_some i f e :
  lookup i f = Some e ->
  In e (elements_of f) /\ node_oid e = i /\
  exists nm a cs, e = Elem i nm a cs.
Proof.
  unfold lookup. intros H. apply find_some in H. destruct H as [Hin He].
  destruct e as [s | s | j nm a cs]; simpl in He; try discriminate.
  apply Nat.eqb_eq in He. subst. repeat split; eauto.
Qed.

Lemma lookup_in_oids i f e : lookup i f = Some e -> In i (oids f).
Proof.
  intros H. apply lookup_some in H. destruct H as (Hin & Hi & _).
  unfold oids. rewrite <- Hi. now apply in_map.
Qed.

Lemma in_oids_lookup i f : In i (oids f) -> exists e, lookup i f = Some e.
Proof.
  intros H. destruct (lookup i f) eqn:E; [eauto |].
  unfold lookup in E. unfold oids in H. apply in_map_iff in H.
  destruct H as (n & Hn & Hin).
  pose proof (find_none _ _ E _ Hin) as Hf.
  destruct (elements_are_elems _ _ Hin) as (j & nm & a & cs & ->).
  simpl in *. subst. now rewrite Nat.eqb_refl in Hf.
Qed.

(** ** update and splice away from the identity *)

Lemma update_in_notin i g f : ~ In i (oids f) -> update_in i g f = f.
Proof.
  induction f as [| s f IH | s f IH | j nm a cs f IHcs IHf] using forest_ind;
    intros H.
  - reflexivity.
  - unfold update_in in *. simpl. f_equal. now apply IH.
  - unfold update_in in *. simpl. f_equal. now apply IH.
  - rewrite oids_elem in H. unfold update_in in *. simpl.
    destruct (Nat.eqb_spec j i) as [-> | Hne]; [exfalso; apply H; now left |].
    f_equal.
    + f_equal. apply IHcs. intros Hin. apply H. right. apply in_or_app. auto.
    + apply IHf. intros Hin. apply H. right. apply in_or_app. auto.
Qed.

Lemma splice_in_app i new f1 f2 :
  splice_in i new (f1 ++ f2) = splice_in i new f1 ++ splice_in i new f2.
Proof. unfold splice_in. apply flat_map_app. Qed.

Lemma splice_in_elem i new j nm a cs f :
  splice_in i new (Elem j nm a cs :: f)
  = (if Nat.eqb j i then new (Elem j nm a cs)
     else [Elem j nm a (splice_in i new cs)]) ++ splice_in i new f.
Proof. reflexivity. Qed.

Lemma splice_in_notin i new f : ~ In i (oids f) -> splice_in i new f = f.
Proof.
  induction f as [| s f IH | s f IH | j nm a cs f IHcs IHf] using forest_ind;
    intros H.
  - reflexivity.
  - change (Text s :: splice_in i new f = Text s :: f). f_equal. now apply IH.
  - change (Comment s :: splice_in i new f = Comment s :: f).
    f_equal. now apply IH.
  - rewrite oids_elem in H. rewrite splice_in_elem.
    destruct (Nat.eqb_spec j i) as [-> | Hne]; [exfalso; apply H; now left |].
    simpl. f_equal.
    + f_equal. apply IHcs. intros Hin. apply H. right. apply in_or_app. auto.
    + apply IHf. intros Hin. apply H. right. apply in_or_app. auto.
Qed.

Lemma update_in_app i g f1 f2 :
  update_in i g (f1 ++ f2) = update_in i g f1 ++ update_in i g f2.
Proof. unfold update_in. apply map_app. Qed.

Lemma update_in_elem i g j nm a cs f :
  update_in i g (Elem j nm a cs :: f)
  = (if Nat.eqb j i then let (a', cs') := g a cs in Elem j nm a' cs'
     else Elem j nm a (update_in i g cs)) :: update_in i g f.
Proof. reflexivity. Qed.

(** ** find_all *)

Lemma find_all_app names f1 f2 :
  find_all names (f1 ++ f2) = find_all names f1 ++ find_all names f2.
Proof. unfold find_all. now rewrite elements_of_app, filter_app. Qed.

Lemma find_all_elem names i nm a cs f :
  find_all names (Elem i nm a cs :: f)
  = (if PyStr.mem nm names then [Elem i nm a cs] else [])
    ++ find_all names cs ++ find_all names f.
Proof.
  unfold find_all. rewrite elements_of_elem. simpl.
  rewrite filter_app. now destruct (PyStr.mem nm names).
Qed.

Lemma find_all_oids_app names f1 f2 :
  find_all_oids names (f1 ++ f2)
  = find_all_oids names f1 ++ find_all_oids names f2.
Proof. unfold find_all_oids. now rewrite find_all_app, map_app. Qed.

Lemma find_all_oids_elem names i nm a cs f :
  find_all_oids names (Elem i nm a cs :: f)
  = (if PyStr.mem nm names then [i] else [])
    ++ find_all_oids names cs ++ find_all_oids names f.
Proof.
  unfold find_all_oids. rewrite find_all_elem, !map_app.
  now destruct (PyStr.mem nm names).
Qed.

Lemma find_all_in_elements names f n :
  In n (find_all names f) -> In n (elements_of f) /\ has_name names n = true.
Proof. unfold find_all. intros H. now apply filter_In in H. Qed.

Lemma find_all_oids_in names f i :
  In i (find_all_oids names f) -> In i (oids f).
Proof.
  unfold find_all_oids, oids. intros H. apply in_map_iff in H.
  destruct H as (n & <- & Hn). apply in_map.
  now apply find_all_in_elements in Hn.
Qed.

(** ** NoDup on forests *)

Lemma NoDup_app_l {A} (l1 l2 : list A) : NoDup (l1 ++ l2) -> NoDup l1.
Proof.
  induction l1 as [| x l1 IH]; simpl; intros H; [constructor |].
  inversion H; subst. constructor.
  - intros Hin. apply H2. apply in_or_app. now left.
  - now apply IH.
Qed.

Lemma NoDup_app_r {A} (l1 l2 : list A) : NoDup (l1 ++ l2) -> NoDup l2.
Proof.
  induction l1 as [| x l1 IH]; simpl; intros H; [exact H |].
  inversion H; subst. now apply IH.
Qed.

Lemma NoDup_app_disj {A} (l1 l2 : list A) x :
  NoDup (l1 ++ l2) -> In x l1 -> In x l2 -> False.
Proof.
  induction l1 as [| y l1 IH]; simpl; intros H H1 H2; [contradiction |].
  inversion H; subst. destruct H1 as [-> | H1].
  - apply H4. apply in_or_app. now right.
  - now apply IH.
Qed.

Lemma NoDup_oids_elem i nm a cs f :
  NoDup (oids (Elem i nm a cs :: f)) ->
  ~ In i (oids cs) /\ ~ In i (oids f) /\ NoDup (oids cs) /\ NoDup (oids f)
  /\ (forall x, In x (oids cs) -> In x (oids f) -> False).
Proof.
  rewrite oids_elem. intros H. inversion H; subst.
  repeat split.
  - intros Hin. apply H2. apply in_or_app. now left.
  - intros Hin. apply H2. apply in_or_app. now right.
  - eapply NoDup_app_l; eauto.
  - eapply NoDup_app_r; eauto.
  - intros x. now apply NoDup_app_disj.
Qed.

(** ** removing elements one identity at a time *)

Definition remove_oid (i : nat) (f : list node) : list node :=
  splice_in i (fun _ => []) f.

Definition remove_oids (l : list nat) (f : list node) : list node :=
  fold_left (fun acc i => remove_oid i acc) l f.

Lemma oids_remove_oid_incl i f x :
  In x (oids (remove_oid i f)) -> In x (oids f).
Proof.
  unfold remove_oid.
  induction f as [| s f IH | s f IH | j nm a cs f IHcs IHf] using forest_ind;
    intros H.
  - exact H.
  - now apply IH.
  - now apply IH.
  - rewrite splice_in_elem in H. rewrite oids_elem.
    destruct (Nat.eqb j i).
    + cbn [app] in H. right. apply in_or_app. right. now apply IHf.
    + cbn [app] in H. rewrite oids_elem in H.
      destruct H as [H | H]; [now left |].
      right. apply in_app_or in H. apply in_or_app.
      destruct H; [left; now apply IHcs | right; now apply IHf].
Qed.

Lemma oids_remove_oids_incl l f x :
  In x (oids (remove_oids l f)) -> In x (oids f).
Proof.
  revert f. induction l as [| i l IH]; simpl; intros f H; [exact H |].
  apply IH in H. now apply oids_remove_oid_incl in H.
Qed.

Lemma remove_oids_app_list l1 l2 f :
  remove_oids (l1 ++ l2) f = remove_oids l2 (remove_oids l1 f).
Proof. unfold remove_oids. apply fold_left_app. Qed.

Lemma remove_oids_app l f1 f2 :
  remove_oids l (f1 ++ f2) = remove_oids l f1 ++ remove_oids l f2.
Proof.
  revert f1 f2. induction l as [| i l IH]; simpl; intros f1 f2; [reflexivity |].
  unfold remove_oid. rewrite splice_in_app. apply IH.
Qed.

Lemma remove_oids_disjoint l f :
  (forall i, In i l -> ~ In i (oids f)) -> remove_oids l f = f.
Proof.
  revert f. induction l as [| i l IH]; simpl; intros f H; [reflexivity |].
  unfold remove_oid. rewrite splice_in_notin by (apply H; now left).
  apply IH. intros j Hj. apply H. now right.
Qed.

Lemma remove_oids_nil l : remove_oids l [] = [].
Proof. induction l; simpl; auto. Qed.

Lemma remove_oids_cons i l f :
  remove_oids (i :: l) f = remove_oids l (remove_oid i f).
Proof. reflexivity. Qed.

Lemma remove_oid_elem i j nm a cs f :
  remove_oid i (Elem j nm a cs :: f)
  = (if Nat.eqb j i then [] else [Elem j nm a (remove_oid i cs)])
    ++ remove_oid i f.
Proof. reflexivity. Qed.

Lemma remove_oids_root l j nm a cs :
  ~ In j l ->
  remove_oids l [Elem j nm a cs] = [Elem j nm a (remove_oids l cs)].
Proof.
  revert cs. induction l as [| i l IH]; intros cs H; [reflexivity |].
  rewrite !remove_oids_cons, remove_oid_elem.
  destruct (Nat.eqb_spec j i) as [-> | Hne]; [exfalso; apply H; now left |].
  change (remove_oid i []) with (@nil node).
  rewrite app_nil_r. apply IH. intros Hin. apply H. now right.
Qed.

(** Removing the elements named in [names], found beforehand, one after
    the other, is pruning. *)
Lemma remove_found_is_prune names f :
  NoDup (oids f) ->
  remove_oids (find_all_oids names f) f = prune names f.
Proof.
  induction f as [| s f IH | s f IH | j nm a cs f IHcs IHf] using forest_ind;
    intros ND.
  - reflexivity.
  - change (Text s :: f) with ([Text s] ++ f) at 2.
    change (find_all_oids names (Text s :: f)) with (find_all_oids names f).
    rewrite remove_oids_app.
    rewrite (remove_oids_disjoint _ [Text s]) by (intros; simpl; tauto).
    change (prune names (Text s :: f)) with (Text s :: prune names f).
    simpl. f_equal. now apply IH.
  - change (Comment s :: f) with ([Comment s] ++ f) at 2.
    change (find_all_oids names (Comment s :: f)) with (find_all_oids names f).
    rewrite remove_oids_app.
    rewrite (remove_oids_disjoint _ [Comment s]) by (intros; simpl; tauto).
    change (prune names (Comment s :: f)) with (Comment s :: prune names f).
    simpl. f_equal. now apply IH.
  - destruct (NoDup_oids_elem ND) as (Hjc & Hjf & NDc & NDf & Hdisj).
    rewrite find_all_oids_elem.
    change (Elem j nm a cs :: f) with ([Elem j nm a cs] ++ f) at 1.
    rewrite remove_oids_app.
    assert (Hrest : remove_oids
              ((if PyStr.mem nm names then [j] else [])
               ++ find_all_oids names cs ++ find_all_oids names f) f
            = prune names f).
    { rewrite !remove_oids_app_list.
      rewrite (remove_oids_disjoint _ f).
      - rewrite (remove_oids_disjoint _ f); [now apply IHf |].
        intros i Hi Hin. apply find_all_oids_in in Hi. eauto.
      - intros i Hi. destruct (PyStr.mem nm names); simpl in Hi; [| tauto].
        destruct Hi as [<- | []]. exact Hjf. }
    rewrite Hrest.
    change (prune names (Elem j nm a cs :: f))
      with ((if PyStr.mem nm names then []
             else [Elem j nm a (prune names cs)]) ++ prune names f).
    f_equal.
    destruct (PyStr.mem nm names) eqn:Hm.
    + cbn [app]. rewrite remove_oids_cons, remove_oid_elem, Nat.eqb_refl.
      cbn [app]. change (remove_oid j []) with (@nil node).
      apply remove_oids_nil.
    + cbn [app]. rewrite remove_oids_root.
      * f_equal. f_equal.
        rewrite remove_oids_app_list, IHcs by exact NDc.
        apply remove_oids_disjoint.
        intros i Hi Hin. apply find_all_oids_in in Hi.
        assert (Hin' : In i (oids cs)).
        { rewrite <- IHcs in Hin by exact NDc.
          now apply oids_remove_oids_incl in Hin. }
        eauto.
      * intros Hin. apply in_app_or in Hin.
        destruct Hin as [Hin | Hin]; apply find_all_oids_in in Hin; auto.
Qed.

(** ** the soup operations, seen on the document *)

Lemma lookup_none_notin i f : lookup i f = None -> ~ In i (oids f).
Proof.
  intros H Hin. apply in_oids_lookup in Hin. destruct Hin as (e & He).
  congruence.
Qed.




Lemma fold_append_filter {A} (p : A -> bool) (l acc : list A) :
  fold_left (fun acc x => if p x then acc ++ [x] else acc) l acc
  = acc ++ filter p l.
Proof.
  revert acc. induction l as [| x l IH]; intros acc; simpl.
  - now rewrite app_nil_r.
  - rewrite IH. destruct (p x); [now rewrite <- app_assoc | reflexivity].
Qed.

Lemma add_terms_filter sp kw :
  SearchIndexBuilder.add_terms sp kw
  = kw ++ filter
            (fun term =>
               PyStr.contains term (PyStr.lower (get_text_of (doc sp))))
            SearchIndexBuilder.bible_terms.
Proof. unfold SearchIndexBuilder.add_terms. apply fold_append_filter. Qed.

(** ** sets of strings *)

Lemma nodup_is_set_order :
  SearchIndexBuilder.is_set_order (nodup string_dec).
Proof.
  intros l. split; [apply NoDup_nodup | intros x; apply nodup_In].
Qed.

Ltac solve_nodup :=
  vm_compute; repeat constructor; simpl; intuition (try discriminate; try lia).

(* ================================================================== *)
(** * The indexer: keywords and the removed scripts *)
(* ================================================================== *)

(** a page whose only "god" is inside a script *)
Definition page_with_script : soup :=
  mkSoup 3
    [Elem 0 "script" [] [Text (mkString Script "var god = 1;")];
     Elem 1 "p" [] [Text "Hello "; Elem 2 "b" [] [Text "world"]]]
    [].






(* ================================================================== *)
(** * The indexer: links *)
(* ================================================================== *)

(** The claim's words: an absolute http(s) URL, a pure fragment. *)
Definition is_absolute_http_url (href : string) : bool :=
  PyStr.startswith href "http://" || PyStr.startswith href "https://".

Definition is_fragment (href : string) : bool := PyStr.startswith href "#".

Definition link_of (a : node) : SearchIndexBuilder.link :=
  SearchIndexBuilder.mkLink (SearchIndexBuilder.href_of a)
    (PyStr.strip (get_text a)).

(** the links field as C7 words it *)
Definition links_as_claimed (sp : soup) : list SearchIndexBuilder.link :=
  map link_of
    (filter
       (fun a =>
          negb (is_absolute_http_url (str_of (SearchIndexBuilder.href_of a)))
          && negb (is_fragment (str_of (SearchIndexBuilder.href_of a))))
       (SearchIndexBuilder.anchors sp)).

(** a page that links to a file whose name begins with "http" *)
Definition page_with_http_named_link : soup :=
  mkSoup 2
    [Elem 0 "a" [("href", AStr "http-status-codes.html")] [Text " Codes "];
     Elem 1 "a" [("href", AStr "notes.html")] [Text "Notes"]]
    [].

Lemma fold_append_map_filter {A B} (p : A -> bool) (g : A -> B) l acc :
  fold_left (fun acc x => if p x then acc ++ [g x] else acc) l acc
  = acc ++ map g (filter p l).
Proof.
  revert acc. induction l as [| x l IH]; intros acc; simpl.
  - now rewrite app_nil_r.
  - rewrite IH. destruct (p x); simpl; [now rewrite <- app_assoc | reflexivity].
Qed.

(** The links field at any document: the anchors with an href that
    starts neither with the four characters "http" nor with "#", each
    with its raw href and its trimmed text, in document order. *)
Lemma extract_links_keeps_the_hrefs_not_starting_with_http_or_hash :
  forall sp : soup,
    SearchIndexBuilder._extract_links sp
    = map link_of
        (filter
           (fun a =>
              negb (PyStr.startswith
                      (str_of (SearchIndexBuilder.href_of a)) "http")
              && negb (PyStr.startswith
                         (str_of (SearchIndexBuilder.href_of a)) "#"))
           (filter (fun n => attr_has "href" (node_attrs n))
              (find_all ["a"] (doc sp)))).
Proof.
  intros sp. unfold SearchIndexBuilder._extract_links.
  rewrite (fold_append_map_filter
             (fun a => SearchIndexBuilder.keeps_href
                         (str_of (SearchIndexBuilder.href_of a)))
             link_of).
  reflexivity.
Qed.

(** C7 at a page that links to "http-status-codes.html": the href is
    relative, no absolute http(s) URL and no fragment, and an internal
    link; the record of the page does not have it among its links. *)
Theorem C7_relative_href_beginning_with_http_is_left_out :
  is_absolute_http_url "http-status-codes.html" = false /\
  is_fragment "http-status-codes.html" = false /\
  links_as_claimed page_with_http_named_link
  = [SearchIndexBuilder.mkLink (AStr "http-status-codes.html") "Codes";
     SearchIndexBuilder.mkLink (AStr "notes.html") "Notes"] /\
  SearchIndexBuilder._extract_links page_with_http_named_link
  = [SearchIndexBuilder.mkLink (AStr "notes.html") "Notes"] /\
  SearchIndexBuilder.links
    (SearchIndexBuilder.page_of (nodup string_dec) page_with_http_named_link
       "page.html" 0)
  = [SearchIndexBuilder.mkLink (AStr "notes.html") "Notes"].
Proof. repeat split; vm_compute; reflexivity. Qed.

(** the test looks at the case of the letters: an absolute URL written
    with a capital scheme is among the links *)
Example capital_scheme_is_kept :
  SearchIndexBuilder._extract_links
    (mkSoup 1 [Elem 0 "a" [("href", AStr "HTTP://X.com")] [Text "X"]] [])
  = [SearchIndexBuilder.mkLink (AStr "HTTP://X.com") "X"].
Proof. reflexivity. Qed.

(* ================================================================== *)
(** * The converter: links *)
(* ================================================================== *)

Definition page_with_link (href : string) : soup :=
  mkSoup 1 [Elem 0 "a" [("href", AStr href)] [Text "x"]] [].

Definition href_after (sp : soup) : option attrval :=
  attr_get "href" (attrs_of 0 sp).

(** the two anchors of the specification's scenario C *)
Example scenario_C_site_link :
  doc (HTMLConverter._update_links
         (page_with_link "http://www.bibletexts.com/topical.html"))
  = [Elem 0 "a" [("href", AStr "topical.html")] [Text "x"]].
Proof. reflexivity. Qed.

Example scenario_C_external_link :
  doc (HTMLConverter._update_links (page_with_link "http://example.com"))
  = [Elem 0 "a"
       [("href", AStr "http://example.com"); ("target", AStr "_blank");
        ("rel", AStr "noopener noreferrer")] [Text "x"]].
Proof. reflexivity. Qed.

Example fragment_and_relative_links_stay :
  doc (HTMLConverter._update_links (page_with_link "#top"))
  = doc (page_with_link "#top") /\
  doc (HTMLConverter._update_links (page_with_link "a/b.html"))
  = doc (page_with_link "a/b.html").
Proof. split; reflexivity. Qed.

Definition redirect_href : string :=
  "http://www.bibletexts.com/go.html?next=http://www.bibletexts.com/topical.html".

(** C3 at an href that holds the site origin twice: the code removes
    both occurrences, the remainder after the prefix keeps the second. *)
Theorem C3_origin_removed_at_every_occurrence :
  PyStr.startswith redirect_href HTMLConverter.site_origin = true /\
  PyStr.drop (String.length HTMLConverter.site_origin) redirect_href
  = "go.html?next=http://www.bibletexts.com/topical.html" /\
  href_after (HTMLConverter._update_links (page_with_link redirect_href))
  = Some (AStr "go.html?next=topical.html").
Proof. repeat split; reflexivity. Qed.

(* ================================================================== *)
(** * The converter: the doctype marker *)
(* ================================================================== *)

Definition one_paragraph : soup := mkSoup 1 [Elem 0 "p" [] [Text "x"]] [].

Lemma lookup_is_elem i f e : lookup i f = Some e -> forall s, e <> Comment s.
Proof.
  intros H s ->. apply lookup_some in H.
  destruct H as (_ & _ & nm & a & cs & H). discriminate.
Qed.

(** Whatever the input, [_convert_to_html5] ends by clearing the soup
    and appending the new html element: the marker it inserted is not in
    the document any more. *)
Lemma marker_not_in_html5_document sp :
  ~ In HTMLConverter.doctype_marker (doc (HTMLConverter._convert_to_html5 sp)).
Proof.
  unfold HTMLConverter._convert_to_html5. cbv zeta.
  destruct (HTMLConverter.make_html_tag _) as [html_tag sp1].
  match goal with |- ~ In _ (doc (soup_append ?h (soup_clear ?S))) =>
    generalize S; intros S0 end.
  unfold soup_append, take, soup_clear.
  match goal with |- context [soup_lookup ?i ?S] =>
    destruct (soup_lookup i S) eqn:E end.
  - simpl. intros [H | []].
    unfold soup_lookup in E. unfold HTMLConverter.doctype_marker in H.
    eapply lookup_is_elem; eauto.
  - simpl. tauto.
Qed.

(** C4 at a one-paragraph document: the converted document is the html
    element alone; the marker lies among the detached nodes. *)
Theorem C4_marker_is_cleared_with_the_soup :
  (exists a cs, doc (HTMLConverter.convert_soup one_paragraph)
                = [Elem 1 "html" a cs]) /\
  hd_error (doc (HTMLConverter.convert_soup one_paragraph))
  <> Some HTMLConverter.doctype_marker /\
  In HTMLConverter.doctype_marker
    (detached (HTMLConverter.convert_soup one_paragraph)).
Proof.
  split; [| split].
  - vm_compute. eauto.
  - vm_compute. discriminate.
  - vm_compute. auto.
Qed.

(* ================================================================== *)
(** * The sitemap *)
(* ================================================================== *)





(** C9 at a directory whose only page is the index of a subdirectory:
    it is not the root index, and the sitemap has no entry for it. *)
Theorem C9_index_of_a_subdirectory_is_left_out :
  forall (time : Type) (fmt : time -> string) (t : time),
    let f := BibleTextsSetup.mkFile ["studies"; "index.html"] t in
    BibleTextsSetup.rel_path f = "studies/index.html" /\
    BibleTextsSetup.listed [f] = [] /\
    BibleTextsSetup._create_sitemap fmt [f]
    = (BibleTextsSetup.sitemap_header ++ BibleTextsSetup.nl ++ "</urlset>")%string.
Proof. intros. repeat split; reflexivity. Qed.

(* ================================================================== *)
(** * Batch runs: a file that raises is skipped *)
(* ================================================================== *)

(** An exception raised while a file is read, parsed or written by the
    converter. *)
Definition convert_raises {time} (w : world time) (f : string) (e : exc)
    : Prop :=
  read_text w f = inl e \/
  (exists c, read_text w f = inr c /\ parse w c = inl e) \/
  (exists c sp, read_text w f = inr c /\ parse w c = inr sp /\
                write_text w f (doc (HTMLConverter.convert_soup sp)) = inl e).

(** An exception raised while a file is read, parsed or stat'ed by the
    indexer. *)
Definition index_raises {time} (w : world time) (f : string) (e : exc)
    : Prop :=
  read_text w f = inl e \/
  (exists c, read_text w f = inr c /\ parse w c = inl e) \/
  (exists c sp, read_text w f = inr c /\ parse w c = inr sp /\
                st_mtime w f = inl e).

Lemma convert_raises_false {time} (w : world time) f e :
  convert_raises w f e -> convert_file w f = false.
Proof.
  unfold convert_file, convert_file_body, bind.
  intros [H | [(c & Hr & Hp) | (c & sp & Hr & Hp & Hw)]].
  - now rewrite H.
  - now rewrite Hr, Hp.
  - now rewrite Hr, Hp, Hw.
Qed.

Lemma index_raises_keeps {time} (w : world time) h idx f e :
  index_raises w f e -> SearchIndexBuilder.index_step w h idx f = idx.
Proof.
  unfold SearchIndexBuilder.index_step, SearchIndexBuilder._index_file, bind.
  intros [H | [(c & Hr & Hp) | (c & sp & Hr & Hp & Hw)]].
  - now rewrite H.
  - now rewrite Hr, Hp.
  - now rewrite Hr, Hp, Hw.
Qed.

Lemma stats_eq a b :
  converted a = converted b -> failed a = failed b -> skipped a = skipped b ->
  a = b.
Proof. destruct a, b; simpl; intros; subst; reflexivity. Qed.

Lemma convert_fold_add {time} (w : world time) l st :
  fold_left (convert_step w) l st = stats_add st (convert_all w l).
Proof.
  unfold convert_all. revert st.
  induction l as [| f l IH]; intros st.
  - simpl. apply stats_eq; simpl; lia.
  - cbn [fold_left]. rewrite IH. rewrite (IH (convert_step w _ f)).
    unfold convert_step.
    destruct (is_skipped f); [| destruct (convert_file w f)];
      apply stats_eq; simpl; lia.
Qed.

Lemma index_fold_app {time} (w : world time) h l
    (idx : list (SearchIndexBuilder.page_data time)) :
  fold_left (SearchIndexBuilder.index_step w h) l idx
  = idx ++ SearchIndexBuilder.build_index w h l.
Proof.
  unfold SearchIndexBuilder.build_index. revert idx.
  induction l as [| f l IH]; intros idx.
  - simpl. now rewrite app_nil_r.
  - cbn [fold_left]. rewrite IH. rewrite (IH (SearchIndexBuilder.index_step w h [] f)).
    rewrite app_assoc. f_equal.
    unfold SearchIndexBuilder.index_step, SearchIndexBuilder._index_file, bind, ret.
    destruct (read_text w f) as [e | c]; [now rewrite app_nil_r |].
    destruct (parse w c) as [e | sp]; [now rewrite app_nil_r |].
    destruct (st_mtime w f) as [e | t]; [now rewrite app_nil_r | reflexivity].
Qed.

(** C8: a file whose reading, parsing or writing raises makes
    [convert_file] answer False; the converter counts one failure for it
    and goes on with the files after it, and the indexer adds no record
    for it and goes on as well.  Both loops are total functions of the
    list of files: no outcome of a file ends the run. *)
Theorem C8_a_raising_file_is_skipped_and_the_run_goes_on :
  forall (time : Type) (w : world time) (h : SearchIndexBuilder.set_order)
         (pre post : list string) (f : string) (e : exc),
    (convert_raises w f e ->
     is_skipped f = false ->
     convert_file w f = false /\
     convert_all w (pre ++ f :: post)
     = stats_add (stats_add (convert_all w pre) (mkStats 0 1 0))
         (convert_all w post)) /\
    (index_raises w f e ->
     SearchIndexBuilder.build_index w h (pre ++ f :: post)
     = SearchIndexBuilder.build_index w h pre
       ++ SearchIndexBuilder.build_index w h post).
Proof.
  intros time w h pre post f e. split.
  - intros Hr Hs. pose proof (convert_raises_false Hr) as Hf.
    split; [exact Hf |].
    unfold convert_all at 1. rewrite fold_left_app. cbn [fold_left].
    rewrite convert_fold_add. f_equal.
    unfold convert_all.
    set (st := fold_left (convert_step w) pre (mkStats 0 0 0)).
    unfold convert_step. rewrite Hs, Hf.
    apply stats_eq; cbn [converted failed skipped stats_add]; lia.
  - intros Hr.
    unfold SearchIndexBuilder.build_index at 1.
    rewrite fold_left_app. cbn [fold_left].
    fold (SearchIndexBuilder.build_index w h pre).
    rewrite (index_raises_keeps h _ Hr). apply index_fold_app.
Qed.

(** a world with one unreadable file; the other files hold one
    paragraph *)
Definition world_with_unreadable_file : world nat :=
  mkWorld
    (fun p => if String.eqb p "locked.html"
              then inl (OSError "Permission denied")
              else inr "<p>x</p>")
    (fun _ => inr (mkSoup 1 [Elem 0 "p" [] [Text "x"]] []))
    (fun _ _ => inr tt)
    (fun _ => inr 0).

Lemma C8_witness :
  convert_all world_with_unreadable_file ["a.html"; "locked.html"; "b.html"]
  = mkStats 2 1 0 /\
  List.length
    (SearchIndexBuilder.build_index world_with_unreadable_file
       (nodup string_dec) ["a.html"; "locked.html"; "b.html"]) = 2.
Proof.
  destruct (@C8_a_raising_file_is_skipped_and_the_run_goes_on nat
              world_with_unreadable_file (nodup string_dec)
              ["a.html"] ["b.html"] "locked.html"
              (OSError "Permission denied")) as [Hc Hi].
  split.
  - destruct Hc as [_ Hc]; [left; reflexivity | reflexivity |].
    change (["a.html"; "locked.html"; "b.html"])
      with (["a.html"] ++ "locked.html" :: ["b.html"]).
    rewrite Hc. reflexivity.
  - change (["a.html"; "locked.html"; "b.html"])
      with (["a.html"] ++ "locked.html" :: ["b.html"]).
    rewrite Hi; [reflexivity | left; reflexivity].
Defined.

(* ================================================================== *)
(** * The indexer: two runs on the same files *)
(* ================================================================== *)

Definition raises {A} (m : result A) : bool :=
  match m with inl _ => true | inr _ => false end.

(** Two records with the fields C6 names: equal, the keywords as the
    set they are. *)
Definition same_fields {time} (a b : SearchIndexBuilder.page_data time)
    : Prop :=
  SearchIndexBuilder.title a = SearchIndexBuilder.title b /\
  SearchIndexBuilder.url a = SearchIndexBuilder.url b /\
  SearchIndexBuilder.content a = SearchIndexBuilder.content b /\
  SearchIndexBuilder.headings a = SearchIndexBuilder.headings b /\
  SearchIndexBuilder.links a = SearchIndexBuilder.links b /\
  Permutation (SearchIndexBuilder.keywords a) (SearchIndexBuilder.keywords b) /\
  NoDup (SearchIndexBuilder.keywords a) /\
  NoDup (SearchIndexBuilder.keywords b).

Lemma set_orders_agree h1 h2 l :
  SearchIndexBuilder.is_set_order h1 -> SearchIndexBuilder.is_set_order h2 ->
  Permutation (h1 l) (h2 l) /\ NoDup (h1 l) /\ NoDup (h2 l).
Proof.
  intros H1 H2. destruct (H1 l) as [N1 I1]. destruct (H2 l) as [N2 I2].
  repeat split; auto. apply NoDup_Permutation; auto.
  intros x. rewrite I1, I2. tauto.
Qed.

Lemma build_index_cons {time} (w : world time) h f l :
  SearchIndexBuilder.build_index w h (f :: l)
  = SearchIndexBuilder.index_step w h [] f
    ++ SearchIndexBuilder.build_index w h l.
Proof.
  unfold SearchIndexBuilder.build_index at 1. cbn [fold_left].
  apply index_fold_app.
Qed.

(** C6: two runs over the same files, with the same bytes read and the
    same parser, each with the hash order of its own process, build
    indexes of the same length whose records agree on title, url,
    content, headings and links, and hold the same keywords; when the
    modification times are the same too, so are the times recorded. *)
Theorem C6_two_runs_build_the_same_records :
  forall (time : Type) (w1 w2 : world time)
         (h1 h2 : SearchIndexBuilder.set_order) (files : list string),
    SearchIndexBuilder.is_set_order h1 ->
    SearchIndexBuilder.is_set_order h2 ->
    (forall f, read_text w1 f = read_text w2 f) ->
    (forall c, parse w1 c = parse w2 c) ->
    (forall f, raises (st_mtime w1 f) = raises (st_mtime w2 f)) ->
    Forall2 same_fields
      (SearchIndexBuilder.build_index w1 h1 files)
      (SearchIndexBuilder.build_index w2 h2 files) /\
    ((forall f, st_mtime w1 f = st_mtime w2 f) ->
     map (@SearchIndexBuilder.last_modified time)
       (SearchIndexBuilder.build_index w1 h1 files)
     = map (@SearchIndexBuilder.last_modified time)
         (SearchIndexBuilder.build_index w2 h2 files)).
Proof.
  intros time w1 w2 h1 h2 files H1 H2 Hread Hparse Hstat.
  split.
  - induction files as [| f files IH]; [constructor |].
    rewrite !build_index_cons. apply Forall2_app; [| exact IH].
    unfold SearchIndexBuilder.index_step, SearchIndexBuilder._index_file,
      bind, ret.
    rewrite <- Hread. destruct (read_text w1 f) as [e | c]; [constructor |].
    rewrite <- Hparse. destruct (parse w1 c) as [e | sp]; [constructor |].
    specialize (Hstat f).
    destruct (st_mtime w1 f) as [e1 | t1], (st_mtime w2 f) as [e2 | t2];
      simpl in Hstat; try discriminate; [constructor |].
    simpl. constructor; [| constructor].
    unfold same_fields, SearchIndexBuilder.page_of. simpl.
    repeat split; try reflexivity;
      unfold SearchIndexBuilder._extract_keywords;
      eapply set_orders_agree; eauto.
  - intros Hsame. induction files as [| f files IH]; [reflexivity |].
    rewrite !build_index_cons, !map_app. f_equal; [| exact IH].
    unfold SearchIndexBuilder.index_step, SearchIndexBuilder._index_file,
      bind, ret.
    rewrite <- Hread. destruct (read_text w1 f) as [e | c]; [reflexivity |].
    rewrite <- Hparse. destruct (parse w1 c) as [e | sp]; [reflexivity |].
    rewrite <- Hsame. destruct (st_mtime w1 f); reflexivity.
Qed.

(** another order of the same set *)
Definition reversed_order : SearchIndexBuilder.set_order :=
  fun l => rev (nodup string_dec l).

Lemma reversed_is_set_order : SearchIndexBuilder.is_set_order reversed_order.
Proof.
  intros l. unfold reversed_order. split.
  - apply NoDup_rev, NoDup_nodup.
  - intros x. rewrite <- in_rev. apply nodup_In.
Qed.

(** a world whose one page mentions two terms of the vocabulary *)
Definition world_with_psalm : world nat :=
  mkWorld
    (fun _ => inr "<title>Psalm 23</title>The Lord is my shepherd")
    (fun _ =>
       inr (mkSoup 1
              [Elem 0 "title" [] [Text "Psalm 23"];
               Text "The Lord is my shepherd; God is love."] []))
    (fun _ _ => inr tt)
    (fun _ => inr 7).

Lemma C6_witness :
  Forall2 same_fields
    (SearchIndexBuilder.build_index world_with_psalm (nodup string_dec)
       ["psalm23.html"])
    (SearchIndexBuilder.build_index world_with_psalm reversed_order
       ["psalm23.html"]).
Proof.
  apply (@C6_two_runs_build_the_same_records nat world_with_psalm
           world_with_psalm (nodup string_dec) reversed_order
           ["psalm23.html"]).
  - exact nodup_is_set_order.
  - exact reversed_is_set_order.
  - reflexivity.
  - reflexivity.
  - reflexivity.
Defined.

(** The two runs need not list the keywords in the same order. *)
Example keyword_order_depends_on_the_run :
  map (@SearchIndexBuilder.keywords nat)
    (SearchIndexBuilder.build_index world_with_psalm (nodup string_dec)
       ["psalm23.html"]) = [["god"; "lord"; "love"]] /\
  map (@SearchIndexBuilder.keywords nat)
    (SearchIndexBuilder.build_index world_with_psalm reversed_order
       ["psalm23.html"]) = [["love"; "lord"; "god"]].
Proof. split; reflexivity. Qed.

Unset Implicit Arguments.

(* ================================================================== *)
(** * Passes that only write attributes *)
(* ================================================================== *)

Definition head : Type := (nat * string * attrs)%type.
Definition h_id (h : head) : nat := fst (fst h).
Definition h_name (h : head) : string := snd (fst h).
Definition h_attrs (h : head) : attrs := snd h.

(** the effect of [i[k] = v] on one element *)
Definition on_attrs (i : nat) (g : attrs -> attrs) (h : head) : head :=
  if Nat.eqb (h_id h) i then (h_id h, h_name h, g (h_attrs h)) else h.

(** the statement [if not i.get(k): i[k] = v] *)
Definition fill (k : string) (i : nat) (v : attrval) (sp : soup) : soup :=
  if negb (truthy (attr_get k (attrs_of i sp))) then set_attr i k v sp else sp.

(** and its effect on one element *)
Definition fill_head (k : string) (i : nat) (v : attrval) (h : head) : head :=
  if Nat.eqb (h_id h) i && negb (truthy (attr_get k (h_attrs h)))
  then (h_id h, h_name h, attr_set k v (h_attrs h))
  else h.

Definition preserves (phi : head -> head) : Prop :=
  forall h, h_id (phi h) = h_id h /\ h_name (phi h) = h_name h.

(** the attributes of the first element with identity [i] *)
Definition attrs_in (i : nat) (H : list head) : attrs :=
  match List.find (fun h => Nat.eqb (h_id h) i) H with
  | Some h => h_attrs h
  | None => []
  end.

Definition ids_named (names : list string) (H : list head) : list nat :=
  map h_id (filter (fun h => PyStr.mem (h_name h) names) H).

Lemma on_attrs_preserves i g : preserves (on_attrs i g).
Proof.
  intros h. unfold on_attrs. destruct (Nat.eqb (h_id h) i); auto.
Qed.

Lemma fill_head_preserves k i v : preserves (fill_head k i v).
Proof.
  intros h. unfold fill_head.
  destruct (Nat.eqb (h_id h) i && negb (truthy (attr_get k (h_attrs h)))); auto.
Qed.

Lemma preserves_compose phi psi :
  preserves phi -> preserves psi -> preserves (fun h => psi (phi h)).
Proof.
  intros H1 H2 h. destruct (H1 h) as [A B]. destruct (H2 (phi h)) as [C D].
  split; congruence.
Qed.

Lemma preserves_id : preserves (fun h => h).
Proof. intros h. auto. Qed.

Lemma map_h_id_heads f : map h_id (heads f) = oids f.
Proof. unfold heads, oids. rewrite map_map. reflexivity. Qed.

Lemma map_preserves_ids phi H :
  preserves phi -> map h_id (map phi H) = map h_id H.
Proof.
  intros Hp. rewrite map_map. apply map_ext. intros h. apply Hp.
Qed.

Lemma ids_named_preserves phi names H :
  preserves phi -> ids_named names (map phi H) = ids_named names H.
Proof.
  intros Hp. unfold ids_named. induction H as [| h H IH]; [reflexivity |].
  cbn [map filter]. destruct (Hp h) as [Hi Hn]. rewrite Hn.
  destruct (PyStr.mem (h_name h) names); cbn [map]; now rewrite ?Hi, IH.
Qed.

Lemma on_attrs_notin i g H :
  ~ In i (map h_id H) -> map (on_attrs i g) H = H.
Proof.
  induction H as [| h H IH]; intros Hn; [reflexivity |].
  cbn [map] in *. unfold on_attrs at 1.
  destruct (Nat.eqb_spec (h_id h) i) as [E | E].
  - exfalso. apply Hn. now left.
  - f_equal. apply IH. intros Hin. apply Hn. now right.
Qed.

Lemma heads_text s f : heads (Text s :: f) = heads f.
Proof. reflexivity. Qed.

Lemma heads_comment s f : heads (Comment s :: f) = heads f.
Proof. reflexivity. Qed.

Lemma heads_update_attrs i g f :
  NoDup (oids f) ->
  heads (update_in i (fun a cs => (g a, cs)) f) = map (on_attrs i g) (heads f).
Proof.
  induction f as [| s f IH | s f IH | j nm a cs f IHcs IHf] using forest_ind;
    intros ND.
  - reflexivity.
  - change (update_in i (fun a cs => (g a, cs)) (Text s :: f))
      with (Text s :: update_in i (fun a cs => (g a, cs)) f).
    rewrite !heads_text. now apply IH.
  - change (update_in i (fun a cs => (g a, cs)) (Comment s :: f))
      with (Comment s :: update_in i (fun a cs => (g a, cs)) f).
    rewrite !heads_comment. now apply IH.
  - destruct (NoDup_oids_elem ND) as (Hjc & Hjf & NDc & NDf & Hdisj).
    rewrite update_in_elem, heads_elem. cbn [map]. rewrite map_app.
    unfold on_attrs at 1. cbn [h_id h_name h_attrs fst snd].
    destruct (Nat.eqb_spec j i) as [-> | Hne].
    + rewrite heads_elem.
      rewrite update_in_notin by assumption.
      rewrite !on_attrs_notin by (now rewrite map_h_id_heads).
      reflexivity.
    + rewrite heads_elem, IHcs, IHf by assumption. reflexivity.
Qed.

Lemma ids_named_app names H1 H2 :
  ids_named names (H1 ++ H2) = ids_named names H1 ++ ids_named names H2.
Proof. unfold ids_named. now rewrite filter_app, map_app. Qed.

Lemma find_all_oids_heads names f :
  find_all_oids names f = ids_named names (heads f).
Proof.
  induction f as [| s f IH | s f IH | j nm a cs f IHcs IHf] using forest_ind.
  - reflexivity.
  - exact IH.
  - exact IH.
  - rewrite find_all_oids_elem, heads_elem.
    change ((j, nm, a) :: heads cs ++ heads f)
      with ([(j, nm, a)] ++ heads cs ++ heads f).
    rewrite !ids_named_app, IHcs, IHf. f_equal.
    unfold ids_named. cbn [filter h_name fst snd].
    now destruct (PyStr.mem nm names).
Qed.

Lemma filter_named_heads names f :
  map head_of (find_all names f)
  = filter (fun h => PyStr.mem (h_name h) names) (heads f).
Proof.
  induction f as [| s f IH | s f IH | j nm a cs f IHcs IHf] using forest_ind.
  - reflexivity.
  - exact IH.
  - exact IH.
  - rewrite find_all_elem, heads_elem, !map_app.
    change ((j, nm, a) :: heads cs ++ heads f)
      with ([(j, nm, a)] ++ heads cs ++ heads f).
    rewrite !filter_app, IHcs, IHf. f_equal.
    cbn [filter h_name fst snd]. now destruct (PyStr.mem nm names).
Qed.

(** ** reading the attributes of an element *)

Lemma attrs_in_app i H1 H2 :
  attrs_in i (H1 ++ H2)
  = if existsb (fun h => Nat.eqb (h_id h) i) H1 then attrs_in i H1
    else attrs_in i H2.
Proof.
  unfold attrs_in. induction H1 as [| h H1 IH]; [reflexivity |].
  cbn [app List.find existsb]. destruct (Nat.eqb (h_id h) i); [reflexivity |].
  exact IH.
Qed.

Lemma lookup_attrs_in i f :
  match lookup i f with Some e => node_attrs e | None => [] end
  = attrs_in i (heads f).
Proof.
  induction f as [| s f IH | s f IH | j nm a cs f IHcs IHf] using forest_ind.
  - reflexivity.
  - exact IH.
  - exact IH.
  - rewrite lookup_elem, heads_elem. unfold attrs_in at 1.
    cbn [List.find h_id fst].
    destruct (Nat.eqb j i); [reflexivity |].
    fold (attrs_in i (heads cs ++ heads f)).
    rewrite lookup_app, attrs_in_app.
    destruct (lookup i cs) as [e |] eqn:E.
    + assert (Hex : existsb (fun h => Nat.eqb (h_id h) i) (heads cs) = true).
      { apply existsb_exists. apply lookup_some in E.
        destruct E as (Hin & Hi & _). exists (head_of e). split.
        - unfold heads. now apply in_map.
        - unfold head_of, h_id. cbn [fst]. rewrite Hi. apply Nat.eqb_refl. }
      rewrite Hex. exact IHcs.
    + assert (Hex : existsb (fun h => Nat.eqb (h_id h) i) (heads cs) = false).
      { apply not_true_is_false. intros Hex. apply existsb_exists in Hex.
        destruct Hex as (h & Hin & Hi). apply Nat.eqb_eq in Hi.
        apply lookup_none_notin in E. apply E.
        rewrite <- map_h_id_heads, <- Hi. now apply in_map. }
      rewrite Hex. exact IHf.
Qed.

Lemma attrs_of_heads i sp : attrs_of i sp = attrs_in i (heads (everything sp)).
Proof. unfold attrs_of, soup_lookup. apply lookup_attrs_in. Qed.

Lemma attrs_in_unique i H h :
  NoDup (map h_id H) -> In h H -> h_id h = i -> attrs_in i H = h_attrs h.
Proof.
  unfold attrs_in. induction H as [| x H IH]; intros ND Hin Hi; [contradiction |].
  cbn [List.find]. cbn [map] in ND. inversion ND; subst.
  destruct Hin as [-> | Hin].
  - now rewrite Nat.eqb_refl.
  - destruct (Nat.eqb_spec (h_id x) (h_id h)) as [E | E].
    + exfalso. apply H2. rewrite E. now apply in_map.
    + now apply IH.
Qed.

(** ** soups that differ by the attributes of their elements *)

Definition relabel (phi : head -> head) (sp sp' : soup) : Prop :=
  heads (doc sp') = map phi (heads (doc sp)) /\
  heads (everything sp') = map phi (heads (everything sp)).

Lemma relabel_refl sp : relabel (fun h => h) sp sp.
Proof. split; now rewrite map_id. Qed.

Lemma relabel_trans phi psi sp sp' sp'' :
  relabel phi sp sp' -> relabel psi sp' sp'' ->
  relabel (fun h => psi (phi h)) sp sp''.
Proof.
  intros [A B] [C D]. split.
  - now rewrite C, A, map_map.
  - now rewrite D, B, map_map.
Qed.

Lemma relabel_ext phi psi sp sp' :
  (forall h, In h (heads (everything sp)) -> phi h = psi h) ->
  relabel phi sp sp' -> relabel psi sp sp'.
Proof.
  intros Hext [A B]. split.
  - rewrite A. apply map_ext_in. intros h Hh. apply Hext.
    unfold everything. rewrite heads_app. apply in_or_app. now left.
  - rewrite B. apply map_ext_in. exact Hext.
Qed.

Lemma relabel_nodup phi sp sp' :
  preserves phi -> relabel phi sp sp' ->
  NoDup (oids (everything sp)) -> NoDup (oids (everything sp')).
Proof.
  intros Hp [_ B] ND.
  rewrite <- map_h_id_heads, B, map_preserves_ids, map_h_id_heads; assumption.
Qed.

Lemma relabel_find_all phi names sp sp' :
  preserves phi -> relabel phi sp sp' ->
  soup_find_all names sp' = soup_find_all names sp.
Proof.
  intros Hp [A _]. unfold soup_find_all.
  now rewrite !find_all_oids_heads, A, ids_named_preserves.
Qed.

Lemma set_attr_relabel i k v sp :
  NoDup (oids (everything sp)) ->
  relabel (on_attrs i (attr_set k v)) sp (set_attr i k v sp).
Proof.
  intros ND. unfold relabel, set_attr, on_trees, everything in *.
  cbn [doc detached]. rewrite oids_app in ND.
  rewrite !heads_app, map_app.
  rewrite !heads_update_attrs; eauto using NoDup_app_l, NoDup_app_r.
Qed.

Lemma fill_relabel k i v sp :
  NoDup (oids (everything sp)) ->
  relabel (fill_head k i v) sp (fill k i v sp).
Proof.
  intros ND. unfold fill. rewrite attrs_of_heads.
  assert (Hu : forall h, In h (heads (everything sp)) -> h_id h = i ->
                         attrs_in i (heads (everything sp)) = h_attrs h).
  { intros h Hin Hi. apply attrs_in_unique; auto.
    now rewrite map_h_id_heads. }
  destruct (truthy (attr_get k (attrs_in i (heads (everything sp))))) eqn:Et;
    cbn [negb].
  - apply relabel_ext with (phi := fun h => h); [| apply relabel_refl].
    intros h Hin. unfold fill_head.
    destruct (Nat.eqb_spec (h_id h) i) as [E | E]; [| reflexivity].
    rewrite <- (Hu h Hin E), Et. reflexivity.
  - apply relabel_ext with (phi := on_attrs i (attr_set k v));
      [| now apply set_attr_relabel].
    intros h Hin. unfold fill_head, on_attrs.
    destruct (Nat.eqb_spec (h_id h) i) as [E | E]; [| reflexivity].
    rewrite <- (Hu h Hin E), Et. reflexivity.
Qed.

(** a loop of such statements *)
Definition fill_heads {A} (k : string) (idf : A -> nat) (vf : A -> attrval)
    (l : list A) (h : head) : head :=
  fold_left (fun h x => fill_head k (idf x) (vf x) h) l h.

Lemma fill_heads_preserves {A} k (idf : A -> nat) vf l :
  preserves (fill_heads k idf vf l).
Proof.
  unfold fill_heads. induction l as [| x l IH]; intros h; [now split |].
  cbn [fold_left]. destruct (IH (fill_head k (idf x) (vf x) h)) as [P Q].
  destruct (fill_head_preserves k (idf x) (vf x) h) as [P' Q'].
  split; congruence.
Qed.

Lemma for_each_fill_relabel {A} k (idf : A -> nat) (vf : A -> attrval)
    (body : A -> soup -> soup) l sp :
  (forall x s, body x s = fill k (idf x) (vf x) s) ->
  NoDup (oids (everything sp)) ->
  relabel (fill_heads k idf vf l) sp (for_each l body sp).
Proof.
  intros Hbody. unfold for_each, fill_heads. revert sp.
  induction l as [| x l IH]; intros sp ND.
  - apply relabel_refl.
  - cbn [fold_left]. rewrite Hbody.
    pose proof (fill_relabel k (idf x) (vf x) sp ND) as R1.
    pose proof (relabel_nodup _ _ _ (fill_head_preserves k (idf x) (vf x)) R1 ND)
      as ND1.
    exact (relabel_trans _ _ _ _ _ R1 (IH _ ND1)).
Qed.

Lemma fill_heads_other {A} k (idf : A -> nat) vf l h :
  ~ In (h_id h) (map idf l) -> fill_heads k idf vf l h = h.
Proof.
  unfold fill_heads. revert h. induction l as [| x l IH]; intros h Hn;
    [reflexivity |].
  cbn [fold_left]. cbn [map] in Hn.
  assert (E : fill_head k (idf x) (vf x) h = h).
  { unfold fill_head. destruct (Nat.eqb_spec (h_id h) (idf x)) as [E | E].
    - exfalso. apply Hn. now left.
    - reflexivity. }
  rewrite E. apply IH. intros Hin. apply Hn. now right.
Qed.

(** ** elements told apart by their names *)

Lemma heads_inj H h h' :
  NoDup (map h_id H) -> In h H -> In h' H -> h_id h = h_id h' -> h = h'.
Proof.
  induction H as [| x H IH]; intros ND Hin Hin' E; [contradiction |].
  cbn [map] in ND. inversion ND; subst.
  destruct Hin as [-> | Hin], Hin' as [-> | Hin'].
  - reflexivity.
  - exfalso. apply H2. rewrite E. now apply in_map.
  - exfalso. apply H2. rewrite <- E. now apply in_map.
  - now apply IH.
Qed.

Lemma mem_singleton x y : PyStr.mem x [y] = true -> x = y.
Proof.
  unfold PyStr.mem. cbn [existsb]. rewrite orb_false_r. apply String.eqb_eq.
Qed.

Lemma in_ids_named names H i :
  In i (ids_named names H) ->
  exists h, In h H /\ h_id h = i /\ PyStr.mem (h_name h) names = true.
Proof.
  unfold ids_named. intros Hin. apply in_map_iff in Hin.
  destruct Hin as (h & Hi & Hf). apply filter_In in Hf. destruct Hf. eauto.
Qed.

Lemma named_apart names1 names2 H h i :
  NoDup (map h_id H) ->
  In h H -> PyStr.mem (h_name h) names1 = true ->
  In i (ids_named names2 H) ->
  (forall x, PyStr.mem x names1 = true -> PyStr.mem x names2 = true -> False) ->
  h_id h <> i.
Proof.
  intros ND Hin Hn Hi Hapart E. apply in_ids_named in Hi.
  destruct Hi as (h' & Hin' & Hi' & Hn').
  assert (h = h') by (eapply heads_inj; eauto; congruence). subst h'.
  eauto.
Qed.

Lemma filter_map_preserves phi names H :
  preserves phi ->
  filter (fun h => PyStr.mem (h_name h) names) (map phi H)
  = map phi (filter (fun h => PyStr.mem (h_name h) names) H).
Proof.
  intros Hp. induction H as [| h H IH]; [reflexivity |].
  cbn [map filter]. destruct (Hp h) as [_ Hn]. rewrite Hn.
  destruct (PyStr.mem (h_name h) names); cbn [map]; now rewrite IH.
Qed.

Lemma NoDup_map_filter {A B} (f : A -> B) (p : A -> bool) l :
  NoDup (map f l) -> NoDup (map f (filter p l)).
Proof.
  induction l as [| x l IH]; intros ND; [constructor |].
  cbn [map] in ND. inversion ND; subst. cbn [filter].
  destruct (p x); [| now apply IH].
  cbn [map]. constructor; [| now apply IH].
  intros Hin. apply H1. apply in_map_iff in Hin.
  destruct Hin as (y & Hy & Hf). apply filter_In in Hf.
  rewrite <- Hy. apply in_map. tauto.
Qed.

Lemma map_snd_combine_seq {A} (l : list A) s :
  map snd (combine (seq s (List.length l)) l) = l.
Proof.
  revert s. induction l as [| x l IH]; intros s; [reflexivity |].
  cbn [List.length seq combine map snd]. now rewrite IH.
Qed.

(** The loop over [enumerate(headings)], seen on the headings
    themselves. *)
Lemma fill_enumerate k (vf : nat -> attrval) B s :
  NoDup (map h_id B) ->
  map (fill_heads k (fun p : nat * nat => snd p) (fun p => vf (fst p))
         (combine (seq s (List.length B)) (map h_id B))) B
  = map (fun p => fill_head k (h_id (snd p)) (vf (fst p)) (snd p))
      (combine (seq s (List.length B)) B).
Proof.
  revert s. induction B as [| b B IH]; intros s ND; [reflexivity |].
  cbn [map] in ND. inversion ND as [| ? ? Hnot ND']; subst.
  cbn [List.length seq map combine snd fst].
  unfold fill_heads at 1. cbn [fold_left snd fst].
  fold (fill_heads k (fun p : nat * nat => snd p) (fun p => vf (fst p))
          (combine (seq (S s) (List.length B)) (map h_id B))
          (fill_head k (h_id b) (vf s) b)).
  f_equal.
  - apply fill_heads_other.
    destruct (fill_head_preserves k (h_id b) (vf s) b) as [-> _].
    rewrite <- (length_map h_id B), map_snd_combine_seq. exact Hnot.
  - rewrite <- IH by exact ND'. apply map_ext_in. intros h Hh.
    unfold fill_heads at 1. cbn [fold_left snd fst].
    assert (E : fill_head k (h_id b) (vf s) h = h).
    { unfold fill_head. destruct (Nat.eqb_spec (h_id h) (h_id b)) as [E | E].
      - exfalso. apply Hnot. rewrite <- E. now apply in_map.
      - reflexivity. }
    rewrite E. reflexivity.
Qed.

Lemma attr_get_set_same k v a : attr_get k (attr_set k v a) = Some v.
Proof.
  induction a as [| [k' v'] a IH]; cbn [attr_set attr_get].
  - now rewrite String.eqb_refl.
  - destruct (String.eqb k k') eqn:E; cbn [attr_get].
    + now rewrite String.eqb_refl.
    + now rewrite E.
Qed.

(* ================================================================== *)
(** * The converter: headings get an id *)
(* ================================================================== *)

(** what the accessibility pass makes of the heading at index [fst p] *)
Definition heading_with_id (p : nat * head) : head :=
  let h := snd p in
  if truthy (attr_get "id" (h_attrs h)) then h
  else (h_id h, h_name h,
        attr_set "id" (AStr ("heading-" ++ PyStr.of_nat (fst p))) (h_attrs h)).

Lemma NoDup_heads_doc sp :
  NoDup (oids (everything sp)) -> NoDup (map h_id (heads (doc sp))).
Proof.
  unfold everything. rewrite oids_app, map_h_id_heads. apply NoDup_app_l.
Qed.

Lemma body_step_relabel sp :
  NoDup (oids (everything sp)) ->
  exists phi,
    preserves phi /\
    relabel phi sp
      (match soup_find ["body"] sp with
       | Some main_content =>
           set_attr main_content "id" (AStr "main-content")
             (set_attr main_content "role" (AStr "main") sp)
       | None => sp
       end) /\
    (forall h, In h (heads (doc sp)) ->
               PyStr.mem (h_name h) HTMLConverter.heading_names = true ->
               phi h = h).
Proof.
  intros ND. destruct (soup_find ["body"] sp) as [b |] eqn:Eb.
  - pose proof (set_attr_relabel b "role" (AStr "main") sp ND) as R1.
    pose proof (relabel_nodup _ _ _ (on_attrs_preserves _ _) R1 ND) as ND1.
    pose proof (set_attr_relabel b "id" (AStr "main-content") _ ND1) as R2.
    eexists. split; [| split].
    + apply preserves_compose; apply on_attrs_preserves.
    + exact (relabel_trans _ _ _ _ _ R1 R2).
    + intros h Hin Hn.
      assert (Hb : In b (ids_named ["body"] (heads (doc sp)))).
      { rewrite <- find_all_oids_heads. unfold soup_find, find_first in Eb.
        unfold find_all_oids.
        destruct (find_all ["body"] (doc sp)) as [| n l]; [discriminate |].
        cbn [hd_error option_map] in Eb. injection Eb as <-. now left. }
      assert (Hne : h_id h <> b).
      { apply (named_apart HTMLConverter.heading_names ["body"]
                 (heads (doc sp)) h b); auto using NoDup_heads_doc.
        intros x Hx Hy. apply mem_singleton in Hy. subst x. discriminate. }
      apply Nat.eqb_neq in Hne. cbv beta.
      unfold on_attrs at 2. rewrite Hne. unfold on_attrs. now rewrite Hne.
  - exists (fun h => h). split; [apply preserves_id | split].
    + apply relabel_refl.
    + reflexivity.
Qed.

Lemma fill_loop_leaves_headings k names (v : attrval) sp h :
  NoDup (oids (everything sp)) ->
  In h (heads (doc sp)) ->
  PyStr.mem (h_name h) HTMLConverter.heading_names = true ->
  (forall x, PyStr.mem x HTMLConverter.heading_names = true ->
             PyStr.mem x names = true -> False) ->
  fill_heads k (fun i : nat => i) (fun _ => v) (soup_find_all names sp) h = h.
Proof.
  intros ND Hin Hn Hapart. apply fill_heads_other. rewrite map_id.
  intros Hi. unfold soup_find_all in Hi. rewrite find_all_oids_heads in Hi.
  apply (named_apart HTMLConverter.heading_names names
           (heads (doc sp)) h (h_id h)); auto using NoDup_heads_doc.
Qed.

(** C5: after the accessibility pass the headings of the document are
    the headings it had, in the same order, each with the attributes it
    had if its id was non-empty, and with the id "heading-i" set
    otherwise, [i] its index among all headings; so every heading has a
    non-empty id. *)
Theorem C5_every_heading_has_an_id_after_the_accessibility_pass :
  forall sp : soup,
    NoDup (oids (everything sp)) ->
    let before := map head_of (find_all HTMLConverter.heading_names (doc sp)) in
    let after :=
      map head_of
        (find_all HTMLConverter.heading_names
           (doc (HTMLConverter._add_accessibility sp))) in
    after = map heading_with_id (PyStr.enumerate before) /\
    Forall (fun h => truthy (attr_get "id" (h_attrs h)) = true) after.
Proof.
  intros sp ND before after.
  assert (Hmain : after = map heading_with_id (PyStr.enumerate before)).
  { subst before after. unfold HTMLConverter._add_accessibility.
    destruct (body_step_relabel sp ND) as (phi1 & P1 & R1 & F1).
    set (sp1 := match soup_find ["body"] sp with
                | Some main_content =>
                    set_attr main_content "id" (AStr "main-content")
                      (set_attr main_content "role" (AStr "main") sp)
                | None => sp
                end) in *.
    pose proof (relabel_nodup _ _ _ P1 R1 ND) as ND1.
    set (headings := soup_find_all HTMLConverter.heading_names sp1).
    match goal with |- context [for_each (PyStr.enumerate headings) ?b sp1] =>
      set (body2 := b) end.
    set (sp2 := for_each (PyStr.enumerate headings) body2 sp1).
    set (vf := fun i : nat => AStr ("heading-" ++ PyStr.of_nat i)).
    assert (R2 : relabel
                   (fill_heads "id" (fun p : nat * nat => snd p)
                      (fun p => vf (fst p)) (PyStr.enumerate headings))
                   sp1 sp2).
    { apply for_each_fill_relabel; [| exact ND1].
      intros [i x] s. reflexivity. }
    set (phi2 := fill_heads "id" (fun p : nat * nat => snd p)
                   (fun p => vf (fst p)) (PyStr.enumerate headings)) in *.
    assert (P2 : preserves phi2) by apply fill_heads_preserves.
    pose proof (relabel_nodup _ _ _ P2 R2 ND1) as ND2.
    match goal with |- context [for_each (soup_find_all ["img"] sp2) ?b sp2] =>
      set (body3 := b) end.
    set (sp3 := for_each (soup_find_all ["img"] sp2) body3 sp2).
    assert (R3 : relabel
                   (fill_heads "alt" (fun i : nat => i)
                      (fun _ => AStr "Image") (soup_find_all ["img"] sp2))
                   sp2 sp3).
    { apply for_each_fill_relabel; [| exact ND2]. intros x s. reflexivity. }
    set (phi3 := fill_heads "alt" (fun i : nat => i)
                   (fun _ => AStr "Image") (soup_find_all ["img"] sp2)) in *.
    assert (P3 : preserves phi3) by apply fill_heads_preserves.
    pose proof (relabel_nodup _ _ _ P3 R3 ND2) as ND3.
    match goal with |- context [for_each (soup_find_all ["a"] sp3) ?b sp3] =>
      set (body4 := b) end.
    set (sp4 := for_each (soup_find_all ["a"] sp3) body4 sp3).
    assert (R4 : relabel
                   (fill_heads "tabindex" (fun i : nat => i)
                      (fun _ => AStr "0") (soup_find_all ["a"] sp3))
                   sp3 sp4).
    { apply for_each_fill_relabel; [| exact ND3]. intros x s. reflexivity. }
    set (phi4 := fill_heads "tabindex" (fun i : nat => i)
                   (fun _ => AStr "0") (soup_find_all ["a"] sp3)) in *.
    assert (P4 : preserves phi4) by apply fill_heads_preserves.
    (* the headings of the result *)
    rewrite !filter_named_heads.
    destruct R1 as [D1 _], R2 as [D2 _], R3 as [D3 _], R4 as [D4 _].
    rewrite D4, D3, D2, D1.
    rewrite !filter_map_preserves by assumption.
    set (B := filter
                (fun h => PyStr.mem (h_name h) HTMLConverter.heading_names)
                (heads (doc sp))).
    assert (HB : forall h, In h B ->
                 In h (heads (doc sp)) /\
                 PyStr.mem (h_name h) HTMLConverter.heading_names = true).
    { intros h Hh. subst B. now apply filter_In in Hh. }
    assert (Hin1 : forall h, In h B -> In (phi1 h) (heads (doc sp1))).
    { intros h Hh. rewrite D1. apply in_map. now apply HB. }
    assert (Hin2 : forall h, In h B -> In (phi2 (phi1 h)) (heads (doc sp2))).
    { intros h Hh. rewrite D2. apply in_map. now apply Hin1. }
    assert (Hin3 : forall h, In h B ->
                   In (phi3 (phi2 (phi1 h))) (heads (doc sp3))).
    { intros h Hh. rewrite D3. apply in_map. now apply Hin2. }
    assert (Hnm1 : forall h, In h B ->
                   PyStr.mem (h_name (phi1 h)) HTMLConverter.heading_names = true).
    { intros h Hh. destruct (P1 h) as [_ ->]. now apply HB. }
    assert (Hnm2 : forall h, In h B ->
                   PyStr.mem (h_name (phi2 (phi1 h)))
                     HTMLConverter.heading_names = true).
    { intros h Hh. destruct (P2 (phi1 h)) as [_ ->]. now apply Hnm1. }
    assert (Hnm3 : forall h, In h B ->
                   PyStr.mem (h_name (phi3 (phi2 (phi1 h))))
                     HTMLConverter.heading_names = true).
    { intros h Hh. destruct (P3 (phi2 (phi1 h))) as [_ ->]. now apply Hnm2. }
    rewrite !map_map.
    transitivity (map phi2 B).
    { apply map_ext_in. intros h Hh.
      subst phi4. rewrite fill_loop_leaves_headings; auto.
      2:{ intros x Hx Hy. apply mem_singleton in Hy. subst x. discriminate. }
      subst phi3. rewrite fill_loop_leaves_headings; auto.
      2:{ intros x Hx Hy. apply mem_singleton in Hy. subst x. discriminate. }
      f_equal. apply F1; now apply HB. }
    assert (Hh : headings = map h_id B).
    { subst headings. unfold soup_find_all.
      rewrite find_all_oids_heads, D1, ids_named_preserves by assumption.
      reflexivity. }
    subst phi2. rewrite Hh. unfold PyStr.enumerate. rewrite length_map.
    rewrite fill_enumerate.
    - apply map_ext. intros [i h]. unfold fill_head, heading_with_id.
      cbn [fst snd]. rewrite Nat.eqb_refl. cbn [andb].
      destruct (truthy (attr_get "id" (h_attrs h))); reflexivity.
    - subst B. apply NoDup_map_filter. now apply NoDup_heads_doc. }
  split; [exact Hmain |].
  rewrite Hmain. apply Forall_forall. intros h Hin.
  apply in_map_iff in Hin. destruct Hin as ([i h0] & <- & _).
  unfold heading_with_id. cbn [fst snd].
  destruct (truthy (attr_get "id" (h_attrs h0))) eqn:E; [exact E |].
  cbn [h_attrs snd]. rewrite attr_get_set_same. reflexivity.
Qed.

(** a document with four headings: without id, with an id, with an
    empty id, and one below a div *)
Definition page_with_headings : soup :=
  mkSoup 6
    [Elem 0 "h1" [] [Text "Title"];
     Elem 1 "h2" [("id", AStr "intro")] [Text "Intro"];
     Elem 2 "div" []
       [Elem 3 "h3" [("id", AStr "")] [Text "Part"];
        Elem 4 "p" [] [Text "text"]];
     Elem 5 "h2" [("class", AList ["x"])] [Text "End"]]
    [].

Lemma C5_witness :
  map head_of
    (find_all HTMLConverter.heading_names
       (doc (HTMLConverter._add_accessibility page_with_headings)))
  = [(0, "h1", [("id", AStr "heading-0")]);
     (1, "h2", [("id", AStr "intro")]);
     (3, "h3", [("id", AStr "heading-2")]);
     (5, "h2", [("class", AList ["x"]); ("id", AStr "heading-3")])].
Proof.
  destruct (C5_every_heading_has_an_id_after_the_accessibility_pass
              page_with_headings) as [H _].
  - solve_nodup.
  - rewrite H. reflexivity.
Defined.

(* ================================================================== *)
(** * An element in its context *)
(* ================================================================== *)

Lemma heads_single i nm a cs : heads [Elem i nm a cs] = (i, nm, a) :: heads cs.
Proof. rewrite heads_elem. cbn [heads elements_of flat_map map]. now rewrite app_nil_r. Qed.

Lemma oids_single i nm a cs : oids [Elem i nm a cs] = i :: oids cs.
Proof. rewrite oids_elem. cbn [oids elements_of flat_map map]. now rewrite app_nil_r. Qed.

Lemma splice_in_text i new s f :
  splice_in i new (Text s :: f) = Text s :: splice_in i new f.
Proof. reflexivity. Qed.

Lemma splice_in_comment i new s f :
  splice_in i new (Comment s :: f) = Comment s :: splice_in i new f.
Proof. reflexivity. Qed.

Lemma update_in_text i g s f :
  update_in i g (Text s :: f) = Text s :: update_in i g f.
Proof. reflexivity. Qed.

Lemma update_in_comment i g s f :
  update_in i g (Comment s :: f) = Comment s :: update_in i g f.
Proof. reflexivity. Qed.

(** Where the element [i] sits: the elements before it and after it in
    document order stay as they are when [i] is spliced or updated. *)
Lemma in_context i f e :
  NoDup (oids f) -> lookup i f = Some e ->
  exists pre post,
    heads f = pre ++ heads [e] ++ post /\
    (forall new, heads (splice_in i new f) = pre ++ heads (new e) ++ post) /\
    (forall g, heads (update_in i g f) = pre ++ heads [update i g e] ++ post).
Proof.
  induction f as [| s f IH | s f IH | j nm a cs f IHcs IHf] using forest_ind;
    intros ND Hl.
  - discriminate.
  - rewrite lookup_text in Hl. destruct (IH ND Hl) as (pre & post & A & B & C).
    exists pre, post. repeat split.
    + exact A.
    + intros new. rewrite splice_in_text, heads_text. apply B.
    + intros g. rewrite update_in_text, heads_text. apply C.
  - rewrite lookup_comment in Hl.
    destruct (IH ND Hl) as (pre & post & A & B & C).
    exists pre, post. repeat split.
    + exact A.
    + intros new. rewrite splice_in_comment, heads_comment. apply B.
    + intros g. rewrite update_in_comment, heads_comment. apply C.
  - destruct (NoDup_oids_elem ND) as (Hjc & Hjf & NDc & NDf & Hdisj).
    rewrite lookup_elem in Hl.
    destruct (Nat.eqb_spec j i) as [-> | Hne].
    + injection Hl as <-. exists [], (heads f). repeat split.
      * change (Elem i nm a cs :: f) with ([Elem i nm a cs] ++ f).
        now rewrite heads_app.
      * intros new. rewrite splice_in_elem, Nat.eqb_refl, heads_app.
        now rewrite splice_in_notin by assumption.
      * intros g. rewrite update_in_elem, Nat.eqb_refl.
        rewrite update_in_notin by assumption.
        cbn [app update]. rewrite Nat.eqb_refl.
        destruct (g a cs) as [a' cs'].
        change (Elem i nm a' cs' :: f) with ([Elem i nm a' cs'] ++ f).
        now rewrite heads_app.
    + rewrite lookup_app in Hl.
      destruct (lookup i cs) as [e' |] eqn:Ec.
      * injection Hl as <-.
        assert (Hif : ~ In i (oids f)).
        { intros Hin. apply (Hdisj i); [| exact Hin].
          now apply lookup_in_oids in Ec. }
        destruct (IHcs NDc eq_refl) as (pre & post & A & B & C).
        exists ((j, nm, a) :: pre), (post ++ heads f). repeat split.
        -- rewrite heads_elem, A. cbn [app]. now rewrite <- !app_assoc.
        -- intros new. rewrite splice_in_elem.
           apply Nat.eqb_neq in Hne. rewrite Hne. cbn [app].
           rewrite heads_elem, B, splice_in_notin by assumption.
           cbn [app]. now rewrite <- !app_assoc.
        -- intros g. rewrite update_in_elem.
           apply Nat.eqb_neq in Hne. rewrite Hne.
           rewrite heads_elem, C, update_in_notin by assumption.
           cbn [app]. now rewrite <- !app_assoc.
      * assert (Hic : ~ In i (oids cs)) by now apply lookup_none_notin.
        destruct (IHf NDf Hl) as (pre & post & A & B & C).
        exists ((j, nm, a) :: heads cs ++ pre), post. repeat split.
        -- rewrite heads_elem, A. cbn [app]. now rewrite <- !app_assoc.
        -- intros new. rewrite splice_in_elem.
           apply Nat.eqb_neq in Hne. rewrite Hne. cbn [app].
           rewrite heads_elem, B, splice_in_notin by assumption.
           cbn [app]. now rewrite <- !app_assoc.
        -- intros g. rewrite update_in_elem.
           apply Nat.eqb_neq in Hne. rewrite Hne.
           rewrite heads_elem, C, update_in_notin by assumption.
           cbn [app]. now rewrite <- !app_assoc.
Qed.

Lemma in_context_oids i f e :
  NoDup (oids f) -> lookup i f = Some e ->
  exists pre post,
    oids f = pre ++ oids [e] ++ post /\
    (forall new, oids (splice_in i new f) = pre ++ oids (new e) ++ post) /\
    (forall g, oids (update_in i g f) = pre ++ oids [update i g e] ++ post).
Proof.
  intros ND Hl. destruct (in_context i f e ND Hl) as (pre & post & A & B & C).
  exists (map h_id pre), (map h_id post). repeat split.
  - now rewrite <- !map_h_id_heads, A, !map_app.
  - intros new. now rewrite <- !map_h_id_heads, B, !map_app.
  - intros g. now rewrite <- !map_h_id_heads, C, !map_app.
Qed.

(* ================================================================== *)
(** * Well-formed soups stay well-formed *)
(* ================================================================== *)

Definition occ (l : list nat) (x : nat) : nat := count_occ Nat.eq_dec l x.

(** [l] holds no identity more often than [l'] does *)
Definition sub_ids (l l' : list nat) : Prop := forall x, occ l x <= occ l' x.

Lemma occ_app l1 l2 x : occ (l1 ++ l2) x = occ l1 x + occ l2 x.
Proof. apply count_occ_app. Qed.

Lemma occ_nil x : occ [] x = 0.
Proof. reflexivity. Qed.

Lemma occ_cons a l x : occ (a :: l) x = occ [a] x + occ l x.
Proof. change (a :: l) with ([a] ++ l). apply occ_app. Qed.

Lemma NoDup_occ l : NoDup l <-> forall x, occ l x <= 1.
Proof. apply NoDup_count_occ. Qed.

Lemma occ_in l x : In x l <-> occ l x > 0.
Proof. apply count_occ_In. Qed.

Lemma occ_notin l x : ~ In x l -> occ l x = 0.
Proof. intros H. now apply count_occ_not_In. Qed.

Lemma occ_single_same a : occ [a] a = 1.
Proof. unfold occ. cbn [count_occ]. destruct (Nat.eq_dec a a); [reflexivity | contradiction]. Qed.

Lemma occ_single_other a x : a <> x -> occ [a] x = 0.
Proof. intros H. unfold occ. cbn [count_occ]. destruct (Nat.eq_dec a x); [contradiction | reflexivity]. Qed.

Definition wff (n : nat) (f : list node) : Prop :=
  NoDup (oids f) /\ Forall (fun i => i < n) (oids f).

Lemma wf_wff sp : wf sp <-> wff (fresh sp) (everything sp).
Proof. reflexivity. Qed.

Lemma wff_sub n n' f f' :
  wff n f -> n <= n' -> sub_ids (oids f') (oids f) -> wff n' f'.
Proof.
  intros [ND B] Hn Hs. split.
  - apply NoDup_occ. intros x. specialize (Hs x).
    apply NoDup_occ with (x := x) in ND. lia.
  - apply Forall_forall. intros x Hx. apply occ_in in Hx.
    specialize (Hs x). assert (Hin : In x (oids f)) by (apply occ_in; lia).
    rewrite Forall_forall in B. specialize (B x Hin). lia.
Qed.

Ltac occ_norm :=
  repeat (rewrite ?occ_app, ?occ_nil in *;
          try match goal with
              | |- context [occ (?a :: ?l) ?x] =>
                  lazymatch l with
                  | [] => fail
                  | _ => rewrite (occ_cons a l x)
                  end
              | H : context [occ (?a :: ?l) ?x] |- _ =>
                  lazymatch l with
                  | [] => fail
                  | _ => rewrite (occ_cons a l x) in H
                  end
              end).

(** ** the operations on a forest *)

Lemma sub_ids_splice i new f :
  NoDup (oids f) ->
  (forall e, sub_ids (oids (new e)) (oids [e])) ->
  sub_ids (oids (splice_in i new f)) (oids f).
Proof.
  intros ND Hnew x. destruct (lookup i f) as [e |] eqn:E.
  - destruct (in_context_oids i f e ND E) as (pre & post & A & B & _).
    rewrite A, B. occ_norm. specialize (Hnew e x). lia.
  - rewrite splice_in_notin by now apply lookup_none_notin. lia.
Qed.

Lemma lookup_elem_shape i f e :
  lookup i f = Some e -> exists nm a cs, e = Elem i nm a cs.
Proof. intros H. now apply lookup_some in H. Qed.

(** an update that replaces the contents [cs] of [i] by [cs'] *)
Lemma occ_update i g f nm a cs x :
  NoDup (oids f) -> lookup i f = Some (Elem i nm a cs) ->
  occ (oids (update_in i g f)) x + occ (oids cs) x
  = occ (oids f) x + occ (oids (snd (g a cs))) x.
Proof.
  intros ND E.
  destruct (in_context_oids i f _ ND E) as (pre & post & A & _ & C).
  rewrite A, C. cbn [update]. rewrite Nat.eqb_refl.
  destruct (g a cs) as [a' cs']. cbn [snd]. rewrite !oids_single.
  occ_norm. lia.
Qed.

Lemma occ_remove i f e x :
  NoDup (oids f) -> lookup i f = Some e ->
  occ (oids (remove_oid i f)) x + occ (oids [e]) x = occ (oids f) x.
Proof.
  intros ND E.
  destruct (in_context_oids i f _ ND E) as (pre & post & A & B & _).
  unfold remove_oid. rewrite A, B. change (oids []) with (@nil nat).
  occ_norm. lia.
Qed.

Lemma NoDup_sub l l' : NoDup l' -> sub_ids l l' -> NoDup l.
Proof.
  intros ND Hs. apply NoDup_occ. intros x. specialize (Hs x).
  apply NoDup_occ with (x := x) in ND. lia.
Qed.

Lemma sub_ids_remove i f :
  NoDup (oids f) -> sub_ids (oids (remove_oid i f)) (oids f).
Proof.
  intros ND. apply sub_ids_splice; [exact ND |].
  intros e x. change (oids []) with (@nil nat). rewrite occ_nil. lia.
Qed.

(** ** the operations on a soup *)

Lemma everything_on_trees g sp :
  (forall f1 f2, g (f1 ++ f2) = g f1 ++ g f2) ->
  everything (on_trees g sp) = g (everything sp).
Proof. intros H. unfold everything, on_trees. cbn [doc detached]. now rewrite H. Qed.

Lemma take_spec i sp e sp' :
  take i sp = Some (e, sp') ->
  lookup i (everything sp) = Some e /\
  fresh sp' = fresh sp /\
  doc sp' = remove_oid i (doc sp) /\
  detached sp' = remove_oid i (detached sp) /\
  everything sp' = remove_oid i (everything sp).
Proof.
  unfold take, soup_lookup. destruct (lookup i (everything sp)) eqn:E;
    [| discriminate].
  intros H. injection H as <- <-. repeat split.
  unfold everything, on_trees, remove_oid. cbn [doc detached].
  now rewrite splice_in_app.
Qed.

Lemma take_none i sp :
  take i sp = None -> lookup i (everything sp) = None.
Proof.
  unfold take, soup_lookup. now destruct (lookup i (everything sp)).
Qed.

Lemma wf_new_tag nm a sp :
  wf sp -> wf (snd (new_tag nm a sp)).
Proof.
  intros [ND B]. unfold wf, new_tag, everything in *. cbn [snd doc detached fresh].
  rewrite app_assoc, oids_app, oids_single. change (oids []) with (@nil nat).
  split.
  - apply NoDup_occ. intros x. occ_norm.
    apply NoDup_occ with (x := x) in ND.
    destruct (Nat.eq_dec (fresh sp) x) as [<- | Hne].
    + assert (Hn : ~ In (fresh sp) (oids (doc sp ++ detached sp))).
      { intros Hin. rewrite Forall_forall in B. specialize (B _ Hin). lia. }
      apply occ_notin in Hn. rewrite Hn, occ_single_same. lia.
    + rewrite occ_single_other by assumption. lia.
  - apply Forall_app. split.
    + eapply Forall_impl; [| exact B]. cbv beta. intros i Hi. lia.
    + constructor; [lia | constructor].
Qed.

(** an operation that allocates nothing and keeps or loses elements *)
Lemma wf_shrink sp sp' :
  wf sp -> fresh sp' = fresh sp ->
  sub_ids (oids (everything sp')) (oids (everything sp)) -> wf sp'.
Proof.
  intros W Hf Hs. apply wf_wff. apply wf_wff in W.
  eapply wff_sub; eauto. lia.
Qed.

Lemma oids_cons_app n f : oids (n :: f) = oids [n] ++ oids f.
Proof. change (n :: f) with ([n] ++ f). apply oids_app. Qed.

Lemma wf_nodup sp : wf sp -> NoDup (oids (everything sp)).
Proof. now intros [H _]. Qed.

Lemma everything_add_detached n sp :
  everything (add_detached n sp) = everything sp ++ [n].
Proof. unfold everything, add_detached. cbn [doc detached]. now rewrite app_assoc. Qed.

Lemma wf_extract i sp : wf sp -> wf (extract i sp).
Proof.
  intros W. unfold extract. destruct (take i sp) as [[e sp'] |] eqn:T;
    [| exact W].
  apply take_spec in T. destruct T as (L & F & _ & _ & E).
  apply (wf_shrink sp); [exact W | exact F |].
  intros x. unfold add_detached, everything in *. cbn [doc detached].
  rewrite app_assoc, oids_app, E. occ_norm.
  pose proof (occ_remove i _ e x (wf_nodup sp W) L). unfold everything in *. lia.
Qed.

Lemma wf_decompose i sp : wf sp -> wf (decompose i sp).
Proof.
  intros W. unfold decompose. destruct (take i sp) as [[e sp'] |] eqn:T;
    [| exact W].
  apply take_spec in T. destruct T as (L & F & _ & _ & E).
  apply (wf_shrink sp); [exact W | exact F |].
  rewrite E. apply sub_ids_remove. now apply wf_nodup.
Qed.

(** putting a taken element somewhere in the contents of [p] *)
Lemma wf_put (ins : list node -> node -> list node) p i sp :
  (forall cs e x,
     occ (oids (ins cs e)) x = occ (oids cs) x + occ (oids [e]) x) ->
  wf sp ->
  wf (match take i sp with
      | Some (e, sp') =>
          on_trees (update_in p (fun a cs => (a, ins cs e))) sp'
      | None => sp
      end).
Proof.
  intros Hins W. destruct (take i sp) as [[e sp'] |] eqn:T; [| exact W].
  apply take_spec in T. destruct T as (L & F & _ & _ & E).
  apply (wf_shrink sp); [exact W | exact F |].
  rewrite everything_on_trees by apply update_in_app. rewrite E.
  pose proof (wf_nodup sp W) as ND.
  assert (ND1 : NoDup (oids (remove_oid i (everything sp)))).
  { eapply NoDup_sub; [exact ND | now apply sub_ids_remove]. }
  intros x. pose proof (occ_remove i _ e x ND L) as Hr.
  destruct (lookup p (remove_oid i (everything sp))) as [P |] eqn:EP.
  - destruct (lookup_elem_shape _ _ _ EP) as (nm & a & cs & ->).
    pose proof (occ_update p (fun a cs => (a, ins cs e)) _ nm a cs x ND1 EP)
      as Hu.
    cbn [snd] in Hu. rewrite Hins in Hu. lia.
  - rewrite update_in_notin by now apply lookup_none_notin. lia.
Qed.

Lemma wf_append p i sp : wf sp -> wf (append p i sp).
Proof.
  intros W. unfold append.
  apply (wf_put (fun cs e => cs ++ [e]) p i sp); [| exact W].
  intros cs e x. now rewrite oids_app, occ_app.
Qed.

Lemma wf_insert p k i sp : wf sp -> wf (insert p k i sp).
Proof.
  intros W. unfold insert.
  apply (wf_put (fun cs e => firstn k cs ++ e :: skipn k cs) p i sp);
    [| exact W].
  intros cs e x. rewrite oids_app, oids_cons_app.
  rewrite <- (firstn_skipn k cs) at 3. rewrite oids_app. occ_norm. lia.
Qed.

Lemma wf_soup_append i sp : wf sp -> wf (soup_append i sp).
Proof.
  intros W. unfold soup_append. destruct (take i sp) as [[e sp'] |] eqn:T;
    [| exact W].
  apply take_spec in T. destruct T as (L & F & D & G & E).
  apply (wf_shrink sp); [exact W | exact F |].
  intros x. pose proof (occ_remove i _ e x (wf_nodup sp W) L) as Hr.
  rewrite <- E in Hr. unfold everything in *. cbn [doc detached].
  rewrite !oids_app in *. occ_norm. lia.
Qed.

Lemma wf_soup_clear sp : wf sp -> wf (soup_clear sp).
Proof.
  intros W. apply (wf_shrink sp); [exact W | reflexivity |].
  intros x. unfold soup_clear, everything. cbn [doc detached app].
  rewrite !oids_app. occ_norm. lia.
Qed.

Lemma wf_soup_insert0_comment s sp :
  wf sp -> wf (soup_insert0 (Comment s) sp).
Proof.
  intros W. apply (wf_shrink sp); [exact W | reflexivity |].
  intros x. unfold soup_insert0, everything. cbn [doc detached app].
  rewrite oids_comment. lia.
Qed.

Lemma wf_extend dst src sp : wf sp -> wf (extend dst src sp).
Proof.
  intros W. unfold extend, soup_lookup.
  destruct (lookup src (everything sp)) as [e |] eqn:L; [| exact W].
  apply (wf_shrink sp); [exact W | reflexivity |].
  rewrite everything_on_trees by apply update_in_app.
  rewrite everything_on_trees by apply update_in_app.
  pose proof (wf_nodup sp W) as ND.
  destruct (lookup_elem_shape _ _ _ L) as (nm & a & cs & ->).
  cbn [node_contents].
  set (f1 := update_in src (fun a _ => (a, [])) (everything sp)).
  assert (H1 : forall x, occ (oids f1) x + occ (oids cs) x
                         = occ (oids (everything sp)) x).
  { intros x.
    pose proof (occ_update src (fun a _ => (a, [])) _ nm a cs x ND L) as Hu.
    cbn [snd] in Hu. change (oids []) with (@nil nat) in Hu.
    rewrite occ_nil in Hu. subst f1. lia. }
  assert (ND1 : NoDup (oids f1)).
  { eapply NoDup_sub; [exact ND |]. intros x. specialize (H1 x). lia. }
  intros x. specialize (H1 x).
  destruct (lookup dst f1) as [P |] eqn:EP.
  - destruct (lookup_elem_shape _ _ _ EP) as (nm' & a' & cs' & ->).
    pose proof (occ_update dst (fun a0 cs0 => (a0, cs0 ++ cs)) _ nm' a' cs' x
                  ND1 EP) as Hu.
    cbn [snd] in Hu. rewrite oids_app, occ_app in Hu. lia.
  - rewrite update_in_notin by now apply lookup_none_notin. lia.
Qed.

Lemma wf_replace_with i w sp : wf sp -> wf (replace_with i w sp).
Proof.
  intros W. unfold replace_with.
  destruct (take w sp) as [[new sp'] |] eqn:T; [| exact W].
  apply take_spec in T. destruct T as (L & F & _ & _ & E).
  unfold soup_lookup. destruct (lookup i (everything sp')) as [old |] eqn:Lo;
    [| exact W].
  apply (wf_shrink sp); [exact W | exact F |].
  pose proof (wf_nodup sp W) as ND.
  assert (ND1 : NoDup (oids (everything sp'))).
  { rewrite E. eapply NoDup_sub; [exact ND | now apply sub_ids_remove]. }
  intros x. pose proof (occ_remove w _ new x ND L) as Hr. rewrite <- E in Hr.
  destruct (in_context_oids i _ old ND1 Lo) as (pre & post & A & B & _).
  rewrite everything_add_detached.
  rewrite everything_on_trees by apply splice_in_app.
  rewrite oids_app, B. rewrite A in Hr. occ_norm. lia.
Qed.

Lemma wf_unwrap i sp : wf sp -> wf (unwrap i sp).
Proof.
  intros W. unfold unwrap, soup_lookup.
  destruct (lookup i (everything sp)) as [old |] eqn:L; [| exact W].
  apply (wf_shrink sp); [exact W | reflexivity |].
  pose proof (wf_nodup sp W) as ND.
  destruct (in_context_oids i _ old ND L) as (pre & post & A & B & _).
  destruct (lookup_elem_shape _ _ _ L) as (nm & a & cs & ->).
  intros x. rewrite everything_add_detached.
  rewrite everything_on_trees by apply splice_in_app.
  rewrite oids_app, B, A. cbn [node_contents node_oid node_name node_attrs].
  rewrite !oids_single. change (oids []) with (@nil nat).
  occ_norm. lia.
Qed.

Lemma wf_update_shrinking i g sp :
  (forall a cs x, occ (oids (snd (g a cs))) x <= occ (oids cs) x) ->
  wf sp -> wf (on_trees (update_in i g) sp).
Proof.
  intros Hg W. apply (wf_shrink sp); [exact W | reflexivity |].
  rewrite everything_on_trees by apply update_in_app.
  pose proof (wf_nodup sp W) as ND. intros x.
  destruct (lookup i (everything sp)) as [e |] eqn:L.
  - destruct (lookup_elem_shape _ _ _ L) as (nm & a & cs & ->).
    pose proof (occ_update i g _ nm a cs x ND L) as Hu.
    specialize (Hg a cs x). lia.
  - rewrite update_in_notin by now apply lookup_none_notin. lia.
Qed.

Lemma wf_set_attr i k v sp : wf sp -> wf (set_attr i k v sp).
Proof.
  intros W. unfold set_attr. apply wf_update_shrinking; [| exact W].
  intros a cs x. cbn [snd]. lia.
Qed.

Lemma wf_set_string i s sp : wf sp -> wf (set_string i s sp).
Proof.
  intros W. unfold set_string. apply wf_update_shrinking; [| exact W].
  intros a cs x. cbn [snd]. change (oids [Text s]) with (@nil nat).
  rewrite occ_nil. lia.
Qed.

Lemma wf_for_each {A} (l : list A) (body : A -> soup -> soup) sp :
  (forall x s, wf s -> wf (body x s)) -> wf sp -> wf (for_each l body sp).
Proof.
  intros Hb. unfold for_each. revert sp.
  induction l as [| x l IH]; intros sp W; [exact W |].
  cbn [fold_left]. apply IH. now apply Hb.
Qed.

(** ** the passes *)

Lemma wf_wrap_cell parent a cell sp :
  wf sp -> wf (HTMLConverter.wrap_cell parent a cell sp).
Proof.
  intros W. unfold HTMLConverter.wrap_cell.
  pose proof (wf_new_tag "div" a sp W) as W1.
  destruct (new_tag "div" a sp) as [col s1]. cbn [snd] in W1.
  now apply wf_append, wf_extend.
Qed.

Ltac wf_step :=
  lazymatch goal with
  | |- wf (HTMLConverter.wrap_cell _ _ _ _) => apply wf_wrap_cell
  | |- wf (for_each _ _ _) => apply wf_for_each; [intros ? ? ? |]
  | |- wf (set_attr _ _ _ _) => apply wf_set_attr
  | |- wf (set_string _ _ _) => apply wf_set_string
  | |- wf (append _ _ _) => apply wf_append
  | |- wf (insert _ _ _ _) => apply wf_insert
  | |- wf (extract _ _) => apply wf_extract
  | |- wf (extend _ _ _) => apply wf_extend
  | |- wf (replace_with _ _ _) => apply wf_replace_with
  | |- wf (unwrap _ _) => apply wf_unwrap
  | |- wf (decompose _ _) => apply wf_decompose
  | |- wf (soup_append _ _) => apply wf_soup_append
  | |- wf (soup_clear _) => apply wf_soup_clear
  | |- wf (soup_insert0 (Comment _) _) => apply wf_soup_insert0_comment
  | |- wf (match new_tag ?nm ?a ?sp with _ => _ end) =>
      let W := fresh "W" in
      assert (W : wf (snd (new_tag nm a sp)))
        by (apply wf_new_tag; repeat first [assumption | wf_step]);
      destruct (new_tag nm a sp) as [? ?]; cbn [snd] in W
  | |- wf (match ?x with _ => _ end) => destruct x
  | |- wf ((match ?x with _ => _ end) _) => destruct x
  end.

Ltac wf_auto := repeat first [assumption | progress cbv beta zeta | wf_step].

Lemma wf_make_html_tag sp :
  wf sp -> wf (snd (HTMLConverter.make_html_tag sp)).
Proof.
  intros W. unfold HTMLConverter.make_html_tag.
  assert (W1 : wf (snd (new_tag "html" [] sp))) by now apply wf_new_tag.
  destruct (new_tag "html" [] sp) as [h s1]. cbn [snd] in W1. cbv zeta.
  assert (W2 : wf (snd (new_tag "head" [] (set_attr h "lang" (AStr "en") s1))))
    by now apply wf_new_tag, wf_set_attr.
  destruct (new_tag "head" [] (set_attr h "lang" (AStr "en") s1)) as [hd s2].
  cbn [snd] in W2.
  assert (W3 : wf (snd (new_tag "body" [] (append h hd s2))))
    by now apply wf_new_tag, wf_append.
  destruct (new_tag "body" [] (append h hd s2)) as [b s3].
  cbn [snd] in *. now apply wf_append.
Qed.

Lemma wf_move_to_body html_tag element sp :
  wf sp -> wf (HTMLConverter.move_to_body html_tag element sp).
Proof.
  intros W. unfold HTMLConverter.move_to_body.
  destruct (has_parent element sp); [| exact W]. cbv zeta.
  destruct (tag_find html_tag ["body"] (extract element sp)).
  - now apply wf_append, wf_extract.
  - now apply wf_extract.
Qed.

Lemma wf_convert_to_html5 sp :
  wf sp -> wf (HTMLConverter._convert_to_html5 sp).
Proof.
  intros W. unfold HTMLConverter._convert_to_html5, HTMLConverter.doctype_marker.
  assert (W1 : wf (match soup_find ["html"] sp with
                   | Some h => unwrap h sp
                   | None => sp
                   end)) by wf_auto.
  set (sp1 := match soup_find ["html"] sp with
              | Some h => unwrap h sp
              | None => sp
              end) in *.
  assert (W2 : wf (match doc sp1 with
                   | [] => sp1
                   | _ :: _ => soup_insert0 (Comment "DOCTYPE html") sp1
                   end)) by wf_auto.
  set (sp2 := match doc sp1 with
              | [] => sp1
              | _ :: _ => soup_insert0 (Comment "DOCTYPE html") sp1
              end) in *.
  clearbody sp2. cbv zeta.
  pose proof (wf_make_html_tag sp2 W2) as W3.
  destruct (HTMLConverter.make_html_tag sp2) as [html_tag sp3]. cbn [snd] in W3.
  apply wf_soup_append, wf_soup_clear, wf_for_each; [| exact W3].
  intros x s Ws. now apply wf_move_to_body.
Qed.

Lemma wf_add_modern_structure sp :
  wf sp -> wf (HTMLConverter._add_modern_structure sp).
Proof.
  intros W. unfold HTMLConverter._add_modern_structure.
  destruct (soup_find ["head"] sp); [| exact W]. wf_auto.
Qed.

Lemma wf_convert_row wrapper row sp :
  wf sp -> wf (HTMLConverter.convert_row wrapper row sp).
Proof.
  intros W. unfold HTMLConverter.convert_row.

  destruct (tag_find_all row ["td"; "th"] sp) as [| c1 [| c2 [| c3 l]]];
    wf_auto.
Qed.

Lemma wf_convert_table table sp :
  wf sp -> wf (HTMLConverter.convert_table table sp).
Proof.
  intros W. unfold HTMLConverter.convert_table.
  destruct (HTMLConverter.is_layout_table (attrs_of table sp)); [| exact W].
  assert (W1 : wf (snd (new_tag "div" [("class", AStr "modern-layout")] sp)))
    by now apply wf_new_tag.
  destruct (new_tag "div" [("class", AStr "modern-layout")] sp) as [w s1].
  cbn [snd] in W1. cbv zeta.
  apply wf_replace_with. apply wf_for_each; [| assumption].
  intros x s Ws. now apply wf_convert_row.
Qed.

Lemma wf_convert_tables sp :
  wf sp -> wf (HTMLConverter._convert_tables sp).
Proof.
  intros W. unfold HTMLConverter._convert_tables. cbv zeta.
  apply wf_for_each; [| exact W]. intros x s Ws. now apply wf_convert_table.
Qed.

Lemma wf_add_accessibility sp :
  wf sp -> wf (HTMLConverter._add_accessibility sp).
Proof.
  intros W. unfold HTMLConverter._add_accessibility. wf_auto.
Qed.

Lemma wf_add_responsive_classes sp :
  wf sp -> wf (HTMLConverter._add_responsive_classes sp).
Proof.
  intros W. unfold HTMLConverter._add_responsive_classes. wf_auto.
Qed.

Lemma wf_update_links sp :
  wf sp -> wf (HTMLConverter._update_links sp).
Proof.
  intros W. unfold HTMLConverter._update_links.
  apply wf_for_each; [| exact W]. intros x s Ws.
  unfold HTMLConverter.update_link. wf_auto.
Qed.

Lemma wf_convert_soup sp : wf sp -> wf (HTMLConverter.convert_soup sp).
Proof.
  intros W. unfold HTMLConverter.convert_soup. cbv zeta.
  apply wf_update_links, wf_add_responsive_classes, wf_add_accessibility,
    wf_convert_tables, wf_add_modern_structure, wf_convert_to_html5. exact W.
Qed.

(* ================================================================== *)
(** * The converter: what reaches the body *)
(* ================================================================== *)

Lemma NoDup_map_inj {A B} (f : A -> B) l x y :
  NoDup (map f l) -> In x l -> In y l -> f x = f y -> x = y.
Proof.
  induction l as [| z l IH]; intros ND Hx Hy E; [contradiction |].
  cbn [map] in ND. inversion ND; subst.
  destruct Hx as [-> | Hx], Hy as [-> | Hy].
  - reflexivity.
  - exfalso. apply H1. rewrite E. now apply in_map.
  - exfalso. apply H1. rewrite <- E. now apply in_map.
  - now apply IH.
Qed.

(** [soup.find(name)] is the element that [lookup] finds under its
    identity. *)
Lemma soup_find_lookup names sp h :
  NoDup (oids (doc sp)) -> soup_find names sp = Some h ->
  exists nm a cs,
    lookup h (doc sp) = Some (Elem h nm a cs) /\ PyStr.mem nm names = true.
Proof.
  intros ND Hf. unfold soup_find, find_first in Hf.
  destruct (find_all names (doc sp)) as [| n l] eqn:E; [discriminate |].
  cbn [hd_error option_map] in Hf. injection Hf as <-.
  assert (Hn : In n (find_all names (doc sp))) by (rewrite E; now left).
  apply find_all_in_elements in Hn. destruct Hn as [Hin Hname].
  destruct (elements_are_elems _ _ Hin) as (i & nm & a & cs & ->).
  cbn [node_oid]. exists nm, a, cs. split; [| exact Hname].
  destruct (in_oids_lookup i (doc sp)) as (e & He).
  { unfold oids. change i with (node_oid (Elem i nm a cs)). now apply in_map. }
  rewrite He. f_equal. apply lookup_some in He. destruct He as (Hin' & Hi & _).
  apply (NoDup_map_inj node_oid (elements_of (doc sp))); auto.
Qed.

Lemma lookup_doc_everything i sp e :
  lookup i (doc sp) = Some e -> soup_lookup i sp = Some e.
Proof.
  intros H. unfold soup_lookup, everything. now rewrite lookup_app, H.
Qed.

(** unwrapping an element takes its own head out of the document and
    leaves the others where they are *)
Lemma unwrap_heads h sp nm a cs :
  NoDup (oids (doc sp)) ->
  lookup h (doc sp) = Some (Elem h nm a cs) ->
  exists pre post,
    heads (doc sp) = pre ++ (h, nm, a) :: heads cs ++ post /\
    heads (doc (unwrap h sp)) = pre ++ heads cs ++ post.
Proof.
  intros ND L. unfold unwrap. rewrite (lookup_doc_everything _ _ _ L).
  cbn [doc add_detached on_trees].
  destruct (in_context h (doc sp) _ ND L) as (pre & post & A & B & _).
  exists pre, post. split.
  - rewrite A, heads_single. reflexivity.
  - rewrite B. reflexivity.
Qed.

Lemma find_all_heads_after_unwrap names sp :
  NoDup (oids (doc sp)) ->
  PyStr.mem "html" names = false ->
  filter (fun h => PyStr.mem (h_name h) names)
    (heads (doc (match soup_find ["html"] sp with
                 | Some h => unwrap h sp
                 | None => sp
                 end)))
  = filter (fun h => PyStr.mem (h_name h) names) (heads (doc sp)).
Proof.
  intros ND Hn. destruct (soup_find ["html"] sp) as [h |] eqn:E;
    [| reflexivity].
  destruct (soup_find_lookup _ _ _ ND E) as (nm & a & cs & L & Hm).
  apply mem_singleton in Hm. subst nm.
  destruct (unwrap_heads h sp _ a cs ND L) as (pre & post & A & B).
  rewrite A, B, !filter_app. cbn [filter h_name fst snd]. rewrite Hn.
  now rewrite !filter_app.
Qed.

(** ** the skeleton *)

Definition lang_en : attrs := [("lang", AStr "en")].

(** the soup while the elements are moved: the new html element is
    detached, the body holds [kids] *)
Definition skeleton (n : nat) (G D kids : list node) : soup :=
  mkSoup (3 + n) D
    (G ++ [Elem n "html" lang_en
             [Elem (1 + n) "head" [] []; Elem (2 + n) "body" [] kids]]).

Lemma append_last_root p i nm a cs sp G :
  detached sp = G ++ [Elem i nm a cs] ->
  ~ In i (oids (doc sp)) -> ~ In i (oids G) ->
  append p i sp
  = mkSoup (fresh sp)
      (update_in p (fun a' cs' => (a', cs' ++ [Elem i nm a cs])) (doc sp))
      (update_in p (fun a' cs' => (a', cs' ++ [Elem i nm a cs])) G).
Proof.
  intros Hd Hi Hg. unfold append, take, soup_lookup, everything.
  rewrite Hd, !lookup_app, (lookup_notin _ _ Hi), (lookup_notin _ _ Hg).
  rewrite lookup_elem, Nat.eqb_refl. unfold on_trees. cbn [doc detached fresh].
  rewrite Hd, splice_in_app, !splice_in_notin by assumption.
  rewrite splice_in_elem, Nat.eqb_refl. cbn [app splice_in flat_map].
  now rewrite app_nil_r.
Qed.

Lemma fresh_notin sp i : wf sp -> fresh sp <= i -> ~ In i (oids (everything sp)).
Proof.
  intros [_ B] Hi Hin. rewrite Forall_forall in B. specialize (B _ Hin). lia.
Qed.

Lemma notin_everything i sp :
  ~ In i (oids (everything sp)) ->
  ~ In i (oids (doc sp)) /\ ~ In i (oids (detached sp)).
Proof.
  unfold everything. rewrite oids_app. intros H.
  split; intros Hin; apply H; apply in_or_app; auto.
Qed.

Lemma fresh_facts sp k :
  wf sp -> fresh sp <= k ->
  ~ In k (oids (doc sp)) /\ ~ In k (oids (detached sp)).
Proof. intros W Hk. apply notin_everything. now apply fresh_notin. Qed.

Lemma update_in_nil i g : update_in i g [] = [].
Proof. reflexivity. Qed.

Lemma build_skeleton sp :
  wf sp ->
  HTMLConverter.make_html_tag sp
  = (fresh sp, skeleton (fresh sp) (detached sp) (doc sp) []).
Proof.
  intros W. unfold HTMLConverter.make_html_tag. set (n := fresh sp).
  destruct (fresh_facts sp n W (Nat.le_refl _)) as [Hd Hg].
  destruct (fresh_facts sp (1 + n) W) as [Hd1 Hg1]; [subst n; lia |].
  destruct (fresh_facts sp (2 + n) W) as [Hd2 Hg2]; [subst n; lia |].
  unfold new_tag at 1. fold n. cbv zeta.
  unfold set_attr, on_trees. cbn [doc detached fresh].
  rewrite update_in_app, !update_in_notin by assumption.
  rewrite update_in_elem, Nat.eqb_refl, update_in_nil. cbn [attr_set]. cbv zeta.
  unfold new_tag at 1. cbn [doc detached fresh].
  rewrite (append_last_root n (1 + n) "head" [] [] _
             (detached sp ++ [Elem n "html" [("lang", AStr "en")] []])).
  2:{ reflexivity. }
  2:{ exact Hd1. }
  2:{ rewrite oids_app, oids_single. intros Hin. apply in_app_or in Hin.
      destruct Hin as [Hin | [Hin | []]]; [now apply Hg1 | lia]. }
  cbn [doc fresh].
  rewrite update_in_app, !update_in_notin by assumption.
  rewrite update_in_elem, Nat.eqb_refl, update_in_nil. cbn [app].
  unfold new_tag at 1. cbn [doc detached fresh].
  rewrite (append_last_root n (1 + (1 + n)) "body" [] [] _
             (detached sp
              ++ [Elem n "html" [("lang", AStr "en")]
                    [Elem (1 + n) "head" [] []]])).
  2:{ reflexivity. }
  2:{ exact Hd2. }
  2:{ rewrite oids_app, oids_single, oids_single. intros Hin.
      apply in_app_or in Hin.
      destruct Hin as [Hin | [Hin | [Hin | []]]]; [now apply Hg2 | lia | lia]. }
  cbn [doc fresh].
  rewrite update_in_app, !update_in_notin by assumption.
  rewrite update_in_elem, Nat.eqb_refl, update_in_nil. cbn [app].
  unfold skeleton, lang_en. reflexivity.
Qed.

Definition html_tree (n : nat) (kids : list node) : node :=
  Elem n "html" lang_en
    [Elem (1 + n) "head" [] []; Elem (2 + n) "body" [] kids].

Lemma skeleton_tree n G D kids :
  skeleton n G D kids = mkSoup (3 + n) D (G ++ [html_tree n kids]).
Proof. reflexivity. Qed.

Lemma oids_html_tree n kids :
  oids [html_tree n kids] = n :: (1 + n) :: (2 + n) :: oids kids.
Proof.
  unfold html_tree. rewrite oids_single, oids_elem, oids_single.
  reflexivity.
Qed.

Lemma lookup_html_tree i n kids f :
  n <> i -> 1 + n <> i -> 2 + n <> i ->
  lookup i (html_tree n kids :: f) = lookup i (kids ++ f).
Proof.
  intros H0 H1 H2. unfold html_tree.
  apply Nat.eqb_neq in H0, H1, H2.
  rewrite lookup_elem, H0. cbn [app].
  rewrite lookup_elem, H1. cbn [app].
  rewrite lookup_elem, H2. reflexivity.
Qed.

Lemma remove_html_tree i n kids :
  n <> i -> 1 + n <> i -> 2 + n <> i ->
  remove_oid i [html_tree n kids] = [html_tree n (remove_oid i kids)].
Proof.
  intros H0 H1 H2. unfold html_tree.
  apply Nat.eqb_neq in H0, H1, H2.
  rewrite remove_oid_elem, H0. cbn [app].
  rewrite remove_oid_elem, H1. cbn [app].
  rewrite remove_oid_elem, H2. reflexivity.
Qed.

Lemma append_html_tree n kids e :
  update_in (2 + n) (fun a' cs' => (a', cs' ++ [e])) [html_tree n kids]
  = [html_tree n (kids ++ [e])].
Proof.
  unfold html_tree.
  assert (H0 : Nat.eqb n (2 + n) = false) by (apply Nat.eqb_neq; lia).
  assert (H1 : Nat.eqb (1 + n) (2 + n) = false) by (apply Nat.eqb_neq; lia).
  rewrite update_in_elem, H0, update_in_nil.
  rewrite update_in_elem, H1, update_in_nil.
  rewrite update_in_elem, Nat.eqb_refl, update_in_nil. reflexivity.
Qed.

Lemma root_in_oids i f : existsb (is_oid i) f = true -> In i (oids f).
Proof.
  intros H. apply existsb_exists in H. destruct H as (x & Hin & Hx).
  destruct x as [s | s | j nm a cs]; try discriminate.
  cbn [is_oid] in Hx. apply Nat.eqb_eq in Hx. subst j.
  apply in_split in Hin. destruct Hin as (l1 & l2 & ->).
  rewrite oids_app, oids_elem. apply in_or_app. right. now left.
Qed.

Lemma notin_after_remove i f :
  NoDup (oids f) -> ~ In i (oids (remove_oid i f)).
Proof.
  intros ND Hin. destruct (lookup i f) as [e |] eqn:L.
  - pose proof (occ_remove i f e i ND L) as Hr.
    destruct (lookup_elem_shape _ _ _ L) as (nm & a & cs & ->).
    rewrite oids_single, occ_cons, occ_single_same in Hr.
    apply occ_in in Hin. apply NoDup_occ with (x := i) in ND. lia.
  - apply lookup_none_notin in L. apply L.
    now apply oids_remove_oid_incl in Hin.
Qed.

Lemma occ_zero_notin l x : occ l x = 0 -> ~ In x l.
Proof. intros H Hin. apply occ_in in Hin. lia. Qed.

(** what the well-formedness of a skeleton says about an element that
    is in the document or in the body *)
Lemma skeleton_apart n G D kids i :
  wf (skeleton n G D kids) ->
  In i (oids (D ++ kids)) ->
  n <> i /\ 1 + n <> i /\ 2 + n <> i /\ ~ In i (oids G).
Proof.
  intros [ND _] Hin. rewrite skeleton_tree in ND. unfold everything in ND.
  cbn [doc detached] in ND.
  rewrite !oids_app, oids_html_tree in ND.
  apply NoDup_occ with (x := i) in ND.
  rewrite oids_app in Hin. apply occ_in in Hin. revert ND Hin. occ_norm.
  intros ND Hin.
  repeat split.
  - intros ->. rewrite occ_single_same in ND. lia.
  - intros <-. rewrite occ_single_same in ND. lia.
  - intros <-. rewrite occ_single_same in ND. lia.
  - apply occ_zero_notin. lia.
Qed.

Lemma skeleton_new_apart n G D kids :
  wf (skeleton n G D kids) ->
  forall k, (k = n \/ k = 1 + n \/ k = 2 + n) ->
  ~ In k (oids D) /\ ~ In k (oids G) /\ ~ In k (oids kids).
Proof.
  intros [ND _] k Hk. rewrite skeleton_tree in ND. unfold everything in ND.
  cbn [doc detached] in ND.
  rewrite !oids_app, oids_html_tree in ND.
  apply NoDup_occ with (x := k) in ND. revert ND. occ_norm. intros ND.
  assert (H3 : occ [n] k + occ [1 + n] k + occ [2 + n] k >= 1).
  { destruct Hk as [-> | [-> | ->]]; rewrite occ_single_same; lia. }
  repeat split; apply occ_zero_notin; lia.
Qed.

Lemma skeleton_parts_nodup n G D kids :
  wf (skeleton n G D kids) ->
  NoDup (oids D) /\ NoDup (oids kids) /\ NoDup (oids (D ++ kids)).
Proof.
  intros [ND _]. rewrite skeleton_tree in ND. unfold everything in ND.
  cbn [doc detached] in ND.
  rewrite !oids_app, oids_html_tree in ND.
  repeat split; apply NoDup_occ; intros x;
    apply NoDup_occ with (x := x) in ND; revert ND;
    rewrite ?oids_app; occ_norm; lia.
Qed.

Lemma move_step n G D kids i e :
  wf (skeleton n G D kids) ->
  lookup i (D ++ kids) = Some e ->
  ~ In i (map node_oid kids) ->
  HTMLConverter.move_to_body n i (skeleton n G D kids)
  = skeleton n G (remove_oid i D) (remove_oid i kids ++ [e]).
Proof.
  intros W L Hroot.
  destruct (skeleton_apart n G D kids i W (@lookup_in_oids _ _ _ L))
    as (H0 & H1 & H2 & HG).
  destruct (skeleton_new_apart n G D kids W n (or_introl eq_refl))
    as (HnD & HnG & Hnk).
  destruct (skeleton_new_apart n G D kids W (2 + n)
              (or_intror (or_intror eq_refl))) as (HbD & HbG & Hbk).
  destruct (skeleton_parts_nodup n G D kids W) as (NDD & NDk & NDDk).
  destruct (lookup_elem_shape _ _ _ L) as (nm & a & cs & ->).
  unfold HTMLConverter.move_to_body.
  (* element.parent is not None *)
  assert (Hp : has_parent i (skeleton n G D kids) = true).
  { unfold has_parent. rewrite skeleton_tree. cbn [detached].
    rewrite existsb_app. cbn [existsb html_tree is_oid].
    apply Nat.eqb_neq in H0. rewrite H0.
    destruct (existsb (is_oid i) G) eqn:E; [| reflexivity].
    exfalso. apply HG. now apply root_in_oids. }
  rewrite Hp. cbv zeta.
  (* element.extract() *)
  assert (Hx : extract i (skeleton n G D kids)
               = mkSoup (3 + n) (remove_oid i D)
                   ((G ++ [html_tree n (remove_oid i kids)])
                    ++ [Elem i nm a cs])).
  { unfold extract, take, soup_lookup. rewrite skeleton_tree.
    unfold everything. cbn [doc detached].
    assert (Hl : lookup i (D ++ G ++ [html_tree n kids])
                 = Some (Elem i nm a cs)).
    { rewrite lookup_app in L. rewrite !lookup_app.
      destruct (lookup i D); [exact L |].
      rewrite (@lookup_notin _ _ HG).
      rewrite lookup_html_tree by assumption. now rewrite app_nil_r. }
    rewrite Hl. unfold add_detached, on_trees. cbn [doc detached fresh].
    f_equal. f_equal.
    fold (remove_oid i (G ++ [html_tree n kids])).
    unfold remove_oid at 1. rewrite splice_in_app.
    rewrite splice_in_notin by assumption.
    fold (remove_oid i [html_tree n kids]).
    now rewrite remove_html_tree. }
  rewrite Hx.
  (* html_tag.find('body') *)
  assert (Hf : tag_find n ["body"]
                 (mkSoup (3 + n) (remove_oid i D)
                    ((G ++ [html_tree n (remove_oid i kids)])
                     ++ [Elem i nm a cs])) = Some (2 + n)).
  { unfold tag_find, tag_find_all, soup_lookup, everything.
    cbn [doc detached].
    assert (Hl : lookup n
                   (remove_oid i D
                    ++ (G ++ [html_tree n (remove_oid i kids)])
                    ++ [Elem i nm a cs])
                 = Some (html_tree n (remove_oid i kids))).
    { rewrite !lookup_app.
      rewrite (@lookup_notin n (remove_oid i D)).
      2:{ intros Hin. apply HnD. now apply oids_remove_oid_incl in Hin. }
      rewrite (@lookup_notin _ _ HnG).
      unfold html_tree at 1. rewrite lookup_elem, Nat.eqb_refl. reflexivity. }
    rewrite Hl. unfold html_tree. cbn [node_contents].
    rewrite find_all_oids_elem.
    change (PyStr.mem "head" ["body"]) with false.
    rewrite find_all_oids_elem.
    change (PyStr.mem "body" ["body"]) with true.
    reflexivity. }
  rewrite Hf.
  (* body.append(element) *)
  rewrite (append_last_root (2 + n) i nm a cs _
             (G ++ [html_tree n (remove_oid i kids)])).
  2:{ reflexivity. }
  2:{ cbn [doc]. now apply notin_after_remove. }
  2:{ rewrite oids_app, oids_html_tree. intros Hin. apply in_app_or in Hin.
      destruct Hin as [Hin | [Hin | [Hin | [Hin | Hin]]]]; auto.
      now apply (notin_after_remove i kids). }
  cbn [doc fresh]. rewrite skeleton_tree. f_equal.
  - apply update_in_notin. intros Hin. apply HbD.
    now apply oids_remove_oid_incl in Hin.
  - rewrite update_in_app, update_in_notin by assumption.
    now rewrite append_html_tree.
Qed.

Lemma roots_remove i f :
  ~ In i (map node_oid f) -> map head_of (remove_oid i f) = map head_of f.
Proof.
  induction f as [| x f IH]; intros H; [reflexivity |].
  cbn [map] in H.
  assert (Hf : ~ In i (map node_oid f)) by (intros Hin; apply H; now right).
  destruct x as [s | s | j nm a cs].
  - change (remove_oid i (Text s :: f)) with (Text s :: remove_oid i f).
    cbn [map]. now rewrite IH.
  - change (remove_oid i (Comment s :: f)) with (Comment s :: remove_oid i f).
    cbn [map]. now rewrite IH.
  - rewrite remove_oid_elem.
    destruct (Nat.eqb_spec j i) as [-> | Hne].
    + exfalso. apply H. now left.
    + cbn [app map]. now rewrite IH.
Qed.

Lemma remove_oid_app i f1 f2 :
  remove_oid i (f1 ++ f2) = remove_oid i f1 ++ remove_oid i f2.
Proof. unfold remove_oid. apply splice_in_app. Qed.

(** moving an element to the end keeps the elements that there are *)
Lemma move_members i D kids e :
  NoDup (oids (D ++ kids)) -> lookup i (D ++ kids) = Some e ->
  forall h,
    In h (heads (remove_oid i D ++ remove_oid i kids ++ [e]))
    <-> In h (heads (D ++ kids)).
Proof.
  intros ND L h.
  destruct (in_context i _ e ND L) as (pre & post & A & B & _).
  rewrite app_assoc, <- remove_oid_app, heads_app.
  unfold remove_oid. rewrite B, A. change (heads []) with (@nil head).
  cbn [app]. rewrite !in_app_iff. tauto.
Qed.

Lemma finish_skeleton n G D kids :
  wf (skeleton n G D kids) ->
  doc (soup_append n (soup_clear (skeleton n G D kids))) = [html_tree n kids].
Proof.
  intros W.
  destruct (skeleton_new_apart n G D kids W n (or_introl eq_refl))
    as (HnD & HnG & Hnk).
  unfold soup_append, take, soup_lookup, soup_clear, everything.
  rewrite skeleton_tree. cbn [doc detached fresh app].
  rewrite <- app_assoc, lookup_app, (@lookup_notin _ _ HnG).
  cbn [app]. unfold html_tree at 1. rewrite lookup_elem, Nat.eqb_refl.
  reflexivity.
Qed.

(** ** what the moved elements hold *)

(** [i] goes to the end of a forest, with all that is below it *)
Definition move_last (i : nat) (Z : list node) : list node :=
  remove_oid i Z ++ match lookup i Z with Some e => [e] | None => [] end.

Definition move_all (L : list nat) (Z : list node) : list node :=
  fold_left (fun Z i => move_last i Z) L Z.

(** a forest around a hole, with none of the identities [S] *)
Definition frame (S : nat -> Prop) (C : list node -> list node) : Prop :=
  forall k, S k ->
  forall X, remove_oid k (C X) = C (remove_oid k X) /\
            lookup k (C X) = lookup k X.

Lemma remove_oid_notin i f : ~ In i (oids f) -> remove_oid i f = f.
Proof. apply splice_in_notin. Qed.

Lemma oids_prune_incl names f x : In x (oids (prune names f)) -> In x (oids f).
Proof.
  induction f as [| s f IH | s f IH | j nm a cs f IHcs IHf] using forest_ind;
    intros H.
  - exact H.
  - change (prune names (Text s :: f)) with (Text s :: prune names f) in H.
    rewrite oids_text in *. now apply IH.
  - change (prune names (Comment s :: f)) with (Comment s :: prune names f) in H.
    rewrite oids_comment in *. now apply IH.
  - change (prune names (Elem j nm a cs :: f))
      with ((if PyStr.mem nm names then [] else [Elem j nm a (prune names cs)])
            ++ prune names f) in H.
    rewrite oids_elem. rewrite oids_app in H. apply in_app_or in H.
    destruct H as [H | H].
    + destruct (PyStr.mem nm names); [contradiction |].
      rewrite oids_single in H. destruct H as [<- | H]; [now left |].
      right. apply in_or_app. left. now apply IHcs.
    + right. apply in_or_app. right. now apply IHf.
Qed.

Lemma oids_found_pruned_incl names f x :
  In x (oids (map (prune_node names) (find_all names f))) -> In x (oids f).
Proof.
  induction f as [| s f IH | s f IH | j nm a cs f IHcs IHf] using forest_ind;
    intros H.
  - exact H.
  - rewrite oids_text. now apply IH.
  - rewrite oids_comment. now apply IH.
  - rewrite find_all_elem, !map_app, !oids_app in H. rewrite oids_elem.
    apply in_app_or in H. destruct H as [H | H].
    + destruct (PyStr.mem nm names); [| contradiction].
      cbn [map prune_node] in H. fold (prune names cs) in H.
      rewrite oids_single in H. destruct H as [<- | H]; [now left |].
      right. apply in_or_app. left. now apply oids_prune_incl in H.
    + apply in_app_or in H. destruct H as [H | H].
      * right. apply in_or_app. left. now apply IHcs.
      * right. apply in_or_app. right. now apply IHf.
Qed.

Lemma move_all_app L1 L2 Z : move_all (L1 ++ L2) Z = move_all L2 (move_all L1 Z).
Proof. unfold move_all. apply fold_left_app. Qed.

Lemma prune_elem names j nm a cs f :
  prune names (Elem j nm a cs :: f)
  = (if PyStr.mem nm names then [] else [Elem j nm a (prune names cs)])
    ++ prune names f.
Proof. reflexivity. Qed.

(** Moving the elements named in [names] to the end, in document order,
    leaves the forest pruned of them and puts them after it, each
    pruned of the others. *)
Lemma move_all_found names F :
  forall C,
    NoDup (oids F) ->
    frame (fun k => In k (oids F)) C ->
    move_all (find_all_oids names F) (C F)
    = C (prune names F) ++ map (prune_node names) (find_all names F).
Proof.
  induction F as [| s f IH | s f IH | j nm a cs f IHcs IHf] using forest_ind;
    intros C ND HC.
  - cbn. now rewrite app_nil_r.
  - apply (IH (fun X => C (Text s :: X))); [exact ND |].
    intros k Hk X. destruct (HC k Hk (Text s :: X)) as [A B]. split.
    + exact A.
    + rewrite B. apply lookup_text.
  - apply (IH (fun X => C (Comment s :: X))); [exact ND |].
    intros k Hk X. destruct (HC k Hk (Comment s :: X)) as [A B]. split.
    + exact A.
    + rewrite B. apply lookup_comment.
  - destruct (NoDup_oids_elem ND) as (Hjc & Hjf & NDc & NDf & Hdisj).
    rewrite find_all_oids_elem, find_all_elem, prune_elem, !map_app.
    assert (Hcs : forall k, In k (oids cs) -> In k (oids (Elem j nm a cs :: f))).
    { intros k Hk. rewrite oids_elem. right. apply in_or_app. now left. }
    assert (Hf : forall k, In k (oids f) -> In k (oids (Elem j nm a cs :: f))).
    { intros k Hk. rewrite oids_elem. right. apply in_or_app. now right. }
    assert (Hj : In j (oids (Elem j nm a cs :: f))).
    { rewrite oids_elem. now left. }
    destruct (PyStr.mem nm names) eqn:Em.
    + (* the element is moved, then what is below it, then what follows *)
      cbn [app map prune_node]. fold (prune names cs).
      unfold move_all at 1. cbn [fold_left].
      fold (move_all (find_all_oids names cs ++ find_all_oids names f)
              (move_last j (C (Elem j nm a cs :: f)))).
      assert (E1 : move_last j (C (Elem j nm a cs :: f))
                   = C f ++ [Elem j nm a cs]).
      { unfold move_last. destruct (HC j Hj (Elem j nm a cs :: f)) as [A B].
        rewrite A, B, remove_oid_elem, lookup_elem, Nat.eqb_refl.
        cbn [app]. now rewrite remove_oid_notin. }
      rewrite E1, move_all_app.
      rewrite (IHcs (fun X => C f ++ [Elem j nm a X]) NDc).
      2:{ intros k Hk X.
          assert (Hkj : j <> k) by (intros ->; contradiction).
          assert (Hkf : ~ In k (oids f)) by (intros H; exact (Hdisj k Hk H)).
          destruct (HC k (Hcs k Hk) f) as [A B].
          apply Nat.eqb_neq in Hkj. split.
          - rewrite remove_oid_app, A, remove_oid_notin by assumption.
            now rewrite remove_oid_elem, Hkj.
          - rewrite lookup_app, B, (lookup_notin _ _ Hkf).
            now rewrite lookup_elem, Hkj, app_nil_r. }
      cbv beta. rewrite <- app_assoc.
      rewrite (IHf (fun X => C X ++ [Elem j nm a (prune names cs)]
                              ++ map (prune_node names) (find_all names cs))
                 NDf).
      2:{ intros k Hk X.
          assert (Hkj : j <> k) by (intros ->; contradiction).
          assert (Hkc : ~ In k (oids cs)) by (intros H; exact (Hdisj k H Hk)).
          assert (Hkt : ~ In k (oids ([Elem j nm a (prune names cs)]
                                      ++ map (prune_node names)
                                           (find_all names cs)))).
          { rewrite oids_app, oids_single. intros H. apply in_app_or in H.
            destruct H as [[H | H] | H]; auto.
            - apply Hkc. now apply oids_prune_incl in H.
            - apply Hkc. now apply oids_found_pruned_incl in H. }
          destruct (HC k (Hf k Hk) X) as [A B]. split.
          - now rewrite remove_oid_app, A, (remove_oid_notin _ _ Hkt).
          - rewrite lookup_app, B, (lookup_notin _ _ Hkt).
            now destruct (lookup k X). }
      now rewrite <- !app_assoc.
    + (* the element stays, with what is below it moved out *)
      cbn [app]. rewrite move_all_app.
      rewrite (IHcs (fun X => C (Elem j nm a X :: f)) NDc).
      2:{ intros k Hk X.
          assert (Hkj : j <> k) by (intros ->; contradiction).
          assert (Hkf : ~ In k (oids f)) by (intros H; exact (Hdisj k Hk H)).
          destruct (HC k (Hcs k Hk) (Elem j nm a X :: f)) as [A B].
          apply Nat.eqb_neq in Hkj. split.
          - rewrite A, remove_oid_elem, Hkj. cbn [app].
            now rewrite (remove_oid_notin _ _ Hkf).
          - rewrite B, lookup_elem, Hkj, lookup_app, (lookup_notin _ _ Hkf).
            now destruct (lookup k X). }
      rewrite (IHf (fun X => C (Elem j nm a (prune names cs) :: X)
                              ++ map (prune_node names) (find_all names cs))
                 NDf).
      2:{ intros k Hk X.
          assert (Hkj : j <> k) by (intros ->; contradiction).
          assert (Hkc : ~ In k (oids cs)) by (intros H; exact (Hdisj k H Hk)).
          assert (Hkp : ~ In k (oids (prune names cs))).
          { intros H. apply Hkc. now apply oids_prune_incl in H. }
          assert (Hkt : ~ In k (oids (map (prune_node names)
                                        (find_all names cs)))).
          { intros H. apply Hkc. now apply oids_found_pruned_incl in H. }
          destruct (HC k (Hf k Hk) (Elem j nm a (prune names cs) :: X))
            as [A B].
          apply Nat.eqb_neq in Hkj. split.
          - rewrite remove_oid_app, A, (remove_oid_notin _ _ Hkt).
            rewrite remove_oid_elem, Hkj. cbn [app].
            now rewrite (remove_oid_notin _ _ Hkp).
          - rewrite lookup_app, B, (lookup_notin _ _ Hkt).
            rewrite lookup_elem, Hkj, lookup_app, (lookup_notin _ _ Hkp).
            now destruct (lookup k X). }
      now rewrite <- !app_assoc.
Qed.

(** the loop of [_convert_to_html5] on the skeleton: the elements of [L]
    leave the document, and document and body together are what moving
    each of them to the end makes of them *)
Lemma move_loop_exact n G L :
  forall D K,
    wf (skeleton n G D K) ->
    NoDup L ->
    (forall i, In i L -> In i (oids (D ++ K)) /\ ~ In i (map node_oid K)) ->
    exists D' K',
      for_each L (HTMLConverter.move_to_body n) (skeleton n G D K)
      = skeleton n G D' K' /\
      D' = remove_oids L D /\
      D' ++ K' = move_all L (D ++ K).
Proof.
  induction L as [| i L IH]; intros D K W ND HL.
  - exists D, K. repeat split.
  - inversion ND as [| ? ? HiL NDL]; subst.
    destruct (HL i (or_introl eq_refl)) as [Hin Hroot].
    destruct (in_oids_lookup i (D ++ K) Hin) as (e & Le).
    destruct (skeleton_parts_nodup n G D K W) as (NDD & NDk & NDDk).
    pose proof (move_step n G D K i e W Le Hroot) as Hs.
    pose proof (wf_move_to_body n i _ W) as W1. rewrite Hs in W1.
    pose proof (move_members i D K e NDDk Le) as Hm.
    assert (Hroots : map node_oid (remove_oid i K ++ [e])
                     = map node_oid K ++ [i]).
    { rewrite map_app. cbn [map]. f_equal.
      - pose proof (roots_remove i K Hroot) as Hr.
        apply (f_equal (map (fun h => fst (fst h)))) in Hr.
        rewrite !map_map in Hr. exact Hr.
      - apply lookup_some in Le. destruct Le as (_ & -> & _). reflexivity. }
    destruct (IH (remove_oid i D) (remove_oid i K ++ [e]) W1 NDL)
      as (D' & K' & Hfe & HD & HZ).
    { intros j Hj. destruct (HL j (or_intror Hj)) as [Hjin Hjroot]. split.
      - rewrite <- map_h_id_heads in *. apply in_map_iff in Hjin.
        destruct Hjin as (h & <- & Hh). apply in_map. now apply Hm.
      - rewrite Hroots. intros Hx. apply in_app_or in Hx.
        destruct Hx as [Hx | [<- | []]]; auto. }
    exists D', K'. repeat split.
    + unfold for_each in *. cbn [fold_left]. rewrite Hs. exact Hfe.
    + rewrite remove_oids_cons. exact HD.
    + rewrite HZ. unfold move_all at 2. cbn [fold_left].
      fold (move_all L (move_last i (D ++ K))). f_equal.
      unfold move_last. rewrite Le, remove_oid_app, app_assoc. reflexivity.
Qed.

(** the document with its first html element unwrapped: the contents of
    the element stand in its place *)
Definition without_html (f : list node) : list node :=
  match find_first ["html"] f with
  | Some e => splice_in (node_oid e) node_contents f
  | None => f
  end.

Lemma doc_without_html sp :
  doc (match soup_find ["html"] sp with
       | Some h => unwrap h sp
       | None => sp
       end) = without_html (doc sp).
Proof.
  unfold soup_find, without_html.
  destruct (find_first ["html"] (doc sp)) as [e |] eqn:E; [| reflexivity].
  cbn [option_map]. unfold unwrap, soup_lookup, everything.
  assert (Hin : In (node_oid e) (oids (doc sp))).
  { unfold find_first in E.
    destruct (find_all ["html"] (doc sp)) as [| x l] eqn:F; [discriminate |].
    injection E as ->.
    assert (Hx : In e (find_all ["html"] (doc sp))) by (rewrite F; now left).
    apply find_all_in_elements in Hx. destruct Hx as [Hx _].
    unfold oids. now apply in_map. }
  destruct (in_oids_lookup _ _ Hin) as (e' & Le).
  now rewrite lookup_app, Le.
Qed.

Lemma head_of_prune_node names n : head_of (prune_node names n) = head_of n.
Proof. now destruct n. Qed.

Lemma has_name_prune_node names names' n :
  has_name names' (prune_node names n) = has_name names' n.
Proof. now destruct n. Qed.

Lemma frame_id S : frame S (fun X => X).
Proof. intros k _ X. now split. Qed.

(** ** the head and the skip link *)

(** the html element with what its head and its body hold *)
Definition html_tree2 (n : nat) (H B : list node) : node :=
  Elem n "html" lang_en [Elem (1 + n) "head" [] H; Elem (2 + n) "body" [] B].

Lemma fresh_soup_append i sp : fresh (soup_append i sp) = fresh sp.
Proof.
  unfold soup_append, take. now destruct (soup_lookup i sp).
Qed.

(** [_convert_to_html5], exactly: the document is the new html element
    with an empty head and a body; the children of the body are the
    allow-listed elements of the document whose first html element has
    been unwrapped, in document order, each pruned of the allow-listed
    elements below it; three objects have been made. *)
Lemma convert_to_html5_exact :
  forall sp : soup,
    wf sp ->
    let kids :=
      map (prune_node HTMLConverter.allow_list)
        (find_all HTMLConverter.allow_list (without_html (doc sp))) in
    (doc (HTMLConverter._convert_to_html5 sp)
     = [html_tree2 (fresh sp) [] kids] /\
     fresh (HTMLConverter._convert_to_html5 sp) = 3 + fresh sp) /\
    map head_of kids
    = map head_of (find_all HTMLConverter.allow_list (doc sp)) /\
    Forall (fun k => has_name HTMLConverter.allow_list k = true) kids.
Proof.
  intros sp W kids. unfold HTMLConverter._convert_to_html5. cbv zeta.
  pose proof (doc_without_html sp) as HdA.
  set (spA := match soup_find ["html"] sp with
              | Some h => unwrap h sp
              | None => sp
              end) in *.
  assert (WA : wf spA) by (subst spA; destruct (soup_find ["html"] sp);
                           [now apply wf_unwrap | exact W]).
  assert (FA : fresh spA = fresh sp).
  { subst spA. destruct (soup_find ["html"] sp); [| reflexivity].
    unfold unwrap. now destruct (soup_lookup n sp). }
  assert (NDsp : NoDup (oids (doc sp))).
  { destruct W as [ND _]. unfold everything in ND. rewrite oids_app in ND.
    eapply NoDup_app_l; eauto. }
  assert (HA : filter (fun h => PyStr.mem (h_name h) HTMLConverter.allow_list)
                 (heads (doc spA))
               = filter (fun h => PyStr.mem (h_name h) HTMLConverter.allow_list)
                   (heads (doc sp))).
  { subst spA. now apply find_all_heads_after_unwrap. }
  set (spB := match doc spA with
              | [] => spA
              | _ :: _ => soup_insert0 HTMLConverter.doctype_marker spA
              end).
  assert (WB : wf spB) by (subst spB; destruct (doc spA);
                           [exact WA | now apply wf_soup_insert0_comment]).
  assert (FB : fresh spB = fresh sp).
  { subst spB. destruct (doc spA); [exact FA | exact FA]. }
  assert (HB : find_all HTMLConverter.allow_list (doc spB)
               = find_all HTMLConverter.allow_list (doc spA)).
  { subst spB. destruct (doc spA) eqn:E; [now rewrite E |].
    cbn [soup_insert0 doc]. rewrite E. reflexivity. }
  clearbody spB. clear WA FA.
  pose proof (wf_make_html_tag spB WB) as WS.
  rewrite (build_skeleton spB WB) in *. cbn [snd] in WS. rewrite FB in *.
  set (n := fresh sp) in *.
  set (D := doc spB) in *. set (G := detached spB) in *.
  unfold soup_find_all. change (doc (skeleton n G D [])) with D.
  destruct (skeleton_parts_nodup n G D [] WS) as (NDD & _ & _).
  destruct (move_loop_exact n G (find_all_oids HTMLConverter.allow_list D) D []
              WS)
    as (D' & K & Hfe & HD & HZ).
  { rewrite find_all_oids_heads. unfold ids_named.
    apply NoDup_map_filter. now rewrite map_h_id_heads. }
  { intros i Hi. split; [| intros []].
    rewrite app_nil_r. now apply find_all_oids_in in Hi. }
  rewrite Hfe.
  assert (WF : wf (skeleton n G D' K)).
  { rewrite <- Hfe. apply wf_for_each; [| exact WS].
    intros x s Ws. now apply wf_move_to_body. }
  rewrite (finish_skeleton n G D' K WF).
  rewrite fresh_soup_append. cbn [soup_clear skeleton fresh].
  rewrite app_nil_r in HZ.
  rewrite (move_all_found HTMLConverter.allow_list D (fun X => X) NDD
             (frame_id _)) in HZ.
  rewrite HD, remove_found_is_prune in HZ by exact NDD.
  apply app_inv_head in HZ.
  assert (HK : K = kids).
  { rewrite HZ. subst kids. now rewrite HB, HdA. }
  rewrite HK. split; [split; reflexivity |].
  assert (Hkids : map head_of kids
                  = map head_of (find_all HTMLConverter.allow_list (doc sp))).
  { subst kids. rewrite map_map.
    rewrite (map_ext _ head_of (head_of_prune_node HTMLConverter.allow_list)).
    rewrite <- HdA, !filter_named_heads. exact HA. }
  split; [exact Hkids |].
  apply Forall_forall. intros k Hin. subst kids.
  apply in_map_iff in Hin. destruct Hin as (e & <- & He).
  rewrite has_name_prune_node.
  apply find_all_in_elements in He. now destruct He.
Qed.

(** a root among the detached trees lies nowhere else *)
Lemma root_apart D G pre i nm a cs post :
  NoDup (oids (D ++ G ++ pre ++ Elem i nm a cs :: post)) ->
  ~ In i (oids D) /\ ~ In i (oids G) /\ ~ In i (oids pre) /\
  ~ In i (oids post).
Proof.
  intros ND. rewrite !oids_app, oids_elem in ND.
  repeat split; apply occ_zero_notin; apply NoDup_occ with (x := i) in ND;
    revert ND; occ_norm; rewrite occ_single_same; lia.
Qed.

Lemma NoDup_doc sp : wf sp -> NoDup (oids (doc sp)).
Proof.
  intros [ND _]. unfold everything in ND. rewrite oids_app in ND.
  eapply NoDup_app_l; eauto.
Qed.

Lemma doc_apart D G p :
  NoDup (oids (D ++ G)) -> In p (oids D) -> ~ In p (oids G).
Proof.
  intros ND Hp. rewrite oids_app in ND. apply occ_zero_notin.
  apply NoDup_occ with (x := p) in ND. apply occ_in in Hp.
  revert ND. occ_norm. lia.
Qed.

Lemma new_tag_eq nm a sp :
  new_tag nm a sp
  = (fresh sp,
     mkSoup (1 + fresh sp) (doc sp)
       (detached sp
        ++ [Elem (fresh sp) nm (replace_cdata_list_attribute_values nm a) []])).
Proof. reflexivity. Qed.

Lemma set_attr_root {sp G pre i nm a cs post k v} :
  wf sp -> detached sp = G ++ pre ++ Elem i nm a cs :: post ->
  set_attr i k v sp
  = mkSoup (fresh sp) (doc sp)
      (G ++ pre ++ Elem i nm (attr_set k v a) cs :: post) /\
  wf (mkSoup (fresh sp) (doc sp)
        (G ++ pre ++ Elem i nm (attr_set k v a) cs :: post)).
Proof.
  intros W Hd.
  assert (E : set_attr i k v sp
              = mkSoup (fresh sp) (doc sp)
                  (G ++ pre ++ Elem i nm (attr_set k v a) cs :: post)).
  { pose proof (wf_nodup sp W) as ND. unfold everything in ND.
    rewrite Hd in ND.
    destruct (root_apart _ _ _ _ _ _ _ _ ND) as (HD & H1 & H2 & H3).
    unfold set_attr, on_trees. rewrite Hd. f_equal.
    - now apply update_in_notin.
    - rewrite !update_in_app, (update_in_notin _ _ _ H1),
        (update_in_notin _ _ _ H2).
      rewrite update_in_elem, Nat.eqb_refl.
      now rewrite (update_in_notin _ _ _ H3). }
  split; [exact E |]. rewrite <- E. now apply wf_set_attr.
Qed.

Lemma set_string_root {sp G pre i nm a cs post s} :
  wf sp -> detached sp = G ++ pre ++ Elem i nm a cs :: post ->
  set_string i s sp
  = mkSoup (fresh sp) (doc sp) (G ++ pre ++ Elem i nm a [Text s] :: post) /\
  wf (mkSoup (fresh sp) (doc sp) (G ++ pre ++ Elem i nm a [Text s] :: post)).
Proof.
  intros W Hd.
  assert (E : set_string i s sp
              = mkSoup (fresh sp) (doc sp)
                  (G ++ pre ++ Elem i nm a [Text s] :: post)).
  { pose proof (wf_nodup sp W) as ND. unfold everything in ND.
    rewrite Hd in ND.
    destruct (root_apart _ _ _ _ _ _ _ _ ND) as (HD & H1 & H2 & H3).
    unfold set_string, on_trees. rewrite Hd. f_equal.
    - now apply update_in_notin.
    - rewrite !update_in_app, (update_in_notin _ _ _ H1),
        (update_in_notin _ _ _ H2).
      rewrite update_in_elem, Nat.eqb_refl.
      now rewrite (update_in_notin _ _ _ H3). }
  split; [exact E |]. rewrite <- E. now apply wf_set_string.
Qed.

(** a detached root is put into the contents of an element of the
    document *)
Lemma put_root (ins : list node -> node -> list node) sp G pre i nm a cs post p :
  wf sp -> detached sp = G ++ pre ++ Elem i nm a cs :: post ->
  In p (oids (doc sp)) ->
  match take i sp with
  | Some (e, sp') => on_trees (update_in p (fun a cs => (a, ins cs e))) sp'
  | None => sp
  end
  = mkSoup (fresh sp)
      (update_in p (fun a' cs' => (a', ins cs' (Elem i nm a cs))) (doc sp))
      (G ++ pre ++ post).
Proof.
  intros W Hd Hp. pose proof (wf_nodup sp W) as ND. unfold everything in ND.
  assert (HpG : ~ In p (oids (G ++ pre ++ post))).
  { pose proof (doc_apart _ _ p ND Hp) as H. rewrite Hd in H.
    intros Hin. apply H. rewrite !oids_app, oids_elem.
    rewrite !oids_app in Hin. apply in_app_or in Hin.
    apply in_or_app. destruct Hin as [Hin | Hin]; [now left |].
    right. apply in_app_or in Hin. apply in_or_app.
    destruct Hin as [Hin | Hin]; [now left |].
    right. right. apply in_or_app. now right. }
  rewrite Hd in ND.
  destruct (root_apart _ _ _ _ _ _ _ _ ND) as (HD & H1 & H2 & H3).
  unfold take, soup_lookup, everything.
  rewrite Hd, !lookup_app, (lookup_notin _ _ HD), (lookup_notin _ _ H1),
    (lookup_notin _ _ H2), lookup_elem, Nat.eqb_refl.
  unfold on_trees. cbn [doc detached fresh]. rewrite Hd. f_equal.
  - f_equal. now apply splice_in_notin.
  - rewrite !splice_in_app, (splice_in_notin _ _ _ H1),
      (splice_in_notin _ _ _ H2).
    rewrite splice_in_elem, Nat.eqb_refl. cbn [app].
    rewrite (splice_in_notin _ _ _ H3). now apply update_in_notin.
Qed.

Lemma html_tree2_ids n H B :
  NoDup (oids [html_tree2 n H B]) ->
  ~ In (1 + n) (oids H) /\ ~ In (1 + n) (oids B) /\
  ~ In (2 + n) (oids H) /\ ~ In (2 + n) (oids B).
Proof.
  unfold html_tree2. rewrite oids_single, oids_elem, oids_single.
  intros ND.
  repeat split; apply occ_zero_notin.
  - apply NoDup_occ with (x := 1 + n) in ND. revert ND. occ_norm.
    rewrite occ_single_same. lia.
  - apply NoDup_occ with (x := 1 + n) in ND. revert ND. occ_norm.
    rewrite occ_single_same. lia.
  - apply NoDup_occ with (x := 2 + n) in ND. revert ND. occ_norm.
    rewrite occ_single_same. lia.
  - apply NoDup_occ with (x := 2 + n) in ND. revert ND. occ_norm.
    rewrite occ_single_same. lia.
Qed.

Lemma update_head n H B (g : list node -> list node) :
  NoDup (oids [html_tree2 n H B]) ->
  update_in (1 + n) (fun a cs => (a, g cs)) [html_tree2 n H B]
  = [html_tree2 n (g H) B].
Proof.
  intros ND. destruct (html_tree2_ids n H B ND) as (_ & HB & _ & _).
  unfold html_tree2.
  assert (E0 : Nat.eqb n (1 + n) = false) by (apply Nat.eqb_neq; lia).
  assert (E2 : Nat.eqb (2 + n) (1 + n) = false) by (apply Nat.eqb_neq; lia).
  rewrite update_in_elem, E0, update_in_nil.
  rewrite update_in_elem, Nat.eqb_refl.
  rewrite update_in_elem, E2, update_in_nil.
  now rewrite (update_in_notin _ _ _ HB).
Qed.

Lemma update_body n H B (g : list node -> list node) :
  NoDup (oids [html_tree2 n H B]) ->
  update_in (2 + n) (fun a cs => (a, g cs)) [html_tree2 n H B]
  = [html_tree2 n H (g B)].
Proof.
  intros ND. destruct (html_tree2_ids n H B ND) as (_ & _ & HH & _).
  unfold html_tree2.
  assert (E0 : Nat.eqb n (2 + n) = false) by (apply Nat.eqb_neq; lia).
  assert (E1 : Nat.eqb (1 + n) (2 + n) = false) by (apply Nat.eqb_neq; lia).
  rewrite update_in_elem, E0, update_in_nil.
  rewrite update_in_elem, E1.
  rewrite update_in_elem, Nat.eqb_refl, update_in_nil.
  now rewrite (update_in_notin _ _ _ HH).
Qed.

Lemma head_in_doc n H B : In (1 + n) (oids [html_tree2 n H B]).
Proof.
  unfold html_tree2. rewrite oids_single, oids_elem. right. now left.
Qed.

Lemma body_in_doc n H B : In (2 + n) (oids [html_tree2 n H B]).
Proof.
  unfold html_tree2. rewrite oids_single, oids_elem, oids_single.
  right. right. apply in_or_app. right. now left.
Qed.

Lemma insert_head {sp n H B G pre i nm a cs post k} :
  wf sp -> doc sp = [html_tree2 n H B] ->
  detached sp = G ++ pre ++ Elem i nm a cs :: post ->
  insert (1 + n) k i sp
  = mkSoup (fresh sp)
      [html_tree2 n (firstn k H ++ Elem i nm a cs :: skipn k H) B]
      (G ++ pre ++ post) /\
  wf (mkSoup (fresh sp)
        [html_tree2 n (firstn k H ++ Elem i nm a cs :: skipn k H) B]
        (G ++ pre ++ post)).
Proof.
  intros W HD Hd.
  assert (E : insert (1 + n) k i sp
              = mkSoup (fresh sp)
                  [html_tree2 n (firstn k H ++ Elem i nm a cs :: skipn k H) B]
                  (G ++ pre ++ post)).
  { unfold insert.
    rewrite (put_root (fun cs e => firstn k cs ++ e :: skipn k cs)
               sp G pre i nm a cs post (1 + n) W Hd)
      by (rewrite HD; apply head_in_doc).
    rewrite HD.
    rewrite (update_head n H B
               (fun cs' => firstn k cs' ++ Elem i nm a cs :: skipn k cs')).
    - reflexivity.
    - rewrite <- HD. now apply NoDup_doc. }
  split; [exact E |]. rewrite <- E. now apply wf_insert.
Qed.

Lemma append_head {sp n H B G pre i nm a cs post} :
  wf sp -> doc sp = [html_tree2 n H B] ->
  detached sp = G ++ pre ++ Elem i nm a cs :: post ->
  append (1 + n) i sp
  = mkSoup (fresh sp) [html_tree2 n (H ++ [Elem i nm a cs]) B]
      (G ++ pre ++ post) /\
  wf (mkSoup (fresh sp) [html_tree2 n (H ++ [Elem i nm a cs]) B]
        (G ++ pre ++ post)).
Proof.
  intros W HD Hd.
  assert (E : append (1 + n) i sp
              = mkSoup (fresh sp) [html_tree2 n (H ++ [Elem i nm a cs]) B]
                  (G ++ pre ++ post)).
  { unfold append.
    rewrite (put_root (fun cs e => cs ++ [e])
               sp G pre i nm a cs post (1 + n) W Hd)
      by (rewrite HD; apply head_in_doc).
    rewrite HD.
    rewrite (update_head n H B (fun cs' => cs' ++ [Elem i nm a cs])).
    - reflexivity.
    - rewrite <- HD. now apply NoDup_doc. }
  split; [exact E |]. rewrite <- E. now apply wf_append.
Qed.

Lemma insert_body {sp n H B G pre i nm a cs post k} :
  wf sp -> doc sp = [html_tree2 n H B] ->
  detached sp = G ++ pre ++ Elem i nm a cs :: post ->
  insert (2 + n) k i sp
  = mkSoup (fresh sp)
      [html_tree2 n H (firstn k B ++ Elem i nm a cs :: skipn k B)]
      (G ++ pre ++ post) /\
  wf (mkSoup (fresh sp)
        [html_tree2 n H (firstn k B ++ Elem i nm a cs :: skipn k B)]
        (G ++ pre ++ post)).
Proof.
  intros W HD Hd.
  assert (E : insert (2 + n) k i sp
              = mkSoup (fresh sp)
                  [html_tree2 n H (firstn k B ++ Elem i nm a cs :: skipn k B)]
                  (G ++ pre ++ post)).
  { unfold insert.
    rewrite (put_root (fun cs e => firstn k cs ++ e :: skipn k cs)
               sp G pre i nm a cs post (2 + n) W Hd)
      by (rewrite HD; apply body_in_doc).
    rewrite HD.
    rewrite (update_body n H B
               (fun cs' => firstn k cs' ++ Elem i nm a cs :: skipn k cs')).
    - reflexivity.
    - rewrite <- HD. now apply NoDup_doc. }
  split; [exact E |]. rewrite <- E. now apply wf_insert.
Qed.

Lemma find_head n H B f G :
  soup_find ["head"] (mkSoup f [html_tree2 n H B] G) = Some (1 + n).
Proof.
  unfold soup_find, find_first, html_tree2. cbn [doc].
  rewrite find_all_elem. change (PyStr.mem "html" ["head"]) with false.
  cbn [app]. rewrite find_all_elem. reflexivity.
Qed.

Lemma find_body n H B f G :
  find_all ["body"] H = [] ->
  soup_find ["body"] (mkSoup f [html_tree2 n H B] G) = Some (2 + n).
Proof.
  intros HH. unfold soup_find, find_first, html_tree2. cbn [doc].
  rewrite find_all_elem. change (PyStr.mem "html" ["body"]) with false.
  cbn [app]. rewrite find_all_elem. change (PyStr.mem "head" ["body"]) with false.
  cbn [app]. rewrite HH. cbn [app]. rewrite find_all_elem. reflexivity.
Qed.

(** what [_add_modern_structure] puts into the head, the first of the
    new elements being object [f] *)
Definition head_children (f : nat) : list node :=
  [Elem f "meta" [("charset", AStr "utf-8")] [];
   Elem (1 + f) "meta"
     [("name", AStr "viewport");
      ("content", AStr "width=device-width, initial-scale=1.0")] [];
   Elem (2 + f) "meta"
     [("name", AStr "description");
      ("content", AStr "Bible study resources and commentary")] [];
   Elem (3 + f) "link"
     [("rel", AStr "stylesheet"); ("href", AStr "css/modern-styles.css")] [];
   Elem (4 + f) "script"
     [("src", AStr "js/modern-features.js"); ("defer", ABool true)] [];
   Elem (5 + f) "script"
     [("src", AStr "js/search.js"); ("defer", ABool true)] [];
   Elem (6 + f) "script"
     [("src", AStr "js/search-index.js"); ("defer", ABool true)] []].

(** the skip-navigation link *)
Definition skip_link (i : nat) : node :=
  Elem i "a" [("href", AStr "#main-content"); ("class", AList ["skip-link"])]
    [Text "Skip to main content"].

Ltac run_new :=
  match goal with
  | W : wf ?ST |- context [new_tag ?nm ?a ?ST] =>
      apply (wf_new_tag nm a) in W; rewrite (new_tag_eq nm a ST);
      cbn [snd new_tag fresh doc detached] in W;
      cbv beta iota zeta; cbn [fresh doc detached];
      rewrite <- ?app_assoc in W; rewrite <- ?app_assoc;
      cbn [app] in W |- *
  end.

Tactic Notation "run" uconstr(P) :=
  let E := fresh "E" in
  let W' := fresh "W'" in
  epose proof P as [E W'];
  rewrite E; clear E;
  cbn [fresh doc detached app firstn skipn] in W' |- *.

Lemma modern_structure_of_html5 sp n B :
  wf sp -> doc sp = [html_tree2 n [] B] ->
  doc (HTMLConverter._add_modern_structure sp)
  = [html_tree2 n (head_children (fresh sp))
       (skip_link (7 + fresh sp) :: B)].
Proof.
  destruct sp as [f D G]. cbn [doc fresh]. intros W HD. subst D.
  unfold HTMLConverter._add_modern_structure. rewrite find_head.
  run_new.
  run (set_attr_root (G := G) (pre := []) (post := []) W eq_refl).
  clear W; rename W' into W.
  run_new.
  run (set_attr_root (G := G) (pre := [_]) (post := []) W eq_refl).
  clear W; rename W' into W.
  run (set_attr_root (G := G) (pre := [_]) (post := []) W eq_refl).
  clear W; rename W' into W.
  run_new.
  run (set_attr_root (G := G) (pre := [_; _]) (post := []) W eq_refl).
  clear W; rename W' into W.
  run (set_attr_root (G := G) (pre := [_; _]) (post := []) W eq_refl).
  clear W; rename W' into W.
  run (insert_head (G := G) (pre := []) (post := [_; _]) W eq_refl eq_refl).
  clear W; rename W' into W.
  run (insert_head (G := G) (pre := []) (post := [_]) W eq_refl eq_refl).
  clear W; rename W' into W.
  run (insert_head (G := G) (pre := []) (post := []) W eq_refl eq_refl).
  clear W; rename W' into W.
  run_new.
  run (set_attr_root (G := G) (pre := []) (post := []) W eq_refl).
  clear W; rename W' into W.
  run (set_attr_root (G := G) (pre := []) (post := []) W eq_refl).
  clear W; rename W' into W.
  run_new.
  run (set_attr_root (G := G) (pre := [_]) (post := []) W eq_refl).
  clear W; rename W' into W.
  run (set_attr_root (G := G) (pre := [_]) (post := []) W eq_refl).
  clear W; rename W' into W.
  run_new.
  run (set_attr_root (G := G) (pre := [_; _]) (post := []) W eq_refl).
  clear W; rename W' into W.
  run (set_attr_root (G := G) (pre := [_; _]) (post := []) W eq_refl).
  clear W; rename W' into W.
  run_new.
  run (set_attr_root (G := G) (pre := [_; _; _]) (post := []) W eq_refl).
  clear W; rename W' into W.
  run (set_attr_root (G := G) (pre := [_; _; _]) (post := []) W eq_refl).
  clear W; rename W' into W.
  run (append_head (G := G) (pre := []) (post := [_; _; _]) W eq_refl eq_refl).
  clear W; rename W' into W.
  run (append_head (G := G) (pre := []) (post := [_; _]) W eq_refl eq_refl).
  clear W; rename W' into W.
  run (append_head (G := G) (pre := []) (post := [_]) W eq_refl eq_refl).
  clear W; rename W' into W.
  run (append_head (G := G) (pre := []) (post := []) W eq_refl eq_refl).
  clear W; rename W' into W.
  run_new.
  run (set_string_root (G := G) (pre := []) (post := []) W eq_refl).
  clear W; rename W' into W.
  rewrite find_body by reflexivity.
  run (insert_body (G := G) (pre := []) (post := []) W eq_refl eq_refl).
  reflexivity.
Qed.

(** C1, as the code has it.  After [_convert_to_html5] the document is
    the new html element with an empty head and a body, and the children
    of the body are exactly the allow-listed elements of the source, in
    document order, each the same object with its tag and attributes.
    Each of them holds what it held in the source, the first html element
    of the source being replaced by its contents, less the allow-listed
    elements below it, which are children of the body themselves: a
    text, a comment or an element of another tag that was a child of an
    allow-listed element is still a child of it.  So every child of the
    body has an allow-listed tag, and nothing but these children is in
    the body.  [_add_modern_structure] then fills the head and puts the
    skip link, an [a] element, before them as first child of the body. *)
Theorem C1_body_children_are_the_allow_listed_elements :
  forall sp : soup,
    wf sp ->
    let found :=
      find_all HTMLConverter.allow_list (without_html (doc sp)) in
    let kids := map (prune_node HTMLConverter.allow_list) found in
    doc (HTMLConverter._convert_to_html5 sp)
    = [Elem (fresh sp) "html" [("lang", AStr "en")]
         [Elem (1 + fresh sp) "head" [] [];
          Elem (2 + fresh sp) "body" [] kids]] /\
    map head_of kids
    = map head_of (find_all HTMLConverter.allow_list (doc sp)) /\
    Forall (fun k => has_name HTMLConverter.allow_list k = true) kids /\
    (forall e x,
       In e found -> In x (node_contents e) ->
       has_name HTMLConverter.allow_list x = false ->
       In (prune_node HTMLConverter.allow_list x)
          (node_contents (prune_node HTMLConverter.allow_list e))) /\
    doc (HTMLConverter._add_modern_structure
           (HTMLConverter._convert_to_html5 sp))
    = [Elem (fresh sp) "html" [("lang", AStr "en")]
         [Elem (1 + fresh sp) "head" [] (head_children (3 + fresh sp));
          Elem (2 + fresh sp) "body" []
            (skip_link (10 + fresh sp) :: kids)]].
Proof.
  intros sp W found kids.
  destruct (convert_to_html5_exact sp W) as ((HD & HF) & Hh & Hn).
  fold found in HD, Hh, Hn. fold kids in HD, Hh, Hn.
  split; [exact HD |]. split; [exact Hh |]. split; [exact Hn |]. split.
  - intros e x _ Hx Hname. destruct e as [s | s | i nm a cs]; try contradiction.
    cbn [node_contents prune_node] in *. apply in_flat_map.
    exists x. split; [exact Hx |]. rewrite Hname. now left.
  - rewrite (modern_structure_of_html5
               (HTMLConverter._convert_to_html5 sp) (fresh sp) kids
               (wf_convert_to_html5 sp W) HD).
    rewrite HF. reflexivity.
Qed.

(** a div around a paragraph that holds a bold word and a list *)
Definition nested_page : soup :=
  mkSoup 6
    [Elem 0 "div" [("class", AList ["box"])]
       [Elem 1 "p" []
          [Text "a "; Elem 2 "b" [] [Text "bold"];
           Elem 3 "ul" [] [Elem 4 "li" [] [Text "item"]]];
        Elem 5 "span" [] [Text "tail"]]]
    [].

Lemma C1_witness :
  wf nested_page /\
  doc (HTMLConverter._convert_to_html5 nested_page)
  = [Elem 6 "html" [("lang", AStr "en")]
       [Elem 7 "head" [] [];
        Elem 8 "body" []
          [Elem 0 "div" [("class", AList ["box"])]
             [Elem 5 "span" [] [Text "tail"]];
           Elem 1 "p" [] [Text "a "; Elem 2 "b" [] [Text "bold"]];
           Elem 3 "ul" [] [];
           Elem 4 "li" [] [Text "item"]]]] /\
  doc (HTMLConverter._add_modern_structure
         (HTMLConverter._convert_to_html5 nested_page))
  = [Elem 6 "html" [("lang", AStr "en")]
       [Elem 7 "head" [] (head_children 9);
        Elem 8 "body" []
          [skip_link 16;
           Elem 0 "div" [("class", AList ["box"])]
             [Elem 5 "span" [] [Text "tail"]];
           Elem 1 "p" [] [Text "a "; Elem 2 "b" [] [Text "bold"]];
           Elem 3 "ul" [] [];
           Elem 4 "li" [] [Text "item"]]]].
Proof.
  assert (W : wf nested_page)
    by (split; [solve_nodup | vm_compute; repeat constructor]).
  split; [exact W |].
  destruct (C1_body_children_are_the_allow_listed_elements nested_page W)
    as (A & _ & _ & _ & E).
  split; [exact A | exact E].
Defined.

(** the children of the body for that page: each element has lost the
    allow-listed elements that were below it, and kept the others *)
Example nested_page_flattened :
  doc (HTMLConverter._convert_to_html5 nested_page)
  = [Elem 6 "html" [("lang", AStr "en")]
       [Elem 7 "head" [] [];
        Elem 8 "body" []
          [Elem 0 "div" [("class", AList ["box"])]
             [Elem 5 "span" [] [Text "tail"]];
           Elem 1 "p" [] [Text "a "; Elem 2 "b" [] [Text "bold"]];
           Elem 3 "ul" [] [];
           Elem 4 "li" [] [Text "item"]]]].
Proof. vm_compute. reflexivity. Qed.

(** the contents of the first body element *)
Definition body_of (f : list node) : list node :=
  match find_first ["body"] f with
  | Some b => node_contents b
  | None => []
  end.

(** a paragraph with a bold word *)
Definition bold_paragraph : soup :=
  mkSoup 2 [Elem 0 "p" [] [Elem 1 "b" [] [Text "x"]]] [].

Definition bold_word : node := Elem 1 "b" [] [Text "x"].

Lemma bold_word_in_converted_body :
  In bold_word
    (elements_of (body_of (doc (HTMLConverter.convert_soup bold_paragraph)))).
Proof. vm_compute. auto. Qed.

Lemma bold_word_in_html5_body :
  In bold_word
    (elements_of
       (body_of (doc (HTMLConverter._convert_to_html5 bold_paragraph)))).
Proof. vm_compute. auto. Qed.

Lemma bold_word_not_allow_listed :
  has_name HTMLConverter.allow_list bold_word = false.
Proof. vm_compute. reflexivity. Qed.

(** C1 as stated fails: in the converted document the body holds the
    skip link, an [a] element, as its first child, and the [b] element
    of the source inside the paragraph; neither tag is allow-listed. *)
Lemma C1_counterexample :
  map node_name
    (elements_of
       (body_of (doc (HTMLConverter.convert_soup bold_paragraph))))
  = ["a"; "p"; "b"] /\
  ~ (forall e,
       In e (elements_of
               (body_of (doc (HTMLConverter.convert_soup bold_paragraph)))) ->
       has_name HTMLConverter.allow_list e = true) /\
  ~ (forall e,
       In e (elements_of
               (body_of (doc (HTMLConverter._convert_to_html5 bold_paragraph)))) ->
       has_name HTMLConverter.allow_list e = true).
Proof.
  split; [vm_compute; reflexivity | split].
  - intros H. specialize (H bold_word bold_word_in_converted_body).
    rewrite bold_word_not_allow_listed in H. discriminate.
  - intros H. specialize (H bold_word bold_word_in_html5_body).
    rewrite bold_word_not_allow_listed in H. discriminate.
Qed.

Example scenario_A_table :
  doc (HTMLConverter._convert_tables
         (mkSoup 6
            [Elem 0 "table" [("width", AStr "100%")]
               [Elem 1 "tr" [] [Elem 2 "td" [] [Text "A"]];
                Elem 3 "tr" []
                  [Elem 4 "td" [] [Text "B"]; Elem 5 "td" [] [Text "C"]]]]
            []))
  = [Elem 6 "div" [("class", AList ["modern-layout"])]
       [Elem 7 "section" [("class", AList ["content-section"])] [Text "A"];
        Elem 8 "div" [("class", AList ["two-column-layout"])]
          [Elem 9 "div" [("class", AList ["column"; "column-1"])] [Text "B"];
           Elem 10 "div" [("class", AList ["column"; "column-2"])] [Text "C"]]]].
Proof. vm_compute. reflexivity. Qed.

(* ================================================================== *)
(** * The converter: layout tables *)
(* ================================================================== *)

(** emptying the element [c] *)
Definition clear (c : nat) (f : list node) : list node :=
  update_in c (fun a _ => (a, [])) f.

Definition clear_all (cs : list nat) (f : list node) : list node :=
  fold_left (fun acc c => clear c acc) cs f.

(** an element found in a forest lies in it with all that is below it *)
Lemma lookup_sub i f e x :
  lookup i f = Some e -> In x (oids [e]) -> In x (oids f).
Proof.
  induction f as [| s f IH | s f IH | j nm a cs f IHcs IHf] using forest_ind;
    intros L Hx.
  - discriminate.
  - rewrite oids_text. rewrite lookup_text in L. auto.
  - rewrite oids_comment. rewrite lookup_comment in L. auto.
  - rewrite lookup_elem in L. rewrite oids_elem.
    destruct (Nat.eqb j i).
    + injection L as <-. rewrite oids_single in Hx.
      destruct Hx as [Hx | Hx]; [now left | right; apply in_or_app; now left].
    + rewrite lookup_app in L. right. apply in_or_app.
      destruct (lookup i cs); [left | right]; auto.
Qed.

(** an element found below an element that is found *)
Lemma lookup_inside i j f e e' :
  NoDup (oids f) ->
  lookup j f = Some e -> lookup i (node_contents e) = Some e' ->
  lookup i f = Some e'.
Proof.
  induction f as [| s f IH | s f IH | k nm a cs f IHcs IHf] using forest_ind;
    intros ND Lj Li.
  - discriminate.
  - rewrite lookup_text in *. auto.
  - rewrite lookup_comment in *. auto.
  - destruct (NoDup_oids_elem ND) as (Hkc & Hkf & NDc & NDf & Hdisj).
    rewrite lookup_elem in Lj. rewrite lookup_elem.
    destruct (Nat.eqb_spec k j) as [-> | Hkj].
    + injection Lj as <-. cbn [node_contents] in Li.
      destruct (Nat.eqb_spec j i) as [-> | Hji].
      * exfalso. apply Hkc. eapply lookup_in_oids; eauto.
      * now rewrite lookup_app, Li.
    + assert (Hin : In i (oids [e])).
      { destruct (lookup_elem_shape _ _ _ Lj) as (nm' & a' & cs' & ->).
        rewrite oids_single. right. cbn [node_contents] in Li.
        eapply lookup_in_oids; eauto. }
      rewrite lookup_app in Lj.
      destruct (lookup j cs) as [e0 |] eqn:Ejc.
      * injection Lj as ->.
        assert (Hic : In i (oids cs)) by (eapply lookup_sub; eauto).
        destruct (Nat.eqb_spec k i) as [-> | Hki]; [contradiction |].
        rewrite lookup_app, (IHcs NDc eq_refl Li). reflexivity.
      * assert (Hif : In i (oids f)) by (eapply lookup_sub; eauto).
        destruct (Nat.eqb_spec k i) as [-> | Hki]; [contradiction |].
        rewrite lookup_app.
        rewrite (@lookup_notin i cs) by (intros Hc; eapply Hdisj; eauto).
        now apply IHf.
Qed.

(** emptying [c] does not change an element that neither holds [c] nor
    lies below it *)
Lemma lookup_clear_other c x f X :
  NoDup (oids f) ->
  lookup x f = Some X ->
  ~ In c (oids [X]) ->
  (forall C, lookup c f = Some C -> ~ In x (oids (node_contents C))) ->
  lookup x (clear c f) = Some X.
Proof.
  unfold clear.
  induction f as [| s f IH | s f IH | j nm a cs f IHcs IHf] using forest_ind;
    intros ND Lx HcX HxC.
  - discriminate.
  - rewrite update_in_text, lookup_text in *. auto.
  - rewrite update_in_comment, lookup_comment in *. auto.
  - destruct (NoDup_oids_elem ND) as (Hjc & Hjf & NDc & NDf & Hdisj).
    rewrite update_in_elem. rewrite lookup_elem in Lx.
    destruct (Nat.eqb_spec j c) as [-> | Hjc'].
    + (* the root is the cleared element *)
      assert (Hxc : ~ In x (oids cs)).
      { apply (HxC (Elem c nm a cs)). now rewrite lookup_elem, Nat.eqb_refl. }
      rewrite update_in_notin by assumption.
      rewrite lookup_elem.
      destruct (Nat.eqb_spec c x) as [-> | Hcx].
      * exfalso. injection Lx as <-. apply HcX. rewrite oids_single. now left.
      * rewrite lookup_app in Lx. rewrite (@lookup_notin x cs Hxc) in Lx.
        exact Lx.
    + rewrite lookup_elem.
      destruct (Nat.eqb_spec j x) as [-> | Hjx].
      * injection Lx as <-. rewrite update_in_notin; [reflexivity |].
        intros Hin. apply HcX. rewrite oids_single. now right.
      * rewrite lookup_app in Lx. rewrite lookup_app.
        destruct (lookup x cs) as [X0 |] eqn:Exc.
        -- injection Lx as ->. rewrite IHcs; auto.
           intros C LC. apply HxC. rewrite lookup_elem.
           apply Nat.eqb_neq in Hjc'. rewrite Hjc'. now rewrite lookup_app, LC.
        -- assert (Hnone : lookup x (update_in c (fun a0 _ => (a0, [])) cs)
                           = None).
           { apply lookup_notin. intros Hin.
             apply (@lookup_none_notin _ _ Exc).
             destruct (lookup c cs) as [C |] eqn:Ecc.
             - destruct (lookup_elem_shape _ _ _ Ecc) as (nm' & a' & cs' & ->).
               pose proof (occ_update c (fun a0 _ => (a0, [])) cs nm' a' cs' x
                             NDc Ecc) as Hu.
               cbn [snd] in Hu. change (oids []) with (@nil nat) in Hu.
               rewrite occ_nil in Hu. apply occ_in in Hin. apply occ_in. lia.
             - rewrite update_in_notin in Hin; [exact Hin |].
               now apply lookup_none_notin. }
           rewrite Hnone. apply IHf; auto.
           intros C LC. apply HxC. rewrite lookup_elem.
           apply Nat.eqb_neq in Hjc'. rewrite Hjc'. rewrite lookup_app.
           rewrite (@lookup_notin c cs); [exact LC |].
           intros Hin. apply (Hdisj c Hin). eapply lookup_in_oids; eauto.
Qed.

Lemma oids_update_shrink_incl c g f y :
  (forall a cs z, In z (oids (snd (g a cs))) -> In z (oids cs)) ->
  In y (oids (update_in c g f)) -> In y (oids f).
Proof.
  intros Hg.
  induction f as [| s f IH | s f IH | j nm a cs f IHcs IHf] using forest_ind;
    intros H.
  - exact H.
  - rewrite update_in_text, oids_text in H. rewrite oids_text. auto.
  - rewrite update_in_comment, oids_comment in H. rewrite oids_comment. auto.
  - rewrite update_in_elem in H. rewrite oids_elem.
    destruct (Nat.eqb j c).
    + specialize (Hg a cs). destruct (g a cs) as [a' cs']. cbn [snd] in Hg.
      rewrite oids_elem in H. destruct H as [H | H]; [now left |].
      right. apply in_app_or in H. apply in_or_app.
      destruct H; [left | right]; auto.
    + rewrite oids_elem in H. destruct H as [H | H]; [now left |].
      right. apply in_app_or in H. apply in_or_app.
      destruct H; [left | right]; auto.
Qed.

Lemma oids_clear_incl c f y : In y (oids (clear c f)) -> In y (oids f).
Proof.
  apply oids_update_shrink_incl. intros a cs z H. cbn [snd] in H.
  contradiction.
Qed.

Lemma extend_last_root x nm a cs c C sp G :
  detached sp = G ++ [Elem x nm a cs] ->
  lookup c (doc sp) = Some C ->
  ~ In x (oids (doc sp)) -> ~ In x (oids G) ->
  ~ In c (oids G) -> c <> x -> ~ In c (oids cs) ->
  extend x c sp
  = mkSoup (fresh sp) (clear c (doc sp))
      (G ++ [Elem x nm a (cs ++ node_contents C)]).
Proof.
  intros Hd Lc HxD HxG HcG Hcx Hccs.
  unfold extend, soup_lookup, everything. rewrite lookup_app, Lc.
  unfold on_trees. cbn [doc detached fresh]. rewrite Hd. f_equal.
  - apply update_in_notin. intros Hin. apply HxD.
    now apply oids_clear_incl in Hin.
  - rewrite (update_in_notin c).
    2:{ rewrite oids_app, oids_single. intros Hin. apply in_app_or in Hin.
        destruct Hin as [Hin | [Hin | Hin]]; auto. }
    rewrite update_in_app, update_in_notin by assumption.
    now rewrite update_in_elem, Nat.eqb_refl, update_in_nil.
Qed.

(** what well-formedness says about a soup whose last detached tree is
    rooted at [s] *)
Lemma last_root_apart sp G s nm a items :
  wf sp -> detached sp = G ++ [Elem s nm a items] ->
  (~ In s (oids (doc sp)) /\ ~ In s (oids G) /\ ~ In s (oids items)) /\
  (forall c, In c (oids (doc sp)) ->
             ~ In c (oids G) /\ c <> s /\ ~ In c (oids items)) /\
  (forall k, fresh sp <= k ->
             ~ In k (oids (doc sp)) /\ ~ In k (oids G) /\ k <> s /\
             ~ In k (oids items)).
Proof.
  intros [ND B] Hd. unfold everything in *. rewrite Hd in *.
  rewrite !oids_app, oids_single in *.
  repeat split.
  - apply occ_zero_notin. apply NoDup_occ with (x := s) in ND.
    revert ND. occ_norm. rewrite occ_single_same. lia.
  - apply occ_zero_notin. apply NoDup_occ with (x := s) in ND.
    revert ND. occ_norm. rewrite occ_single_same. lia.
  - apply occ_zero_notin. apply NoDup_occ with (x := s) in ND.
    revert ND. occ_norm. rewrite occ_single_same. lia.
  - apply occ_zero_notin. apply NoDup_occ with (x := c) in ND.
    apply occ_in in H. revert ND. occ_norm. lia.
  - intros ->. apply NoDup_occ with (x := s) in ND.
    apply occ_in in H. revert ND. occ_norm. rewrite occ_single_same. lia.
  - apply occ_zero_notin. apply NoDup_occ with (x := c) in ND.
    apply occ_in in H. revert ND. occ_norm. lia.
  - intros Hin. rewrite Forall_forall in B.
    assert (k < fresh sp) by (apply B; apply in_or_app; now left). lia.
  - intros Hin. rewrite Forall_forall in B.
    assert (k < fresh sp).
    { apply B. apply in_or_app. right. apply in_or_app. now left. }
    lia.
  - intros ->. rewrite Forall_forall in B.
    assert (s < fresh sp).
    { apply B. apply in_or_app. right. apply in_or_app. right. now left. }
    lia.
  - intros Hin. rewrite Forall_forall in B.
    assert (k < fresh sp).
    { apply B. apply in_or_app. right. apply in_or_app. right. now right. }
    lia.
Qed.

Lemma wrap_cell_spec s nm a items at_ c C sp G :
  wf sp -> detached sp = G ++ [Elem s nm a items] ->
  lookup c (doc sp) = Some C ->
  HTMLConverter.wrap_cell s at_ c sp
  = mkSoup (1 + fresh sp) (clear c (doc sp))
      (G ++ [Elem s nm a
               (items
                ++ [Elem (fresh sp) "div"
                      (replace_cdata_list_attribute_values "div" at_)
                      (node_contents C)])]).
Proof.
  intros W Hd Lc.
  destruct (last_root_apart sp G s nm a items W Hd) as ((HsD & HsG & Hsi) & Hc & Hk).
  destruct (Hc c (@lookup_in_oids _ _ _ Lc)) as (HcG & Hcs & Hci).
  destruct (Hk (fresh sp) (Nat.le_refl _)) as (HnD & HnG & Hns & Hni).
  assert (Hcn : c <> fresh sp).
  { intros ->. apply HnD. eapply lookup_in_oids; eauto. }
  assert (HnGS : ~ In (fresh sp) (oids (G ++ [Elem s nm a items]))).
  { rewrite oids_app, oids_single. intros Hin. apply in_app_or in Hin.
    destruct Hin as [Hin | [Hin | Hin]]; auto. }
  assert (HcGS : ~ In c (oids (G ++ [Elem s nm a items]))).
  { rewrite oids_app, oids_single. intros Hin. apply in_app_or in Hin.
    destruct Hin as [Hin | [Hin | Hin]]; auto. }
  unfold HTMLConverter.wrap_cell, new_tag. rewrite Hd.
  set (made := replace_cdata_list_attribute_values "div" at_).
  rewrite (extend_last_root (fresh sp) "div" made [] c C _
             (G ++ [Elem s nm a items])); auto.
  cbn [doc fresh app].
  rewrite (append_last_root s (fresh sp) "div" made (node_contents C) _
             (G ++ [Elem s nm a items])).
  2:{ reflexivity. }
  2:{ cbn [doc]. intros Hin. apply HnD. now apply oids_clear_incl in Hin. }
  2:{ exact HnGS. }
  cbn [doc fresh]. f_equal.
  - apply update_in_notin. intros Hin. apply HsD.
    now apply oids_clear_incl in Hin.
  - rewrite update_in_app, update_in_notin by assumption.
    now rewrite update_in_elem, Nat.eqb_refl, update_in_nil.
Qed.

(** a new element [tag] takes the contents of [cell] and is appended to
    [parent]: the single-cell branch with "section", [wrap_cell] with
    "div" *)
Definition wrap_with (tag : string) (parent : nat) (a : attrs) (cell : nat)
    (sp : soup) : soup :=
  let (x, sp) := new_tag tag a sp in
  let sp := extend x cell sp in
  append parent x sp.

Lemma wrap_with_spec tag s nm a items at_ c C sp G :
  wf sp -> detached sp = G ++ [Elem s nm a items] ->
  lookup c (doc sp) = Some C ->
  wrap_with tag s at_ c sp
  = mkSoup (1 + fresh sp) (clear c (doc sp))
      (G ++ [Elem s nm a
               (items
                ++ [Elem (fresh sp) tag
                      (replace_cdata_list_attribute_values tag at_)
                      (node_contents C)])]).
Proof.
  intros W Hd Lc.
  destruct (last_root_apart sp G s nm a items W Hd) as ((HsD & HsG & Hsi) & Hc & Hk).
  destruct (Hc c (@lookup_in_oids _ _ _ Lc)) as (HcG & Hcs & Hci).
  destruct (Hk (fresh sp) (Nat.le_refl _)) as (HnD & HnG & Hns & Hni).
  assert (Hcn : c <> fresh sp).
  { intros ->. apply HnD. eapply lookup_in_oids; eauto. }
  assert (HnGS : ~ In (fresh sp) (oids (G ++ [Elem s nm a items]))).
  { rewrite oids_app, oids_single. intros Hin. apply in_app_or in Hin.
    destruct Hin as [Hin | [Hin | Hin]]; auto. }
  assert (HcGS : ~ In c (oids (G ++ [Elem s nm a items]))).
  { rewrite oids_app, oids_single. intros Hin. apply in_app_or in Hin.
    destruct Hin as [Hin | [Hin | Hin]]; auto. }
  unfold wrap_with, new_tag. rewrite Hd.
  set (made := replace_cdata_list_attribute_values tag at_).
  rewrite (extend_last_root (fresh sp) tag made [] c C _
             (G ++ [Elem s nm a items])); auto.
  cbn [doc fresh app].
  rewrite (append_last_root s (fresh sp) tag made (node_contents C) _
             (G ++ [Elem s nm a items])).
  2:{ reflexivity. }
  2:{ cbn [doc]. intros Hin. apply HnD. now apply oids_clear_incl in Hin. }
  2:{ exact HnGS. }
  cbn [doc fresh]. f_equal.
  - apply update_in_notin. intros Hin. apply HsD.
    now apply oids_clear_incl in Hin.
  - rewrite update_in_app, update_in_notin by assumption.
    now rewrite update_in_elem, Nat.eqb_refl, update_in_nil.
Qed.

Lemma wf_wrap_with tag parent a cell sp :
  wf sp -> wf (wrap_with tag parent a cell sp).
Proof.
  intros W. unfold wrap_with.
  pose proof (wf_new_tag tag a sp W) as W1.
  destruct (new_tag tag a sp) as [col s1]. cbn [snd] in W1.
  now apply wf_append, wf_extend.
Qed.

(** the identities below each element of a family, all together *)
Definition family_oids (Cs : list node) : list nat :=
  List.concat (map (fun C => oids [C]) Cs).

Lemma family_oids_cons C Cs : family_oids (C :: Cs) = oids [C] ++ family_oids Cs.
Proof. reflexivity. Qed.

Lemma family_apart C Cs x :
  NoDup (family_oids (C :: Cs)) -> In x (oids [C]) ->
  forall C', In C' Cs -> ~ In x (oids [C']).
Proof.
  rewrite family_oids_cons. intros ND Hx C' HC' Hx'.
  apply (@NoDup_app_disj _ _ _ _ ND Hx).
  unfold family_oids. apply in_concat. exists (oids [C']). split; [| exact Hx'].
  apply in_map_iff. eauto.
Qed.

Lemma root_in_own_oids e :
  (exists i nm a cs, e = Elem i nm a cs) -> In (node_oid e) (oids [e]).
Proof.
  intros (i & nm & a & cs & ->). rewrite oids_single. now left.
Qed.

Lemma contents_in_own_oids e x :
  In x (oids (node_contents e)) -> In x (oids [e]).
Proof.
  destruct e as [s | s | i nm a cs]; cbn [node_contents]; try contradiction.
  intros H. rewrite oids_single. now right.
Qed.

(** the divs that a loop over cells makes, numbered from [n] *)
Fixpoint cell_divs (at_ : attrs) (n : nat) (Cs : list node) : list node :=
  match Cs with
  | [] => []
  | C :: Cs' => Elem n "div" at_ (node_contents C) :: cell_divs at_ (1 + n) Cs'
  end.

Lemma lookups_after_clear c C cells Cs f :
  NoDup (oids f) ->
  lookup c f = Some C ->
  Forall2 (fun c' C' => lookup c' f = Some C') cells Cs ->
  NoDup (family_oids (C :: Cs)) ->
  Forall2 (fun c' C' => lookup c' (clear c f) = Some C') cells Cs.
Proof.
  intros ND Lc Hall Hfam.
  assert (Hc : In c (oids [C])).
  { destruct (lookup_elem_shape _ _ _ Lc) as (nm & a & cs & ->).
    rewrite oids_single. now left. }
  assert (Hin : forall c' C', In C' Cs -> lookup c' f = Some C' ->
                              lookup c' (clear c f) = Some C').
  { intros c' C' HC' L'. apply lookup_clear_other; auto.
    - now apply (family_apart C Cs c Hfam Hc).
    - intros C0 L0. rewrite Lc in L0. injection L0 as <-. intros Hx.
      apply (family_apart C Cs c' Hfam (contents_in_own_oids _ _ Hx) C' HC').
      destruct (lookup_elem_shape _ _ _ L') as (nm & a & cs & ->).
      rewrite oids_single. now left. }
  clear Hfam. induction Hall as [| c' C' cells Cs L' Hrest IH];
    constructor.
  - apply Hin; [now left | exact L'].
  - apply IH. intros c'' C'' HC''. apply Hin. now right.
Qed.

(** the loop over the cells of a row with three or more cells *)
Lemma wrap_cells_spec at_ cells :
  forall Cs sp G s nm a items,
    wf sp -> detached sp = G ++ [Elem s nm a items] ->
    Forall2 (fun c C => lookup c (doc sp) = Some C) cells Cs ->
    NoDup (family_oids Cs) ->
    for_each cells (fun cell sp => HTMLConverter.wrap_cell s at_ cell sp) sp
    = mkSoup (List.length cells + fresh sp) (clear_all cells (doc sp))
        (G ++ [Elem s nm a (items ++ cell_divs (replace_cdata_list_attribute_values "div" at_) (fresh sp) Cs)]).
Proof.
  induction cells as [| c cells IH]; intros Cs sp G s nm a items W Hd Hall Hfam.
  - inversion Hall; subst. unfold for_each. cbn [fold_left List.length clear_all cell_divs].
    rewrite app_nil_r, <- Hd. now destruct sp.
  - inversion Hall as [| ? C ? Cs' Lc Hrest]; subst.
    unfold for_each. cbn [fold_left].
    change (HTMLConverter.wrap_cell s at_ c sp) with (wrap_with "div" s at_ c sp).
    rewrite (wrap_with_spec "div" s nm a items at_ c C sp G W Hd Lc).
    pose proof (wf_wrap_with "div" s at_ c sp W) as W1.
    rewrite (wrap_with_spec "div" s nm a items at_ c C sp G W Hd Lc) in W1.
    assert (NDd : NoDup (oids (doc sp))).
    { destruct W as [ND _]. unfold everything in ND. rewrite oids_app in ND.
      eapply NoDup_app_l; eauto. }
    fold (for_each cells
            (fun cell sp0 => HTMLConverter.wrap_cell s at_ cell sp0)
            (mkSoup (1 + fresh sp) (clear c (doc sp))
               (G ++ [Elem s nm a
                        (items
                         ++ [Elem (fresh sp) "div"
                               (replace_cdata_list_attribute_values "div" at_)
                               (node_contents C)])]))).
    rewrite (IH Cs' _ G s nm a
               (items
                         ++ [Elem (fresh sp) "div"
                               (replace_cdata_list_attribute_values "div" at_)
                               (node_contents C)])).
    + cbn [fresh doc List.length clear_all fold_left cell_divs].
      f_equal.
      * lia.
      * now rewrite <- app_assoc.
    + exact W1.
    + reflexivity.
    + cbn [doc]. now apply (lookups_after_clear c C).
    + rewrite family_oids_cons in Hfam. eapply NoDup_app_r; eauto.
Qed.

Lemma found_lookup names f C :
  NoDup (oids f) -> In C (find_all names f) -> lookup (node_oid C) f = Some C.
Proof.
  intros ND HC. apply find_all_in_elements in HC. destruct HC as [Hin _].
  destruct (in_oids_lookup (node_oid C) f) as (e & He).
  { unfold oids. now apply in_map. }
  rewrite He. f_equal. apply lookup_some in He. destruct He as (Hin' & Hi & _).
  apply (NoDup_map_inj node_oid (elements_of f)); auto.
Qed.

Lemma sub_ids_refl l : sub_ids l l.
Proof. intros x. lia. Qed.

(** elements found by name, none of them below another one, lie apart *)
Lemma found_disjoint names f :
  NoDup (oids f) ->
  Forall (fun C => find_all names (node_contents C) = []) (find_all names f) ->
  sub_ids (family_oids (find_all names f)) (oids f).
Proof.
  induction f as [| s f IH | s f IH | j nm a cs f IHcs IHf] using forest_ind;
    intros ND Hflat.
  - apply sub_ids_refl.
  - now apply IH.
  - now apply IH.
  - destruct (NoDup_oids_elem ND) as (Hjc & Hjf & NDc & NDf & Hdisj).
    rewrite find_all_elem in *. rewrite oids_elem.
    destruct (PyStr.mem nm names).
    + cbn [app] in *. inversion Hflat as [| ? ? Hhere Hrest]; subst.
      cbn [node_contents] in Hhere. rewrite Hhere in *. cbn [app] in *.
      rewrite family_oids_cons, oids_single. intros x.
      specialize (IHf NDf Hrest x). occ_norm. lia.
    + cbn [app] in *. apply Forall_app in Hflat. destruct Hflat as [Hc Hf].
      unfold family_oids in *. rewrite map_app, concat_app. intros x.
      specialize (IHcs NDc Hc x). specialize (IHf NDf Hf x).
      occ_norm. lia.
Qed.

Lemma found_family_nodup names f :
  NoDup (oids f) ->
  Forall (fun C => find_all names (node_contents C) = []) (find_all names f) ->
  NoDup (family_oids (find_all names f)).
Proof.
  intros ND Hflat. eapply NoDup_sub; [exact ND |]. now apply found_disjoint.
Qed.

Lemma NoDup_found f i e :
  NoDup (oids f) -> lookup i f = Some e -> NoDup (oids (node_contents e)).
Proof.
  intros ND L.
  destruct (in_context_oids i f e ND L) as (pre & post & A & _).
  destruct (lookup_elem_shape _ _ _ L) as (nm & a & cs & ->).
  cbn [node_contents]. rewrite A, oids_single in ND.
  apply NoDup_occ. intros x. apply NoDup_occ with (x := x) in ND.
  revert ND. occ_norm. lia.
Qed.

(** the cells of a row that is found in [f], found in [f] themselves *)
Lemma found_below names f r R :
  NoDup (oids f) -> lookup r f = Some R ->
  Forall2 (fun c C => lookup c f = Some C)
    (find_all_oids names (node_contents R))
    (find_all names (node_contents R)).
Proof.
  intros ND L. unfold find_all_oids.
  pose proof (NoDup_found f r R ND L) as NDR.
  assert (H : forall C, In C (find_all names (node_contents R)) ->
                        lookup (node_oid C) f = Some C).
  { intros C HC. apply (lookup_inside (node_oid C) r f R C ND L).
    now apply found_lookup with (names := names). }
  induction (find_all names (node_contents R)) as [| C Cs IH];
    cbn [map]; constructor.
  - apply H. now left.
  - apply IH. intros C' HC'. apply H. now right.
Qed.

Lemma oids_clear_all_incl cs f y :
  In y (oids (clear_all cs f)) -> In y (oids f).
Proof.
  unfold clear_all. revert f. induction cs as [| c cs IH]; intros f H;
    [exact H |].
  cbn [fold_left] in H. apply IH in H. now apply oids_clear_incl in H.
Qed.

(** ** one row *)

(** the attributes of the elements that [convert_row] makes: [new_tag]
    splits the class it is given into its tokens *)
Definition content_section_class : attrs :=
  [("class", AList ["content-section"])].
Definition two_column_class : attrs := [("class", AList ["two-column-layout"])].
Definition grid_class : attrs := [("class", AList ["grid-layout"])].
Definition column_attrs (i : nat) : attrs :=
  [("class", AList ["column"; ("column-" ++ PyStr.of_nat (i + 1))%string])].
Definition grid_item_attrs : attrs := [("class", AList ["grid-item"])].
Definition cell_names : list string := ["td"; "th"].

(** the element that [convert_row] appends to the wrapper for the row
    [R], with the identities it takes from [n] on *)
Definition row_section (n : nat) (R : node) : node :=
  match find_all cell_names (node_contents R) with
  | [C] => Elem n "section" content_section_class (node_contents C)
  | [C1; C2] =>
      Elem n "div" two_column_class
        [Elem (1 + n) "div" (column_attrs 0) (node_contents C1);
         Elem (2 + n) "div" (column_attrs 1) (node_contents C2)]
  | Cs => Elem n "div" grid_class (cell_divs grid_item_attrs (1 + n) Cs)
  end.

(** the next unused identity after that *)
Definition row_fresh (n : nat) (R : node) : nat :=
  match find_all cell_names (node_contents R) with
  | [_] => 1 + n
  | Cs => 1 + List.length Cs + n
  end.

Lemma append_section w wa secs S n G d i nm a cs :
  S = Elem i nm a cs ->
  ~ In i (oids d) -> ~ In i (oids (G ++ [Elem w "div" wa secs])) ->
  ~ In w (oids d) -> ~ In w (oids G) ->
  append w i (mkSoup n d ((G ++ [Elem w "div" wa secs]) ++ [S]))
  = mkSoup n d (G ++ [Elem w "div" wa (secs ++ [S])]).
Proof.
  intros -> HiD HiG HwD HwG.
  rewrite (append_last_root w i nm a cs _ (G ++ [Elem w "div" wa secs]));
    auto.
  cbn [doc fresh]. f_equal.
  - now apply update_in_notin.
  - rewrite update_in_app, update_in_notin by assumption.
    now rewrite update_in_elem, Nat.eqb_refl, update_in_nil.
Qed.

Lemma convert_row_spec w wa secs r R sp G :
  wf sp -> detached sp = G ++ [Elem w "div" wa secs] ->
  lookup r (doc sp) = Some R ->
  Forall (fun C => find_all cell_names (node_contents C) = [])
    (find_all cell_names (node_contents R)) ->
  HTMLConverter.convert_row w r sp
  = mkSoup (row_fresh (fresh sp) R)
      (clear_all (find_all_oids cell_names (node_contents R)) (doc sp))
      (G ++ [Elem w "div" wa (secs ++ [row_section (fresh sp) R])]).
Proof.
  intros W Hd L Hflat.
  pose proof (NoDup_doc sp W) as NDd.
  pose proof (found_below cell_names (doc sp) r R NDd L) as Hlook.
  pose proof (found_family_nodup cell_names (node_contents R)
                (NoDup_found _ _ _ NDd L) Hflat) as Hfam.
  destruct (last_root_apart sp G w "div" wa secs W Hd)
    as ((HwD & HwG & Hws) & Hc & Hk).
  destruct (Hk (fresh sp) (Nat.le_refl _)) as (HnD & HnG & Hnw & Hns).
  assert (HnGW : ~ In (fresh sp) (oids (G ++ [Elem w "div" wa secs]))).
  { rewrite oids_app, oids_single. intros Hin. apply in_app_or in Hin.
    destruct Hin as [Hin | [Hin | Hin]]; auto. }
  unfold HTMLConverter.convert_row, tag_find_all, row_section, row_fresh.
  rewrite (lookup_doc_everything _ _ _ L). cbv zeta.
  fold cell_names. unfold find_all_oids in *.
  destruct (find_all cell_names (node_contents R)) as [| C1 [| C2 [| C3 Cs]]].
  - (* no cell: an empty grid *)
    cbn [map]. unfold new_tag. unfold for_each. cbn [fold_left].
    rewrite Hd. cbn [clear_all fold_left cell_divs List.length].
    change (replace_cdata_list_attribute_values "div"
              [("class", AStr "grid-layout")]) with grid_class.
    now apply (append_section w wa secs _ _ G _ (fresh sp) "div" grid_class []).
  - (* one cell: a section *)
    cbn [map]. inversion Hlook as [| ? ? ? ? L1 _]; subst.
    change (let (section, sp0) :=
              new_tag "section" [("class", AStr "content-section")] sp in
            append w section (extend section (node_oid C1) sp0))
      with (wrap_with "section" w [("class", AStr "content-section")]
              (node_oid C1) sp).
    now rewrite (wrap_with_spec "section" w "div" wa secs _ _ C1 sp G W Hd L1).
  - (* two cells: two columns *)
    cbn [map]. inversion Hlook as [| ? ? ? ? L1 Hl2]; subst.
    inversion Hl2 as [| ? ? ? ? L2 _]; subst.
    pose proof (wf_new_tag "div" [("class", AStr "two-column-layout")] sp W)
      as W1.
    unfold new_tag in *. cbn [snd] in W1. rewrite Hd in *.
    unfold PyStr.enumerate. cbn [List.length seq combine].
    unfold for_each. cbn [fold_left].
    change (replace_cdata_list_attribute_values "div"
              [("class", AStr "two-column-layout")]) with two_column_class in *.
    set (n := fresh sp) in *.
    set (GW := G ++ [Elem w "div" wa secs]) in *.
    set (sp1 := mkSoup (1 + n) (doc sp) (GW ++ [Elem n "div" two_column_class []]))
      in *.
    change (HTMLConverter.wrap_cell n (HTMLConverter.column_class 0)
              (node_oid C1) sp1)
      with (wrap_with "div" n (HTMLConverter.column_class 0)
              (node_oid C1) sp1).
    pose proof (wf_wrap_with "div" n (HTMLConverter.column_class 0)
                  (node_oid C1) sp1 W1) as W2.
    pose proof (wrap_with_spec "div" n "div" two_column_class []
                  (HTMLConverter.column_class 0) (node_oid C1) C1 sp1
                  GW W1 eq_refl L1) as E1.
    change (replace_cdata_list_attribute_values "div"
              (HTMLConverter.column_class 0)) with (column_attrs 0) in E1.
    rewrite E1 in *. subst sp1. cbn [doc fresh app] in *.
    set (col1 := Elem (1 + n) "div" (column_attrs 0) (node_contents C1)) in *.
    set (sp2 := mkSoup (1 + (1 + n)) (clear (node_oid C1) (doc sp))
                  (GW ++ [Elem n "div" two_column_class [col1]])) in *.
    assert (L2' : lookup (node_oid C2) (doc sp2) = Some C2).
    { pose proof (lookups_after_clear (node_oid C1) C1 [node_oid C2] [C2]
                    (doc sp) NDd L1) as H.
      assert (H2 : Forall2 (fun c' C' => lookup c' (doc sp) = Some C')
                     [node_oid C2] [C2]) by (constructor; auto).
      specialize (H H2 Hfam). now inversion H. }
    change (HTMLConverter.wrap_cell n (HTMLConverter.column_class 1)
              (node_oid C2) sp2)
      with (wrap_with "div" n (HTMLConverter.column_class 1)
              (node_oid C2) sp2).
    pose proof (wrap_with_spec "div" n "div" two_column_class [col1]
                  (HTMLConverter.column_class 1) (node_oid C2) C2 sp2
                  GW W2 eq_refl L2') as E2.
    change (replace_cdata_list_attribute_values "div"
              (HTMLConverter.column_class 1)) with (column_attrs 1) in E2.
    rewrite E2. subst sp2. cbn [doc fresh app clear_all fold_left List.length].
    subst GW.
    rewrite (append_section w wa secs _ _ G _ n "div"
               two_column_class
               [col1;
                Elem (1 + (1 + n)) "div" (column_attrs 1)
                  (node_contents C2)]); auto.
    + intros Hin. apply HnD. now apply (oids_clear_all_incl
                                          [node_oid C1; node_oid C2]) in Hin.
    + intros Hin. apply HwD. now apply (oids_clear_all_incl
                                          [node_oid C1; node_oid C2]) in Hin.
  - (* three cells or more: a grid *)
    set (Cs3 := C1 :: C2 :: C3 :: Cs) in *.
    cbn [map]. fold (map node_oid Cs). 
    change (node_oid C1 :: node_oid C2 :: node_oid C3 :: map node_oid Cs)
      with (map node_oid Cs3) in *.
    pose proof (wf_new_tag "div" [("class", AStr "grid-layout")] sp W) as W1.
    unfold new_tag in *. cbn [snd] in W1. rewrite Hd in *.
    change (replace_cdata_list_attribute_values "div"
              [("class", AStr "grid-layout")]) with grid_class in *.
    rewrite (wrap_cells_spec HTMLConverter.grid_item_class (map node_oid Cs3)
               Cs3 _ (G ++ [Elem w "div" wa secs]) (fresh sp) "div"
               grid_class [] W1 eq_refl Hlook Hfam).
    change (replace_cdata_list_attribute_values "div"
              HTMLConverter.grid_item_class) with grid_item_attrs.
    cbn [doc fresh app]. rewrite length_map.
    rewrite (append_section w wa secs _ _ G _ (fresh sp) "div" grid_class
               (cell_divs grid_item_attrs (1 + fresh sp) Cs3));
      auto.
    + subst Cs3. cbn [map]. f_equal. cbn [List.length]. lia.
    + intros Hin. apply HnD. now apply oids_clear_all_incl in Hin.
    + intros Hin. apply HwD. now apply oids_clear_all_incl in Hin.
Qed.

(** ** the rows of a table *)

Lemma NoDup_clear c f : NoDup (oids f) -> NoDup (oids (clear c f)).
Proof.
  intros ND. unfold clear. destruct (lookup c f) as [C |] eqn:L.
  - destruct (lookup_elem_shape _ _ _ L) as (nm & a & cs & ->).
    apply NoDup_occ. intros x.
    pose proof (occ_update c (fun a0 _ => (a0, [])) f nm a cs x ND L) as Hu.
    cbn [snd] in Hu. change (oids []) with (@nil nat) in Hu.
    rewrite occ_nil in Hu. apply NoDup_occ with (x := x) in ND. lia.
  - rewrite update_in_notin; [exact ND |]. now apply lookup_none_notin.
Qed.

Lemma clear_all_cons c cs f : clear_all (c :: cs) f = clear_all cs (clear c f).
Proof. reflexivity. Qed.

Lemma clear_all_app_list l1 l2 f :
  clear_all (l1 ++ l2) f = clear_all l2 (clear_all l1 f).
Proof. unfold clear_all. apply fold_left_app. Qed.

(** emptying a family of elements that lie apart leaves an element that
    lies apart from them all as it is *)
Lemma clear_family cells :
  forall Cs f x X,
    NoDup (oids f) ->
    Forall2 (fun c C => lookup c f = Some C) cells Cs ->
    NoDup (family_oids Cs) ->
    lookup x f = Some X ->
    (forall C y, In C Cs -> In y (oids [C]) -> ~ In y (oids [X])) ->
    lookup x (clear_all cells f) = Some X.
Proof.
  induction cells as [| c cells IH]; intros Cs f x X ND Hall Hfam Lx Hapart.
  - exact Lx.
  - inversion Hall as [| ? C ? Cs' Lc Hrest]; subst.
    rewrite clear_all_cons.
    assert (Hc : In c (oids [C])).
    { destruct (lookup_elem_shape _ _ _ Lc) as (nm & a & cs & ->).
      rewrite oids_single. now left. }
    assert (Hx : In x (oids [X])).
    { destruct (lookup_elem_shape _ _ _ Lx) as (nm & a & cs & ->).
      rewrite oids_single. now left. }
    apply (IH Cs').
    + now apply NoDup_clear.
    + now apply (lookups_after_clear c C).
    + rewrite family_oids_cons in Hfam. eapply NoDup_app_r; eauto.
    + apply lookup_clear_other; auto.
      * apply (Hapart C c); [now left | exact Hc].
      * intros C0 L0. rewrite Lc in L0. injection L0 as <-. intros Hin.
        apply (Hapart C x); [now left | | exact Hx].
        now apply contents_in_own_oids.
    + intros C' y HC'. apply Hapart. now right.
Qed.

(** the sections for the rows [Rs], numbered from [n] *)
Fixpoint row_sections (n : nat) (Rs : list node) : list node :=
  match Rs with
  | [] => []
  | R :: Rs' => row_section n R :: row_sections (row_fresh n R) Rs'
  end.

Fixpoint rows_fresh (n : nat) (Rs : list node) : nat :=
  match Rs with
  | [] => n
  | R :: Rs' => rows_fresh (row_fresh n R) Rs'
  end.

Definition cells_of_rows (Rs : list node) : list nat :=
  List.concat (map (fun R => find_all_oids cell_names (node_contents R)) Rs).

Definition flat_cells (R : node) : Prop :=
  Forall (fun C => find_all cell_names (node_contents C) = [])
    (find_all cell_names (node_contents R)).

Lemma found_inside names R C y :
  In C (find_all names (node_contents R)) -> In y (oids [C]) ->
  NoDup (oids (node_contents R)) -> In y (oids [R]).
Proof.
  intros HC Hy ND. apply contents_in_own_oids.
  apply (lookup_sub (node_oid C) (node_contents R) C y); [| exact Hy].
  now apply found_lookup with (names := names).
Qed.

Lemma convert_rows_spec w wa rows :
  forall Rs sp G secs,
    wf sp -> detached sp = G ++ [Elem w "div" wa secs] ->
    Forall2 (fun r R => lookup r (doc sp) = Some R) rows Rs ->
    NoDup (family_oids Rs) ->
    Forall flat_cells Rs ->
    for_each rows (HTMLConverter.convert_row w) sp
    = mkSoup (rows_fresh (fresh sp) Rs)
        (clear_all (cells_of_rows Rs) (doc sp))
        (G ++ [Elem w "div" wa (secs ++ row_sections (fresh sp) Rs)]).
Proof.
  induction rows as [| r rows IH]; intros Rs sp G secs W Hd Hall Hfam Hflat.
  - inversion Hall; subst. unfold for_each.
    cbn [fold_left rows_fresh row_sections cells_of_rows map List.concat clear_all].
    rewrite app_nil_r, <- Hd. now destruct sp.
  - inversion Hall as [| ? R ? Rs' Lr Hrest]; subst.
    inversion Hflat as [| ? ? HflatR Hflat']; subst.
    unfold for_each. cbn [fold_left].
    pose proof (wf_convert_row w r sp W) as W1.
    rewrite (convert_row_spec w wa secs r R sp G W Hd Lr HflatR) in *.
    fold (for_each rows (HTMLConverter.convert_row w)
            (mkSoup (row_fresh (fresh sp) R)
               (clear_all (find_all_oids cell_names (node_contents R)) (doc sp))
               (G ++ [Elem w "div" wa (secs ++ [row_section (fresh sp) R])]))).
    pose proof (NoDup_doc sp W) as NDd.
    pose proof (NoDup_found _ _ _ NDd Lr) as NDR.
    rewrite (IH Rs' _ G (secs ++ [row_section (fresh sp) R])).
    + cbn [fresh doc rows_fresh row_sections]. f_equal.
      * unfold cells_of_rows. cbn [map List.concat].
        now rewrite clear_all_app_list.
      * now rewrite <- app_assoc.
    + exact W1.
    + reflexivity.
    + cbn [doc].
      pose proof (found_below cell_names (doc sp) r R NDd Lr) as Hcells.
      pose proof (found_family_nodup cell_names (node_contents R) NDR HflatR)
        as Hcfam.
      assert (Hin : forall r' R', In R' Rs' -> lookup r' (doc sp) = Some R' ->
                lookup r' (clear_all (find_all_oids cell_names (node_contents R))
                             (doc sp)) = Some R').
      { intros r' R' HR' L'.
        apply (clear_family _ (find_all cell_names (node_contents R))); auto.
        intros C y HC Hy Hy'.
        assert (HyR : In y (oids [R])) by (eapply found_inside; eauto).
        exact (family_apart R Rs' y Hfam HyR R' HR' Hy'). }
      clear - Hrest Hin. induction Hrest as [| r' R' rows Rs' L' _ IH'];
        constructor.
      * apply Hin; [now left | exact L'].
      * apply IH'. intros r'' R'' HR''. apply Hin. now right.
    + rewrite family_oids_cons in Hfam. eapply NoDup_app_r; eauto.
    + exact Hflat'.
Qed.

(** ** one table *)

Definition modern_layout_class : attrs := [("class", AList ["modern-layout"])].
Definition row_names : list string := ["tr"].
Definition table_names : list string := ["table"].

(** the div that takes the place of the table [T], with the identities
    it takes from [n] on *)
Definition table_wrapper (n : nat) (T : node) : node :=
  Elem n "div" modern_layout_class
    (row_sections (1 + n) (find_all row_names (node_contents T))).

Definition table_fresh (n : nat) (T : node) : nat :=
  rows_fresh (1 + n) (find_all row_names (node_contents T)).

(** no row of [T] lies in another row, no cell in another cell *)
Definition flat_rows (T : node) : Prop :=
  Forall (fun R => find_all row_names (node_contents R) = [])
    (find_all row_names (node_contents T)) /\
  Forall flat_cells (find_all row_names (node_contents T)).

(** an update below the element [t], or of an element that is not
    there, does not show once [t] is replaced *)
Lemma splice_after_update t X c g f :
  ~ In c (oids (remove_oid t f)) ->
  splice_in t (fun _ => X) (update_in c g f) = splice_in t (fun _ => X) f.
Proof.
  induction f as [| s f IH | s f IH | j nm a cs f IHcs IHf] using forest_ind;
    intros Hc.
  - reflexivity.
  - rewrite update_in_text, !splice_in_text. f_equal. apply IH.
    unfold remove_oid in *. now rewrite splice_in_text, oids_text in Hc.
  - rewrite update_in_comment, !splice_in_comment. f_equal. apply IH.
    unfold remove_oid in *. now rewrite splice_in_comment, oids_comment in Hc.
  - rewrite remove_oid_elem in Hc. rewrite update_in_elem.
    destruct (Nat.eqb j t) eqn:Ejt.
    + cbn [app] in Hc. rewrite splice_in_elem, Ejt.
      destruct (Nat.eqb j c).
      * destruct (g a cs) as [a' cs'].
        rewrite splice_in_elem, Ejt. f_equal. now apply IHf.
      * rewrite splice_in_elem, Ejt. f_equal. now apply IHf.
    + rewrite oids_app, oids_single in Hc.
      assert (Hjc : j <> c) by (intros ->; apply Hc; now left).
      apply Nat.eqb_neq in Hjc. rewrite Hjc.
      rewrite !splice_in_elem, Ejt. f_equal.
      * do 2 f_equal. apply IHcs. intros H. apply Hc. right.
        apply in_or_app. now left.
      * apply IHf. intros H. apply Hc. right. apply in_or_app. now right.
Qed.

Lemma remove_after_update t c g f :
  ~ In c (oids (remove_oid t f)) ->
  remove_oid t (update_in c g f) = remove_oid t f.
Proof. intros H. unfold remove_oid. now apply splice_after_update. Qed.

Lemma lookup_after_update t c g f :
  forall T,
    lookup t f = Some T -> ~ In c (oids (remove_oid t f)) -> c <> t ->
    (forall a cs z, In z (oids (snd (g a cs))) -> In z (oids cs)) ->
    exists T', lookup t (update_in c g f) = Some T'.
Proof.
  induction f as [| s f IH | s f IH | j nm a cs f IHcs IHf] using forest_ind;
    intros T L Hc Hct Hg.
  - discriminate.
  - rewrite lookup_text in L. rewrite update_in_text, lookup_text.
    apply (IH T); auto.
  - rewrite lookup_comment in L. rewrite update_in_comment, lookup_comment.
    apply (IH T); auto.
  - rewrite remove_oid_elem in Hc. rewrite lookup_elem in L.
    rewrite update_in_elem.
    destruct (Nat.eqb j t) eqn:Ejt.
    + apply Nat.eqb_eq in Ejt. subst j.
      assert (Htc : Nat.eqb t c = false) by (apply Nat.eqb_neq; congruence).
      rewrite Htc, lookup_elem, Nat.eqb_refl. eauto.
    + rewrite oids_app, oids_single in Hc.
      assert (Hjc : j <> c) by (intros ->; apply Hc; now left).
      apply Nat.eqb_neq in Hjc. rewrite Hjc.
      rewrite lookup_elem, Ejt, lookup_app.
      rewrite lookup_app in L.
      destruct (lookup t cs) as [T0 |] eqn:Lc.
      * destruct (IHcs T0 eq_refl) as (T' & ->); eauto.
        intros H. apply Hc. right. apply in_or_app. now left.
      * assert (Hn : lookup t (update_in c g cs) = None).
        { apply lookup_notin. intros H.
          apply (oids_update_shrink_incl c g cs t Hg) in H.
          now apply (lookup_none_notin _ _ Lc). }
        rewrite Hn. apply (IHf T); auto.
        intros H. apply Hc. right. apply in_or_app. now right.
Qed.

(** what lies below [t] lies nowhere else *)
Lemma inside_not_outside t T c f :
  NoDup (oids f) -> lookup t f = Some T -> In c (oids (node_contents T)) ->
  ~ In c (oids (remove_oid t f)) /\ c <> t.
Proof.
  intros ND L Hc.
  destruct (lookup_elem_shape _ _ _ L) as (nm & a & cs & ->).
  cbn [node_contents] in Hc.
  assert (Hocc : forall x,
             occ (oids (remove_oid t f)) x + occ (oids [Elem t nm a cs]) x <= 1).
  { intros x. rewrite (occ_remove t f _ x ND L).
    now apply NoDup_occ with (x := x) in ND. }
  apply occ_in in Hc. split.
  - apply occ_zero_notin. specialize (Hocc c).
    rewrite oids_single, occ_cons in Hocc. lia.
  - intros ->. specialize (Hocc t).
    rewrite oids_single, occ_cons, occ_single_same in Hocc. lia.
Qed.

Lemma clear_all_under t X cells :
  forall f,
    (forall c, In c cells -> ~ In c (oids (remove_oid t f))) ->
    splice_in t (fun _ => X) (clear_all cells f) = splice_in t (fun _ => X) f.
Proof.
  induction cells as [| c cells IH]; intros f H.
  - reflexivity.
  - rewrite clear_all_cons, IH.
    + apply splice_after_update. apply H. now left.
    + intros c' Hc'. unfold clear. rewrite remove_after_update.
      * apply H. now right.
      * apply H. now left.
Qed.

Lemma clear_all_keeps t cells :
  forall f T,
    lookup t f = Some T ->
    (forall c, In c cells -> ~ In c (oids (remove_oid t f)) /\ c <> t) ->
    exists T', lookup t (clear_all cells f) = Some T'.
Proof.
  induction cells as [| c cells IH]; intros f T L H.
  - eauto.
  - rewrite clear_all_cons.
    destruct (H c (or_introl eq_refl)) as (Hc & Hct).
    destruct (lookup_after_update t c (fun a _ => (a, [])) f T L Hc Hct)
      as (T1 & L1).
    { intros a cs z Hz. destruct Hz. }
    apply (IH _ T1 L1). intros c' Hc'. unfold clear.
    rewrite remove_after_update by exact Hc. apply H. now right.
Qed.

(** the cells of the rows of [T] lie below [T] *)
Lemma cells_below_table T c :
  NoDup (oids (node_contents T)) ->
  In c (cells_of_rows (find_all row_names (node_contents T))) ->
  In c (oids (node_contents T)).
Proof.
  intros ND Hc. unfold cells_of_rows in Hc. apply in_concat in Hc.
  destruct Hc as (l & Hl & Hc). apply in_map_iff in Hl.
  destruct Hl as (R & <- & HR).
  apply find_all_oids_in in Hc.
  apply (lookup_sub (node_oid R) (node_contents T) R c).
  - now apply found_lookup with (names := row_names).
  - now apply contents_in_own_oids.
Qed.

Lemma row_fresh_le n R : n <= row_fresh n R.
Proof.
  unfold row_fresh.
  destruct (find_all cell_names (node_contents R)) as [| ? [| ? ?]];
    cbn [List.length]; lia.
Qed.

Lemma rows_fresh_le Rs : forall n, n <= rows_fresh n Rs.
Proof.
  induction Rs as [| R Rs IH]; intros n; cbn [rows_fresh]; [lia |].
  specialize (IH (row_fresh n R)). pose proof (row_fresh_le n R). lia.
Qed.

Lemma convert_table_layout t T sp :
  wf sp -> lookup t (doc sp) = Some T ->
  HTMLConverter.is_layout_table (node_attrs T) = true ->
  flat_rows T ->
  doc (HTMLConverter.convert_table t sp)
  = splice_in t (fun _ => [table_wrapper (fresh sp) T]) (doc sp) /\
  fresh (HTMLConverter.convert_table t sp) = table_fresh (fresh sp) T.
Proof.
  intros W L Hlay (Hrows & Hcells).
  pose proof (NoDup_doc sp W) as NDd.
  pose proof (NoDup_found _ _ _ NDd L) as NDT.
  unfold HTMLConverter.convert_table, attrs_of.
  rewrite (lookup_doc_everything _ _ _ L), Hlay.
  pose proof (wf_new_tag "div" [("class", AStr "modern-layout")] sp W) as W1.
  unfold new_tag in *. cbn [snd] in W1.
  change (replace_cdata_list_attribute_values "div"
            [("class", AStr "modern-layout")]) with modern_layout_class in *.
  set (sp1 := mkSoup (1 + fresh sp) (doc sp)
                (detached sp ++ [Elem (fresh sp) "div" modern_layout_class []]))
    in *.
  assert (Lt1 : soup_lookup t sp1 = Some T)
    by (apply lookup_doc_everything; exact L).
  unfold tag_find_all. rewrite Lt1.
  change ["tr"] with row_names.
  rewrite (convert_rows_spec (fresh sp) modern_layout_class
             (find_all_oids row_names (node_contents T))
             (find_all row_names (node_contents T)) sp1 (detached sp) []
             W1 eq_refl
             (found_below row_names (doc sp) t T NDd L)
             (found_family_nodup row_names (node_contents T) NDT Hrows)
             Hcells).
  cbn [app]. subst sp1. cbn [fresh doc].
  unfold table_wrapper, table_fresh.
  set (cells := cells_of_rows (find_all row_names (node_contents T))).
  destruct (fresh_facts sp (fresh sp) W (le_n _)) as (HwD & HwG).
  assert (HwC : ~ In (fresh sp) (oids (clear_all cells (doc sp)))).
  { intros H. apply HwD. eapply oids_clear_all_incl; eauto. }
  assert (Hin : forall c, In c cells ->
                  ~ In c (oids (remove_oid t (doc sp))) /\ c <> t).
  { intros c Hc. apply (inside_not_outside t T c (doc sp) NDd L).
    now apply cells_below_table. }
  destruct (clear_all_keeps t cells (doc sp) T L Hin) as (T' & LT').
  unfold replace_with, take, soup_lookup, everything. cbn [doc detached].
  rewrite !lookup_app, (lookup_notin _ _ HwC), (lookup_notin _ _ HwG).
  rewrite lookup_elem, Nat.eqb_refl.
  unfold on_trees. cbn [doc detached fresh].
  rewrite lookup_app.
  rewrite (splice_in_notin _ _ _ HwC), LT'.
  unfold add_detached. cbn [doc fresh]. split.
  - apply clear_all_under. intros c Hc. now apply Hin.
  - reflexivity.
Qed.

(** ** the identities in a wrapper *)

Lemma elements_sub f :
  forall C y, In C (elements_of f) -> In y (oids [C]) -> In y (oids f).
Proof.
  induction f as [| s f IH | s f IH | j nm a cs f IHcs IHf] using forest_ind;
    intros C y HC Hy.
  - destruct HC.
  - rewrite elements_of_text in HC. rewrite oids_text. eauto.
  - rewrite elements_of_comment in HC. rewrite oids_comment. eauto.
  - rewrite elements_of_elem in HC. rewrite oids_elem.
    destruct HC as [<- | HC].
    + rewrite oids_single in Hy. destruct Hy as [<- | Hy]; [now left |].
      right. apply in_or_app. now left.
    + right. apply in_or_app. apply in_app_or in HC.
      destruct HC as [HC | HC]; [left | right]; eauto.
Qed.

Lemma found_sub names f C y :
  In C (find_all names f) -> In y (oids [C]) -> In y (oids f).
Proof.
  intros HC. apply elements_sub. now apply find_all_in_elements in HC.
Qed.

Lemma oids_cell_divs at_ Cs :
  forall n y,
    In y (oids (cell_divs at_ n Cs)) ->
    n <= y \/ exists C, In C Cs /\ In y (oids (node_contents C)).
Proof.
  induction Cs as [| C Cs IH]; intros n y Hy.
  - destruct Hy.
  - cbn [cell_divs] in Hy. rewrite oids_elem in Hy.
    destruct Hy as [<- | Hy]; [left; lia |].
    apply in_app_or in Hy. destruct Hy as [Hy | Hy].
    + right. exists C. split; [now left | exact Hy].
    + destruct (IH _ _ Hy) as [Hle | (C' & HC' & Hy')]; [left; lia |].
      right. exists C'. split; [now right | exact Hy'].
Qed.

Lemma oids_row_section n R y :
  In y (oids [row_section n R]) -> n <= y \/ In y (oids (node_contents R)).
Proof.
  assert (Hsub : forall C, In C (find_all cell_names (node_contents R)) ->
                   In y (oids (node_contents C)) ->
                   In y (oids (node_contents R))).
  { intros C HC Hy. apply (found_sub cell_names _ C y HC).
    now apply contents_in_own_oids. }
  unfold row_section.
  destruct (find_all cell_names (node_contents R))
    as [| C1 [| C2 [| C3 Cs]]] eqn:E; rewrite oids_single; intros [<- | Hy];
    try (left; lia).
  - destruct Hy.
  - right. apply (Hsub C1); [now left | exact Hy].
  - rewrite oids_elem, oids_single in Hy. destruct Hy as [<- | Hy]; [left; lia |].
    apply in_app_or in Hy. destruct Hy as [Hy | [<- | Hy]]; [| left; lia |].
    + right. apply (Hsub C1); [now left | exact Hy].
    + right. apply (Hsub C2); [right; now left | exact Hy].
  - destruct (oids_cell_divs _ _ _ _ Hy) as [Hle | (C & HC & Hy')];
      [left; lia |].
    right. now apply (Hsub C).
Qed.

Lemma oids_row_sections Rs :
  forall n y,
    In y (oids (row_sections n Rs)) ->
    n <= y \/ exists R, In R Rs /\ In y (oids (node_contents R)).
Proof.
  induction Rs as [| R Rs IH]; intros n y Hy.
  - destruct Hy.
  - cbn [row_sections] in Hy. rewrite oids_cons_app in Hy.
    apply in_app_or in Hy. destruct Hy as [Hy | Hy].
    + destruct (oids_row_section _ _ _ Hy) as [Hle | Hy']; [now left |].
      right. exists R. split; [now left | exact Hy'].
    + destruct (IH _ _ Hy) as [Hle | (R' & HR' & Hy')].
      * left. pose proof (row_fresh_le n R). lia.
      * right. exists R'. split; [now right | exact Hy'].
Qed.

(** a wrapper holds new identities and identities from below its table *)
Lemma oids_table_wrapper n T y :
  In y (oids [table_wrapper n T]) ->
  n <= y \/ In y (oids (node_contents T)).
Proof.
  unfold table_wrapper. rewrite oids_single. intros [<- | Hy]; [left; lia |].
  destruct (oids_row_sections _ _ _ Hy) as [Hle | (R & HR & Hy')];
    [left; lia |].
  right. apply (found_sub row_names _ R y HR).
  now apply contents_in_own_oids.
Qed.

(** ** an element apart from the replaced one *)

Lemma oids_splice_incl t N f y :
  In y (oids (splice_in t (fun _ => N) f)) -> In y (oids f) \/ In y (oids N).
Proof.
  induction f as [| s f IH | s f IH | j nm a cs f IHcs IHf] using forest_ind;
    intros Hy.
  - destruct Hy.
  - rewrite splice_in_text, oids_text in Hy. rewrite oids_text. auto.
  - rewrite splice_in_comment, oids_comment in Hy. rewrite oids_comment. auto.
  - rewrite splice_in_elem, oids_app in Hy. rewrite oids_elem.
    apply in_app_or in Hy. destruct Hy as [Hy | Hy].
    + destruct (Nat.eqb j t).
      * now right.
      * rewrite oids_single in Hy. destruct Hy as [<- | Hy];
          [left; now left |].
        destruct (IHcs Hy) as [H | H]; [| now right].
        left. right. apply in_or_app. now left.
    + destruct (IHf Hy) as [H | H]; [| now right].
      left. right. apply in_or_app. now right.
Qed.

Lemma lookup_splice_other t N x f :
  forall X,
    NoDup (oids f) -> lookup x f = Some X ->
    ~ In x (oids N) -> ~ In t (oids [X]) ->
    (forall T, lookup t f = Some T -> ~ In x (oids [T])) ->
    lookup x (splice_in t (fun _ => N) f) = Some X.
Proof.
  induction f as [| s f IH | s f IH | j nm a cs f IHcs IHf] using forest_ind;
    intros X ND Lx HxN HtX HxT.
  - discriminate.
  - rewrite splice_in_text, lookup_text in *. auto.
  - rewrite splice_in_comment, lookup_comment in *. auto.
  - destruct (NoDup_oids_elem ND) as (Hjc & Hjf & NDc & NDf & Hdisj).
    rewrite splice_in_elem. rewrite lookup_elem in Lx.
    destruct (Nat.eqb_spec j x) as [-> | Hjx].
    + injection Lx as <-. rewrite oids_single in HtX.
      assert (Hxt : Nat.eqb x t = false).
      { apply Nat.eqb_neq. intros ->. apply HtX. now left. }
      rewrite Hxt. cbn [app]. rewrite splice_in_notin.
      * now rewrite lookup_elem, Nat.eqb_refl.
      * intros H. apply HtX. now right.
    + rewrite lookup_app in Lx.
      destruct (Nat.eqb_spec j t) as [-> | Hjt].
      * assert (HxE : ~ In x (oids [Elem t nm a cs])).
        { apply HxT. now rewrite lookup_elem, Nat.eqb_refl. }
        rewrite oids_single in HxE.
        rewrite (lookup_notin x cs) in Lx
          by (intros H; apply HxE; now right).
        rewrite lookup_app, (lookup_notin x N HxN).
        now rewrite splice_in_notin.
      * cbn [app]. rewrite lookup_elem.
        apply Nat.eqb_neq in Hjx. rewrite Hjx. rewrite lookup_app.
        assert (HT : forall T, lookup t (cs ++ f) = Some T ->
                       ~ In x (oids [T])).
        { intros T LT. apply HxT. rewrite lookup_elem.
          apply Nat.eqb_neq in Hjt. now rewrite Hjt. }
        destruct (lookup x cs) as [X0 |] eqn:Exc.
        -- injection Lx as ->. rewrite (IHcs X); auto.
           intros T LT. apply HT. now rewrite lookup_app, LT.
        -- assert (Hn : lookup x (splice_in t (fun _ => N) cs) = None).
           { apply lookup_notin. intros H.
             destruct (oids_splice_incl _ _ _ _ H) as [H' | H'];
               [| now apply HxN].
             now apply (lookup_none_notin _ _ Exc). }
           rewrite Hn. apply IHf; auto.
           intros T LT. apply HT. rewrite lookup_app.
           rewrite (lookup_notin t cs); [exact LT |].
           intros H. apply (Hdisj t H). eapply lookup_in_oids; eauto.
Qed.

(** ** the loop over the tables *)

(** the document once the table [T] is handled; [base] gives the first
    new identity of the wrapper of each table *)
Definition replaced (base : nat -> nat) (T : node) (d : list node)
    : list node :=
  if HTMLConverter.is_layout_table (node_attrs T)
  then splice_in (node_oid T)
         (fun _ => [table_wrapper (base (node_oid T)) T]) d
  else d.

Definition all_replaced (base : nat -> nat) (Ts : list node) (d : list node)
    : list node :=
  fold_left (fun d T => replaced base T d) Ts d.

Lemma all_replaced_ext base base' Ts :
  forall d,
    (forall T, In T Ts -> base (node_oid T) = base' (node_oid T)) ->
    all_replaced base Ts d = all_replaced base' Ts d.
Proof.
  induction Ts as [| T Ts IH]; intros d H.
  - reflexivity.
  - unfold all_replaced. cbn [fold_left].
    fold (all_replaced base Ts (replaced base T d)).
    fold (all_replaced base' Ts (replaced base' T d)).
    assert (E : replaced base T d = replaced base' T d).
    { unfold replaced. now rewrite (H T (or_introl eq_refl)). }
    rewrite E. apply IH. intros T' HT'. apply H. now right.
Qed.

Lemma convert_table_plain t T sp :
  lookup t (doc sp) = Some T ->
  HTMLConverter.is_layout_table (node_attrs T) = false ->
  HTMLConverter.convert_table t sp = sp.
Proof.
  intros L Hlay. unfold HTMLConverter.convert_table, attrs_of.
  now rewrite (lookup_doc_everything _ _ _ L), Hlay.
Qed.

Lemma lookup_root T i f :
  lookup i f = Some T -> node_oid T = i.
Proof.
  intros L. now destruct (lookup_elem_shape _ _ _ L) as (nm & a & cs & ->).
Qed.

Lemma convert_tables_loop Ts :
  forall sp,
    wf sp ->
    Forall (fun T => lookup (node_oid T) (doc sp) = Some T) Ts ->
    NoDup (family_oids Ts) ->
    Forall (fun T => HTMLConverter.is_layout_table (node_attrs T) = true ->
                     flat_rows T) Ts ->
    exists base,
      (forall i, fresh sp <= base i) /\
      doc (for_each (map node_oid Ts) HTMLConverter.convert_table sp)
      = all_replaced base Ts (doc sp).
Proof.
  induction Ts as [| T Ts IH]; intros sp W Hall Hfam Hflat.
  - exists (fun _ => fresh sp). split; [intros; lia | reflexivity].
  - inversion Hall as [| ? ? LT Hall']; subst.
    inversion Hflat as [| ? ? HflatT Hflat']; subst.
    set (t := node_oid T) in *.
    pose proof (wf_convert_table t sp W) as W1.
    pose proof (NoDup_doc sp W) as NDd.
    assert (Hfam' : NoDup (family_oids Ts)).
    { rewrite family_oids_cons in Hfam. eapply NoDup_app_r; eauto. }
    assert (HtT : In t (oids [T])).
    { destruct (lookup_elem_shape _ _ _ LT) as (nm & a & cs & E).
      rewrite E. rewrite oids_single. now left. }
    assert (Hroot : forall T', In T' Ts -> In (node_oid T') (oids [T'])).
    { intros T' HT'. rewrite Forall_forall in Hall'.
      destruct (lookup_elem_shape _ _ _ (Hall' T' HT')) as (nm & a & cs & E).
      rewrite E at 2. rewrite oids_single. now left. }
    assert (Hother : forall T', In T' Ts -> node_oid T' <> t).
    { intros T' HT' E.
      apply (family_apart T Ts t Hfam HtT T' HT'). rewrite <- E. auto. }
    change (for_each (map node_oid (T :: Ts)) HTMLConverter.convert_table sp)
      with (for_each (map node_oid Ts) HTMLConverter.convert_table
              (HTMLConverter.convert_table t sp)).
    change (all_replaced ?b (T :: Ts) ?d)
      with (all_replaced b Ts (replaced b T d)).
    destruct (HTMLConverter.is_layout_table (node_attrs T)) eqn:Hlay.
    + destruct (convert_table_layout t T sp W LT Hlay (HflatT eq_refl))
        as (Hdoc & Hfresh).
      assert (Hall1 : Forall (fun T' => lookup (node_oid T')
                                (doc (HTMLConverter.convert_table t sp))
                              = Some T') Ts).
      { rewrite Forall_forall in *. intros T' HT'. rewrite Hdoc.
        pose proof (Hall' T' HT') as L'.
        apply lookup_splice_other; auto.
        - intros Hin.
          destruct (oids_table_wrapper _ _ _ Hin) as [Hle | Hin'].
          + destruct W as (_ & Hlt). rewrite Forall_forall in Hlt.
            assert (node_oid T' < fresh sp).
            { apply Hlt. unfold everything. rewrite oids_app.
              apply in_or_app. left. eapply lookup_in_oids; eauto. }
            lia.
          + apply (family_apart T Ts (node_oid T') Hfam
                     (contents_in_own_oids T _ Hin') T' HT'). auto.
        - now apply (family_apart T Ts t Hfam HtT T' HT').
        - intros T0 L0. fold t in L0. rewrite LT in L0. injection L0 as <-.
          intros Hin.
          apply (family_apart T Ts (node_oid T') Hfam Hin T' HT'). auto. }
      destruct (IH _ W1 Hall1 Hfam' Hflat') as (base' & Hb & Hd).
      exists (fun i => if Nat.eqb i t then fresh sp else base' i). split.
      * intros i. destruct (Nat.eqb i t); [lia |].
        specialize (Hb i). rewrite Hfresh in Hb.
        pose proof (rows_fresh_le (find_all row_names (node_contents T))
                      (1 + fresh sp)).
        unfold table_fresh in Hb. lia.
      * rewrite Hd, Hdoc. unfold replaced. rewrite Hlay. cbv beta. fold t.
        rewrite Nat.eqb_refl.
        apply all_replaced_ext. intros T' HT'.
        apply Hother in HT'. apply Nat.eqb_neq in HT'. now rewrite HT'.
    + rewrite (convert_table_plain t T sp LT Hlay) in *.
      destruct (IH _ W Hall' Hfam' Hflat') as (base' & Hb & Hd).
      exists base'. split; [exact Hb |].
      rewrite Hd. unfold replaced. now rewrite Hlay.
Qed.

(** ** the document after the pass *)

(** A tree in which every layout table has given way to its wrapper;
    [base] gives the first new identity of the wrapper of each table.
    A table that is not a layout table stays as it is. *)
Fixpoint tables_converted (base : nat -> nat) (x : node) : node :=
  match x with
  | Elem i nm a cs =>
      if PyStr.mem nm table_names then
        if HTMLConverter.is_layout_table a
        then table_wrapper (base i) x
        else x
      else Elem i nm a (map (tables_converted base) cs)
  | _ => x
  end.

(** a table that holds no other table and, if it is a layout table, no
    row in a row and no cell in a cell *)
Definition simple_table (T : node) : Prop :=
  find_all table_names (node_contents T) = [] /\
  (HTMLConverter.is_layout_table (node_attrs T) = true -> flat_rows T).

Lemma all_replaced_cons base T Ts d :
  all_replaced base (T :: Ts) d = all_replaced base Ts (replaced base T d).
Proof. reflexivity. Qed.

Lemma all_replaced_app_list base L1 L2 d :
  all_replaced base (L1 ++ L2) d
  = all_replaced base L2 (all_replaced base L1 d).
Proof. unfold all_replaced. apply fold_left_app. Qed.

Lemma replaced_app base T d1 d2 :
  replaced base T (d1 ++ d2) = replaced base T d1 ++ replaced base T d2.
Proof.
  unfold replaced. destruct (HTMLConverter.is_layout_table (node_attrs T));
    [apply splice_in_app | reflexivity].
Qed.

Lemma all_replaced_app base Ts :
  forall d1 d2,
    all_replaced base Ts (d1 ++ d2)
    = all_replaced base Ts d1 ++ all_replaced base Ts d2.
Proof.
  induction Ts as [| T Ts IH]; intros d1 d2.
  - reflexivity.
  - now rewrite !all_replaced_cons, replaced_app, IH.
Qed.

Lemma all_replaced_notin base Ts :
  forall d,
    (forall T, In T Ts -> ~ In (node_oid T) (oids d)) ->
    all_replaced base Ts d = d.
Proof.
  induction Ts as [| T Ts IH]; intros d H.
  - reflexivity.
  - rewrite all_replaced_cons.
    assert (E : replaced base T d = d).
    { unfold replaced.
      destruct (HTMLConverter.is_layout_table (node_attrs T));
        [| reflexivity].
      apply splice_in_notin. apply H. now left. }
    rewrite E. apply IH. intros T' HT'. apply H. now right.
Qed.

Lemma all_replaced_root base Ts j nm a :
  forall cs,
    ~ In j (map node_oid Ts) ->
    all_replaced base Ts [Elem j nm a cs]
    = [Elem j nm a (all_replaced base Ts cs)].
Proof.
  induction Ts as [| T Ts IH]; intros cs H.
  - reflexivity.
  - rewrite !all_replaced_cons.
    assert (Hj : Nat.eqb j (node_oid T) = false).
    { apply Nat.eqb_neq. intros E. apply H. left. now rewrite E. }
    assert (E : replaced base T [Elem j nm a cs]
                = [Elem j nm a (replaced base T cs)]).
    { unfold replaced.
      destruct (HTMLConverter.is_layout_table (node_attrs T));
        [| reflexivity].
      now rewrite splice_in_elem, Hj. }
    rewrite E. apply IH. intros Hin. apply H. now right.
Qed.

(** the converted trees hold identities of the document and new ones *)
Lemma oids_converted base N f :
  (forall i, N <= base i) ->
  forall y,
    In y (oids (map (tables_converted base) f)) -> In y (oids f) \/ N <= y.
Proof.
  intros Hb.
  induction f as [| s f IH | s f IH | j nm a cs f IHcs IHf] using forest_ind;
    intros y Hy.
  - destruct Hy.
  - cbn [map tables_converted] in Hy. rewrite oids_text in *. auto.
  - cbn [map tables_converted] in Hy. rewrite oids_comment in *. auto.
  - cbn [map] in Hy. rewrite oids_cons_app in Hy. rewrite oids_elem.
    apply in_app_or in Hy. destruct Hy as [Hy | Hy].
    + cbn [tables_converted] in Hy.
      destruct (PyStr.mem nm table_names).
      * destruct (HTMLConverter.is_layout_table a).
        -- destruct (oids_table_wrapper _ _ _ Hy) as [Hle | Hin].
           ++ right. specialize (Hb j). lia.
           ++ left. right. apply in_or_app. now left.
        -- rewrite oids_single in Hy. destruct Hy as [<- | Hy];
             [left; now left |].
           left. right. apply in_or_app. now left.
      * rewrite oids_single in Hy. destruct Hy as [<- | Hy];
          [left; now left |].
        destruct (IHcs _ Hy) as [H | H]; [| now right].
        left. right. apply in_or_app. now left.
    + destruct (IHf _ Hy) as [H | H]; [| now right].
      left. right. apply in_or_app. now right.
Qed.

Lemma found_oid_in names f T :
  In T (find_all names f) -> In (node_oid T) (oids f).
Proof.
  intros H. apply (find_all_oids_in names). unfold find_all_oids.
  now apply in_map.
Qed.

Lemma all_replaced_is_converted base N f :
  (forall i, N <= base i) ->
  NoDup (oids f) ->
  (forall y, In y (oids f) -> y < N) ->
  Forall (fun T => find_all table_names (node_contents T) = [])
    (find_all table_names f) ->
  all_replaced base (find_all table_names f) f
  = map (tables_converted base) f.
Proof.
  intros Hb.
  induction f as [| s f IH | s f IH | j nm a cs f IHcs IHf] using forest_ind;
    intros ND Hlt Hnest.
  - reflexivity.
  - change (find_all table_names (Text s :: f))
      with (find_all table_names f) in *.
    change (Text s :: f) with ([Text s] ++ f) at 1.
    rewrite all_replaced_app, all_replaced_notin by (intros T _ []).
    rewrite oids_text in *. now rewrite IH.
  - change (find_all table_names (Comment s :: f))
      with (find_all table_names f) in *.
    change (Comment s :: f) with ([Comment s] ++ f) at 1.
    rewrite all_replaced_app, all_replaced_notin by (intros T _ []).
    rewrite oids_comment in *. now rewrite IH.
  - destruct (NoDup_oids_elem ND) as (Hjc & Hjf & NDc & NDf & Hdisj).
    assert (Hltc : forall y, In y (oids cs) -> y < N).
    { intros y Hy. apply Hlt. rewrite oids_elem. right.
      apply in_or_app. now left. }
    assert (Hltf : forall y, In y (oids f) -> y < N).
    { intros y Hy. apply Hlt. rewrite oids_elem. right.
      apply in_or_app. now right. }
    rewrite find_all_elem in *. cbn [map tables_converted].
    destruct (PyStr.mem nm table_names) eqn:Hmem.
    + (* a table: nothing below it is a table *)
      apply Forall_app in Hnest. destruct Hnest as (Hhead & Hnest).
      inversion Hhead as [| ? ? Hcs _]; subst. cbn [node_contents] in Hcs.
      rewrite Hcs in *. cbn [app] in *.
      rewrite all_replaced_cons.
      assert (E : replaced base (Elem j nm a cs) (Elem j nm a cs :: f)
                  = [tables_converted base (Elem j nm a cs)] ++ f).
      { unfold replaced. cbn [node_attrs node_oid tables_converted].
        rewrite Hmem.
        destruct (HTMLConverter.is_layout_table a); [| reflexivity].
        rewrite splice_in_elem, Nat.eqb_refl.
        now rewrite splice_in_notin by exact Hjf. }
      rewrite E, all_replaced_app, IHf by assumption.
      rewrite all_replaced_notin.
      * cbn [tables_converted]. now rewrite Hmem.
      * intros T HT Hin. apply found_oid_in in HT.
        change [tables_converted base (Elem j nm a cs)]
          with (map (tables_converted base) [Elem j nm a cs]) in Hin.
        destruct (oids_converted base N _ Hb _ Hin) as [H | H].
        -- rewrite oids_single in H. destruct H as [E' | H];
             [rewrite <- E' in HT; now apply Hjf | now apply (Hdisj _ H)].
        -- apply Hltf in HT. lia.
    + (* another element: the tables below it, then the later ones *)
      cbn [app] in *.
      apply Forall_app in Hnest. destruct Hnest as (Hnc & Hnf).
      rewrite all_replaced_app_list.
      change (Elem j nm a cs :: f) with ([Elem j nm a cs] ++ f).
      rewrite all_replaced_app.
      rewrite all_replaced_root.
      2:{ intros Hin. apply Hjc.
          apply (find_all_oids_in table_names). exact Hin. }
      rewrite (all_replaced_notin base (find_all table_names cs) f).
      2:{ intros T HT Hin. apply found_oid_in in HT.
          now apply (Hdisj _ HT). }
      rewrite IHcs by assumption.
      rewrite all_replaced_app, IHf by assumption.
      rewrite all_replaced_notin; [reflexivity |].
      intros T HT Hin. apply found_oid_in in HT.
      rewrite oids_single in Hin. destruct Hin as [E' | Hin];
        [rewrite <- E' in HT; now apply Hjf |].
      destruct (oids_converted base N _ Hb _ Hin) as [H | H].
      * now apply (Hdisj _ H).
      * apply Hltf in HT. lia.
Qed.

Lemma found_all_lookup names f :
  NoDup (oids f) ->
  Forall (fun T => lookup (node_oid T) f = Some T) (find_all names f).
Proof.
  intros ND. apply Forall_forall. intros T HT.
  now apply found_lookup with (names := names).
Qed.

(** In a document whose tables hold no other table, and whose layout
    tables hold no row inside a row and no cell inside a cell,
    [_convert_tables] puts in the place of every layout table -- a table
    whose width is "100%", or whose cellpadding or cellspacing is a
    non-empty string, or that has a bgcolor attribute -- a div of class
    modern-layout that holds, for the rows of the table in document
    order: a section with the children of the cell for a row of one
    cell, a two-column div with a column-1 and a column-2 div for a row
    of two cells, and a grid div with one grid-item div per cell for a
    row of any other number of cells (none included), the cells in
    their order.  Every other table, and the rest of the document, stays
    as it is.  The new elements take identities that were not in use. *)
Theorem layout_tables_become_divs_of_row_sections :
  forall sp : soup,
    wf sp ->
    Forall simple_table (find_all table_names (doc sp)) ->
    exists base,
      (forall i, fresh sp <= base i) /\
      doc (HTMLConverter._convert_tables sp)
      = map (tables_converted base) (doc sp).
Proof.
  intros sp W Hsimple.
  pose proof (NoDup_doc sp W) as NDd.
  assert (Hnest : Forall (fun T => find_all table_names (node_contents T) = [])
                    (find_all table_names (doc sp))).
  { eapply Forall_impl; [| exact Hsimple]. now intros T (H & _). }
  assert (Hflat : Forall (fun T => HTMLConverter.is_layout_table (node_attrs T)
                                   = true -> flat_rows T)
                    (find_all table_names (doc sp))).
  { eapply Forall_impl; [| exact Hsimple]. now intros T (_ & H). }
  destruct (convert_tables_loop (find_all table_names (doc sp)) sp W
              (found_all_lookup table_names (doc sp) NDd)
              (found_family_nodup table_names (doc sp) NDd Hnest) Hflat)
    as (base & Hb & Hd).
  exists base. split; [exact Hb |].
  unfold HTMLConverter._convert_tables, soup_find_all. cbv zeta.
  change ["table"] with table_names. unfold find_all_oids. rewrite Hd.
  apply (all_replaced_is_converted base (fresh sp)); auto.
  intros y Hy. destruct W as (_ & Hlt). rewrite Forall_forall in Hlt.
  apply Hlt. unfold everything. rewrite oids_app. apply in_or_app. now left.
Qed.

(** a layout table with rows of one, two and three cells, and a table
    that is not a layout table *)
Definition page_with_tables : soup :=
  mkSoup 14
    [Elem 0 "table" [("cellpadding", AStr "4")]
       [Elem 1 "tr" [] [Elem 2 "td" [] [Text "A"]];
        Elem 3 "tr" []
          [Elem 4 "td" [] [Text "B"]; Elem 5 "th" [] [Text "C"]];
        Elem 6 "tr" []
          [Elem 7 "td" [] [Text "D"]; Elem 8 "td" [] [Text "E"];
           Elem 9 "td" [] [Text "F"]]];
     Elem 10 "table" [("border", AStr "1")]
       [Elem 11 "tr" [] [Elem 12 "td" [] [Elem 13 "b" [] [Text "G"]]]]]
    [].

Lemma page_with_tables_simple :
  Forall simple_table (find_all table_names (doc page_with_tables)).
Proof.
  vm_compute. repeat constructor.
Qed.

Lemma layout_tables_witness :
  exists base,
    (forall i, 14 <= base i) /\
    doc (HTMLConverter._convert_tables page_with_tables)
    = map (tables_converted base) (doc page_with_tables).
Proof.
  apply (layout_tables_become_divs_of_row_sections page_with_tables).
  - split; [solve_nodup | vm_compute; repeat constructor].
  - vm_compute. repeat constructor.
Defined.

Example page_with_tables_converted :
  doc (HTMLConverter._convert_tables page_with_tables)
  = [Elem 14 "div" [("class", AList ["modern-layout"])]
       [Elem 15 "section" [("class", AList ["content-section"])] [Text "A"];
        Elem 16 "div" [("class", AList ["two-column-layout"])]
          [Elem 17 "div" [("class", AList ["column"; "column-1"])] [Text "B"];
           Elem 18 "div" [("class", AList ["column"; "column-2"])] [Text "C"]];
        Elem 19 "div" [("class", AList ["grid-layout"])]
          [Elem 20 "div" [("class", AList ["grid-item"])] [Text "D"];
           Elem 21 "div" [("class", AList ["grid-item"])] [Text "E"];
           Elem 22 "div" [("class", AList ["grid-item"])] [Text "F"]]];
     Elem 10 "table" [("border", AStr "1")]
       [Elem 11 "tr" [] [Elem 12 "td" [] [Elem 13 "b" [] [Text "G"]]]]].
Proof. vm_compute. reflexivity. Qed.

(** the test for a layout table in the words of the claim: the width is
    "100%", or one of the three other attributes is there *)
Definition has_layout_attribute_as_claimed (a : attrs) : bool :=
  attr_is "width" "100%" a
  || attr_has "cellpadding" a
  || attr_has "cellspacing" a
  || attr_has "bgcolor" a.

(** a table with an empty cellpadding attribute *)
Definition table_with_empty_cellpadding : soup :=
  mkSoup 3
    [Elem 0 "table" [("cellpadding", AStr "")]
       [Elem 1 "tr" [] [Elem 2 "td" [] [Text "x"]]]]
    [].

(** a table with an empty bgcolor attribute *)
Definition table_with_empty_bgcolor : soup :=
  mkSoup 3
    [Elem 0 "table" [("bgcolor", AStr "")]
       [Elem 1 "tr" [] [Elem 2 "td" [] [Text "x"]]]]
    [].

Lemma empty_cellpadding_table_stays :
  HTMLConverter._convert_tables table_with_empty_cellpadding
  = table_with_empty_cellpadding.
Proof. vm_compute. reflexivity. Qed.

(** C2 at a table whose cellpadding attribute is empty: the table has a
    cellpadding attribute, and [_convert_tables] leaves it as it is,
    also when it comes through the whole conversion, where it ends as a
    table in the body; the test reads the value of cellpadding and of
    cellspacing for truth.  A table whose bgcolor attribute is empty is
    replaced: that test is for the presence of the attribute. *)
Theorem C2_table_with_empty_cellpadding_stays_a_table :
  has_layout_attribute_as_claimed [("cellpadding", AStr "")] = true /\
  doc (HTMLConverter._convert_tables table_with_empty_cellpadding)
  = doc table_with_empty_cellpadding /\
  map head_of
    (find_all ["table"]
       (doc (HTMLConverter.convert_soup table_with_empty_cellpadding)))
  = [(0, "table", [("cellpadding", AStr "")])] /\
  doc (HTMLConverter._convert_tables table_with_empty_bgcolor)
  = [Elem 3 "div" [("class", AList ["modern-layout"])]
       [Elem 4 "section" [("class", AList ["content-section"])] [Text "x"]]].
Proof.
  split; [reflexivity | split; [| split]].
  - now rewrite empty_cellpadding_table_stays.
  - vm_compute. reflexivity.
  - vm_compute. reflexivity.
Qed.

(** The hypothesis on nested tables is needed: the rows and cells of a
    layout table are found at any depth, so the cell of a table that
    lies in a cell of a layout table counts as a second cell of the
    outer row and as the cell of a row of its own, and its text moves
    out of the inner table.  ([_convert_to_html5] has made every table a
    child of the body before, so that [convert_file] does not get
    there.) *)
Definition inner_table : node :=
  Elem 3 "table" [] [Elem 4 "tr" [] [Elem 5 "td" [] [Text "x"]]].

Definition nested_tables : soup :=
  mkSoup 6
    [Elem 0 "table" [("width", AStr "100%")]
       [Elem 1 "tr" [] [Elem 2 "td" [] [inner_table]]]]
    [].

Example nested_tables_converted :
  doc (HTMLConverter._convert_tables nested_tables)
  = [Elem 6 "div" [("class", AList ["modern-layout"])]
       [Elem 7 "div" [("class", AList ["two-column-layout"])]
          [Elem 8 "div" [("class", AList ["column"; "column-1"])]
             [Elem 3 "table" [] [Elem 4 "tr" [] [Elem 5 "td" [] []]]];
           Elem 9 "div" [("class", AList ["column"; "column-2"])] [Text "x"]];
        Elem 10 "section" [("class", AList ["content-section"])] []]].
Proof. vm_compute. reflexivity. Qed.

(* ================================================================== *)
(** * Further properties: the batch runs *)
(* ================================================================== *)

(** how many members of [l] pass the test [p] *)
Definition count_if {A} (p : A -> bool) (l : list A) : nat :=
  List.length (filter p l).



(** the record that [_index_file] makes for the file [f], when reading,
    parsing and [stat] all answer *)
Definition indexed {time} (w : world time) (h : SearchIndexBuilder.set_order)
    (f : string) : option (SearchIndexBuilder.page_data time) :=
  match read_text w f with
  | inr content =>
      match parse w content with
      | inr sp =>
          match st_mtime w f with
          | inr mtime => Some (SearchIndexBuilder.page_of h sp f mtime)
          | inl _ => None
          end
      | inl _ => None
      end
  | inl _ => None
  end.

Definition record_list {time} (w : world time)
    (h : SearchIndexBuilder.set_order) (f : string)
    : list (SearchIndexBuilder.page_data time) :=
  match indexed w h f with Some p => [p] | None => [] end.

Lemma index_step_record {time} (w : world time) h f :
  SearchIndexBuilder.index_step w h [] f = record_list w h f.
Proof.
  unfold SearchIndexBuilder.index_step, SearchIndexBuilder._index_file,
    record_list, indexed, bind, ret.
  destruct (read_text w f) as [e | c]; [reflexivity |].
  destruct (parse w c) as [e | sp]; [reflexivity |].
  destruct (st_mtime w f) as [e | t]; reflexivity.
Qed.

(** [build_index] holds the records of the files that could be read,
    parsed and stat'ed, in the order the files were found; the record of
    a file depends on that file alone, and the number of pages it
    returns is the number of such files. *)
Theorem build_index_is_the_records_of_the_readable_files :
  forall (time : Type) (w : world time) (h : SearchIndexBuilder.set_order)
         (html_files : list string),
    SearchIndexBuilder.build_index w h html_files
    = flat_map (record_list w h) html_files /\
    List.length (SearchIndexBuilder.build_index w h html_files)
    = count_if (fun f => match indexed w h f with
                         | Some _ => true
                         | None => false
                         end) html_files /\
    map (@SearchIndexBuilder.url time)
      (SearchIndexBuilder.build_index w h html_files)
    = map SearchIndexBuilder._get_relative_url
        (filter (fun f => match indexed w h f with
                          | Some _ => true
                          | None => false
                          end) html_files).
Proof.
  intros time w h html_files.
  assert (E : SearchIndexBuilder.build_index w h html_files
              = flat_map (record_list w h) html_files).
  { induction html_files as [| f l IH]; [reflexivity |].
    rewrite build_index_cons, IH, index_step_record. reflexivity. }
  split; [exact E |]. rewrite E. unfold count_if.
  split.
  - clear E. induction html_files as [| f l IH]; [reflexivity |].
    cbn [flat_map filter]. rewrite length_app, IH.
    unfold record_list. destruct (indexed w h f); reflexivity.
  - clear E. induction html_files as [| f l IH]; [reflexivity |].
    cbn [flat_map filter]. rewrite map_app, IH.
    unfold record_list, indexed.
    destruct (read_text w f) as [e | c]; [reflexivity |].
    destruct (parse w c) as [e | sp]; [reflexivity |].
    destruct (st_mtime w f) as [e | t]; [reflexivity |].
    cbn [map app]. f_equal.
Qed.

(* ================================================================== *)
(** * Further properties: the fields of an index record *)
(* ================================================================== *)

(** the record that [_extract_headings] makes for one heading *)
Definition heading_record (h : node) : SearchIndexBuilder.heading :=
  SearchIndexBuilder.mkHeading
    (SearchIndexBuilder.level_of (node_name h))
    (PyStr.strip (get_text h))
    (match attr_get "id" (node_attrs h) with
     | Some v => v
     | None => AStr ""
     end).

Lemma fold_append_map {A B} (g : A -> B) (l : list A) (acc : list B) :
  fold_left (fun acc x => acc ++ [g x]) l acc = acc ++ map g l.
Proof.
  revert acc. induction l as [| x l IH]; intros acc.
  - now rewrite app_nil_r.
  - cbn [fold_left map]. rewrite IH, <- app_assoc. reflexivity.
Qed.

Lemma heading_level_range nm :
  PyStr.mem nm HTMLConverter.heading_names = true ->
  1 <= SearchIndexBuilder.level_of nm <= 6.
Proof.
  unfold PyStr.mem, HTMLConverter.heading_names. cbn [existsb].
  rewrite !orb_true_iff. rewrite !String.eqb_eq.
  intros [-> | [-> | [-> | [-> | [-> | [-> | H]]]]]];
    try (vm_compute; lia); try discriminate.
Qed.

(** [_extract_headings] gives one record per heading element, in
    document order, with the level read off the tag name; every level is
    between 1 and 6, so [int(heading.name[1])] never fails. *)
Theorem extract_headings_one_record_per_heading :
  forall sp : soup,
    SearchIndexBuilder._extract_headings sp
    = map heading_record (find_all HTMLConverter.heading_names (doc sp)) /\
    Forall (fun r => 1 <= SearchIndexBuilder.level r <= 6)
      (SearchIndexBuilder._extract_headings sp).
Proof.
  intros sp.
  assert (E : SearchIndexBuilder._extract_headings sp
              = map heading_record
                  (find_all HTMLConverter.heading_names (doc sp))).
  { unfold SearchIndexBuilder._extract_headings.
    now rewrite (fold_append_map heading_record). }
  split; [exact E |]. rewrite E. apply Forall_forall. intros r Hr.
  apply in_map_iff in Hr. destruct Hr as (n & <- & Hn).
  apply find_all_in_elements in Hn. destruct Hn as [Hel Hname].
  destruct (elements_are_elems _ _ Hel) as (i & nm & a & cs & ->).
  cbn [heading_record SearchIndexBuilder.level node_name].
  now apply heading_level_range.
Qed.

(** [_extract_keywords] gives a list without repetition whose members
    are the comma-separated tokens of the keywords meta tag, as they
    are, and the words of the fixed vocabulary that occur in the
    lower-cased text of the document. *)
Theorem extract_keywords_members :
  forall (h : SearchIndexBuilder.set_order) (sp : soup),
    SearchIndexBuilder.is_set_order h ->
    NoDup (SearchIndexBuilder._extract_keywords h sp) /\
    forall x,
      In x (SearchIndexBuilder._extract_keywords h sp) <->
      In x (SearchIndexBuilder.meta_tokens sp) \/
      (In x SearchIndexBuilder.bible_terms /\
       PyStr.contains x (PyStr.lower (get_text_of (doc sp))) = true).
Proof.
  intros h sp Hh. unfold SearchIndexBuilder._extract_keywords.
  destruct (Hh (SearchIndexBuilder.add_terms sp
                  (SearchIndexBuilder.meta_tokens sp))) as [ND Hin].
  split; [exact ND |]. intros x. rewrite Hin, add_terms_filter, in_app_iff.
  rewrite filter_In. reflexivity.
Qed.

Lemma extract_keywords_members_witness :
  NoDup (SearchIndexBuilder._extract_keywords (nodup string_dec)
           page_with_script) /\
  forall x,
    In x (SearchIndexBuilder._extract_keywords (nodup string_dec)
            page_with_script) <->
    In x (SearchIndexBuilder.meta_tokens page_with_script) \/
    (In x SearchIndexBuilder.bible_terms /\
     PyStr.contains x (PyStr.lower (get_text_of (doc page_with_script)))
     = true).
Proof.
  apply (extract_keywords_members (nodup string_dec) page_with_script).
  exact nodup_is_set_order.
Defined.

Lemma split_comma_nonempty s : PyStr.split_comma s <> [].
Proof.
  destruct s as [| c s]; cbn [PyStr.split_comma]; [discriminate |].
  destruct (Ascii.eqb c ","); [discriminate |].
  destruct (PyStr.split_comma s); discriminate.
Qed.

(** A keywords meta tag always adds a keyword, even without content:
    [''.split(',')] is [['']], so a tag with no content attribute, or an
    empty one, puts the empty string among the keywords. *)
Theorem empty_meta_keywords_give_the_empty_keyword :
  forall (h : SearchIndexBuilder.set_order) (sp : soup) (m : node),
    SearchIndexBuilder.is_set_order h ->
    SearchIndexBuilder.find_meta_keywords sp = Some m ->
    attr_get "content" (node_attrs m) = None \/
    attr_get "content" (node_attrs m) = Some (AStr "") ->
    In "" (SearchIndexBuilder._extract_keywords h sp).
Proof.
  intros h sp m Hh Hm Hc. unfold SearchIndexBuilder._extract_keywords.
  apply (proj2 (Hh _)). rewrite add_terms_filter. apply in_or_app. left.
  unfold SearchIndexBuilder.meta_tokens. rewrite Hm.
  destruct Hc as [-> | ->]; now left.
Qed.

(** a page whose keywords meta tag has no content *)
Definition page_with_bare_meta : soup :=
  mkSoup 2
    [Elem 0 "meta" [("name", AStr "keywords")] [];
     Elem 1 "p" [] [Text "Peace"]]
    [].

Lemma empty_meta_keywords_witness :
  In "" (SearchIndexBuilder._extract_keywords (nodup string_dec)
           page_with_bare_meta).
Proof.
  apply (empty_meta_keywords_give_the_empty_keyword (nodup string_dec)
           page_with_bare_meta (Elem 0 "meta" [("name", AStr "keywords")] [])).
  - exact nodup_is_set_order.
  - reflexivity.
  - left. reflexivity.
Defined.

(* ================================================================== *)
(** * Further properties: the url of a page *)
(* ================================================================== *)

Definition backslash : ascii := ascii_of_nat 92.

Definition slashed (c : ascii) : ascii :=
  if Ascii.eqb c backslash then "/"%char else c.

Lemma replace_backslash s :
  PyStr.replace_from (String backslash EmptyString) "/" s 0
  = match s with
    | EmptyString => EmptyString
    | String c s' =>
        String (slashed c)
          (PyStr.replace_from (String backslash EmptyString) "/" s' 0)
    end.
Proof.
  destruct s as [| c s']; [reflexivity |].
  cbn [PyStr.replace_from String.prefix String.length Nat.sub].
  unfold slashed. rewrite Ascii.eqb_sym.
  destruct (ascii_dec backslash c) as [E | E].
  - subst c. rewrite Ascii.eqb_refl.
    destruct s'; reflexivity.
  - apply Ascii.eqb_neq in E. rewrite E. reflexivity.
Qed.

(** [_get_relative_url] turns every backslash of the path into a slash
    and changes no other character: the url has the length of the path,
    its character at each place is the one of the path, with a slash for
    a backslash, and it holds no backslash. *)
Theorem relative_url_has_slashes_for_backslashes :
  forall rel_path : string,
    let url := SearchIndexBuilder._get_relative_url rel_path in
    String.length url = String.length rel_path /\
    (forall i, String.get i url = option_map slashed (String.get i rel_path)) /\
    (forall i, String.get i url <> Some backslash).
Proof.
  intros rel_path. cbv zeta. unfold SearchIndexBuilder._get_relative_url,
    PyStr.replace.
  change "\" with (String backslash EmptyString).
  induction rel_path as [| c s IH]; rewrite replace_backslash.
  - repeat split; intros i; destruct i; discriminate.
  - destruct IH as (L & G & N). split; [| split].
    + cbn [String.length]. now rewrite L.
    + intros [| i]; [reflexivity |]. cbn [String.get]. apply G.
    + intros [| i]; cbn [String.get].
      * unfold slashed. destruct (Ascii.eqb c backslash) eqn:E.
        -- intros H. injection H as H. discriminate.
        -- intros H. injection H as H. apply Ascii.eqb_neq in E. now apply E.
      * apply N.
Qed.

(* ================================================================== *)
(** * Further properties: substrings *)
(* ================================================================== *)





(* ================================================================== *)
(** * Further properties: the sitemap *)
(* ================================================================== *)







(* ================================================================== *)
(** * Further properties: the passes that write attributes *)
(* ================================================================== *)

(** a tree without the attributes of its elements *)
Fixpoint bare (n : node) : node :=
  match n with
  | Elem i nm _ cs => Elem i nm [] (map bare cs)
  | _ => n
  end.

(** what a soup is apart from the attributes: the next identity, the
    document and the detached trees *)
Definition shape (sp : soup) : nat * list node * list node :=
  (fresh sp, map bare (doc sp), map bare (detached sp)).

(** The parser gives [class] as a list and [href] as a string; the
    passes concatenate the one with a list and call [startswith] on the
    other, which raise on values of another type. *)
Definition values_as_parsed (h : head) : bool :=
  match attr_get "class" (h_attrs h) with
  | Some (AList _) | None => true
  | _ => false
  end
  && match attr_get "href" (h_attrs h) with
     | Some (AStr _) | None => true
     | _ => false
     end.

Lemma bare_update_attrs i g n :
  bare (update i (fun a cs => (g a, cs)) n) = bare n.
Proof.
  induction n as [s | s | j nm a cs IH] using node_rect'; try reflexivity.
  cbn [update]. destruct (Nat.eqb j i); cbn [bare]; [reflexivity |].
  f_equal. rewrite map_map. apply map_ext_in. now apply Forall_forall.
Qed.

Lemma all_strings_bare types n :
  all_strings types (bare n) = all_strings types n.
Proof.
  induction n as [s | s | j nm a cs IH] using node_rect'; try reflexivity.
  cbn [bare all_strings]. f_equal. rewrite map_map. apply map_ext_in.
  now apply Forall_forall.
Qed.

Lemma get_text_bare n : get_text (bare n) = get_text n.
Proof.
  unfold get_text. rewrite all_strings_bare. now destruct n.
Qed.

Lemma shape_text sp sp' :
  shape sp = shape sp' -> get_text_of (doc sp) = get_text_of (doc sp').
Proof.
  unfold shape. intros H. injection H as _ Hd _. unfold get_text_of.
  assert (E : forall l,
             map (all_strings default_string_types) l
             = map (all_strings default_string_types) (map bare l)).
  { intros l. rewrite map_map. apply map_ext. intros n. symmetry.
    apply all_strings_bare. }
  now rewrite (E (doc sp)), (E (doc sp')), Hd.
Qed.

Lemma shape_set_attr i k v sp : shape (set_attr i k v sp) = shape sp.
Proof.
  unfold shape, set_attr, on_trees, update_in. cbn [fresh doc detached].
  rewrite !map_map.
  f_equal; [f_equal |]; apply map_ext; intros n; apply bare_update_attrs.
Qed.

Lemma shape_for_each {A} (l : list A) (body : A -> soup -> soup) sp :
  (forall x s, shape (body x s) = shape s) ->
  shape (for_each l body sp) = shape sp.
Proof.
  intros Hb. unfold for_each. revert sp.
  induction l as [| x l IH]; intros sp; [reflexivity |].
  cbn [fold_left]. now rewrite IH, Hb.
Qed.

Ltac shape_step :=
  match goal with
  | |- shape (for_each _ _ _) = _ => rewrite shape_for_each; [| intros ? ?]
  | |- shape (set_attr _ _ _ _) = _ => rewrite shape_set_attr
  | |- shape (if ?c then _ else _) = _ => destruct c
  | |- shape (match ?c with _ => _ end) = _ => destruct c
  | x : (nat * nat)%type |- _ => destruct x
  end.

Lemma shape_add_accessibility sp :
  shape (HTMLConverter._add_accessibility sp) = shape sp.
Proof.
  unfold HTMLConverter._add_accessibility. cbv zeta.
  repeat shape_step; reflexivity.
Qed.

Lemma shape_add_responsive_classes sp :
  shape (HTMLConverter._add_responsive_classes sp) = shape sp.
Proof.
  unfold HTMLConverter._add_responsive_classes. cbv zeta.
  repeat shape_step; reflexivity.
Qed.

Lemma shape_update_links sp :
  shape (HTMLConverter._update_links sp) = shape sp.
Proof.
  unfold HTMLConverter._update_links, HTMLConverter.update_link. cbv zeta.
  repeat shape_step; reflexivity.
Qed.

(** The three passes that come after the tables write attributes and
    nothing else: no element is made, moved, renamed or removed, and the
    text of the document is the one it had. *)
Theorem attribute_passes_keep_the_tree :
  forall sp : soup,
    forallb values_as_parsed (heads (doc sp)) = true ->
    (shape (HTMLConverter._add_accessibility sp) = shape sp /\
     shape (HTMLConverter._add_responsive_classes sp) = shape sp /\
     shape (HTMLConverter._update_links sp) = shape sp) /\
    (get_text_of (doc (HTMLConverter._add_accessibility sp))
     = get_text_of (doc sp) /\
     get_text_of (doc (HTMLConverter._add_responsive_classes sp))
     = get_text_of (doc sp) /\
     get_text_of (doc (HTMLConverter._update_links sp))
     = get_text_of (doc sp)).
Proof.
  intros sp _. split; repeat split;
    auto using shape_text, shape_add_accessibility,
      shape_add_responsive_classes, shape_update_links.
Qed.

(** a page with a wide table, two paragraphs, an image and four links *)
Definition page_for_attributes : soup :=
  mkSoup 10
    [Elem 0 "body" [("id", AStr "top")]
       [Elem 1 "table" [("width", AStr "100%"); ("class", AList ["container"])]
          [Elem 2 "tr" [] [Elem 3 "td" [] [Text "cell"]]];
        Elem 4 "p" [] [Text "one "; Elem 5 "img" [("alt", AStr "")] []];
        Elem 6 "p" [("class", AList ["note"])]
          [Elem 7 "a" [("href", AStr "http://www.bibletexts.com/a.html")]
             [Text "site"];
           Elem 8 "a" [("href", AStr "http://example.com/");
                       ("class", AList ["ref"])] [Text "out"];
           Elem 9 "a" [("href", AStr "https://example.com/");
                       ("tabindex", AStr "3")] [Text "safe"]]]]
    [].

Lemma attribute_passes_witness :
  shape (HTMLConverter._update_links
           (HTMLConverter._add_accessibility page_for_attributes))
  = shape page_for_attributes.
Proof.
  destruct (attribute_passes_keep_the_tree page_for_attributes eq_refl)
    as [[Ha _] _].
  destruct (attribute_passes_keep_the_tree
              (HTMLConverter._add_accessibility page_for_attributes) eq_refl)
    as [[_ [_ Hu]] _].
  now rewrite Hu, Ha.
Defined.

(** ** one element at a time *)

Definition named (names : list string) (h : head) : bool :=
  PyStr.mem (h_name h) names.

(** [g] on the attributes of the elements that [p] selects *)
Definition on_selected (p : head -> bool) (g : attrs -> attrs) (h : head)
    : head :=
  if p h then (h_id h, h_name h, g (h_attrs h)) else h.

(** a loop body that does [g] to the attributes of the element it is
    given and leaves the rest *)
Definition acts_as (body : nat -> soup -> soup) (g : attrs -> attrs) : Prop :=
  forall i sp,
    NoDup (oids (everything sp)) -> relabel (on_attrs i g) sp (body i sp).

Lemma head_eta (h : head) : (h_id h, h_name h, h_attrs h) = h.
Proof. now destruct h as [[i nm] a]. Qed.

Lemma attrs_of_unique sp i h :
  NoDup (oids (everything sp)) -> In h (heads (everything sp)) -> h_id h = i ->
  attrs_of i sp = h_attrs h.
Proof.
  intros ND Hin Hi. rewrite attrs_of_heads. apply attrs_in_unique; auto.
  now rewrite map_h_id_heads.
Qed.

Lemma on_attrs_twice i g1 g2 h :
  on_attrs i g2 (on_attrs i g1 h) = on_attrs i (fun a => g2 (g1 a)) h.
Proof.
  destruct h as [[j nm] a]. unfold on_attrs. cbn [h_id h_name h_attrs fst snd].
  destruct (Nat.eqb j i) eqn:E; cbn [h_id h_name h_attrs fst snd];
    now rewrite E.
Qed.

Lemma acts_as_ext body body' g :
  (forall i s, body i s = body' i s) -> acts_as body' g -> acts_as body g.
Proof. intros E H i sp ND. rewrite E. now apply H. Qed.

Lemma cond_set_acts (c : attrs -> bool) k (v : attrs -> attrval) :
  acts_as
    (fun i sp =>
       if c (attrs_of i sp) then set_attr i k (v (attrs_of i sp)) sp else sp)
    (fun a => if c a then attr_set k (v a) a else a).
Proof.
  intros i sp ND. cbv beta.
  destruct (c (attrs_of i sp)) eqn:Ec.
  - refine (relabel_ext _ _ _ _ _ (set_attr_relabel i k _ sp ND)).
    intros h Hin. unfold on_attrs.
    destruct (Nat.eqb_spec (h_id h) i) as [E | E]; [| reflexivity].
    rewrite (attrs_of_unique sp i h ND Hin E) in *. now rewrite Ec.
  - refine (relabel_ext _ _ _ _ _ (relabel_refl sp)).
    intros h Hin. unfold on_attrs.
    destruct (Nat.eqb_spec (h_id h) i) as [E | E]; [| reflexivity].
    rewrite (attrs_of_unique sp i h ND Hin E) in Ec. rewrite Ec.
    symmetry. apply head_eta.
Qed.

Lemma loop_relabel body g l sp :
  acts_as body g -> NoDup (oids (everything sp)) -> NoDup l ->
  relabel
    (fun h => if existsb (Nat.eqb (h_id h)) l
              then (h_id h, h_name h, g (h_attrs h)) else h)
    sp (for_each l body sp).
Proof.
  intros Hb. revert sp. induction l as [| x l IH]; intros sp ND NDl.
  - refine (relabel_ext _ _ _ _ _ (relabel_refl sp)). reflexivity.
  - inversion NDl as [| ? ? Hx NDl']; subst.
    pose proof (Hb x sp ND) as R1.
    pose proof (relabel_nodup _ _ _ (on_attrs_preserves x g) R1 ND) as ND1.
    pose proof (IH _ ND1 NDl') as R2.
    unfold for_each in *. cbn [fold_left].
    refine (relabel_ext _ _ _ _ _ (relabel_trans _ _ _ _ _ R1 R2)).
    intros h _. cbv beta. cbn [existsb]. unfold on_attrs.
    destruct (Nat.eqb_spec (h_id h) x) as [E | E]; cbn [orb]; [| reflexivity].
    assert (Hex : existsb (Nat.eqb (h_id h)) l = false).
    { apply not_true_is_false. intros Hex. apply existsb_exists in Hex.
      destruct Hex as (y & Hy & Ey). apply Nat.eqb_eq in Ey.
      apply Hx. congruence. }
    change (h_id (h_id h, h_name h, g (h_attrs h))) with (h_id h).
    now rewrite Hex.
Qed.

Lemma selected_ids (p : head -> bool) H h :
  NoDup (map h_id H) -> In h H ->
  existsb (Nat.eqb (h_id h)) (map h_id (filter p H)) = p h.
Proof.
  intros ND Hin. destruct (p h) eqn:Ep.
  - apply existsb_exists. exists (h_id h). split; [| apply Nat.eqb_refl].
    apply in_map. apply filter_In. auto.
  - apply not_true_is_false. intros Hex. apply existsb_exists in Hex.
    destruct Hex as (y & Hy & Ey). apply Nat.eqb_eq in Ey.
    apply in_map_iff in Hy. destruct Hy as (h' & Hi' & Hf).
    apply filter_In in Hf. destruct Hf as [Hin' Hp'].
    assert (h' = h) by (apply (heads_inj H); auto; congruence).
    subst. congruence.
Qed.

Lemma on_selected_preserves p g : preserves (on_selected p g).
Proof. intros h. unfold on_selected. destruct (p h); auto. Qed.

(** a loop over the elements of the document that [p] selects *)
Lemma loop_on_selected body g (p : head -> bool) sp :
  acts_as body g -> NoDup (oids (everything sp)) ->
  heads (doc (for_each (map h_id (filter p (heads (doc sp)))) body sp))
  = map (on_selected p g) (heads (doc sp)) /\
  NoDup (oids (everything
                 (for_each (map h_id (filter p (heads (doc sp)))) body sp))).
Proof.
  intros Hb ND. pose proof (NoDup_heads_doc sp ND) as NDd.
  pose proof (loop_relabel body g _ sp Hb ND (NoDup_map_filter h_id p _ NDd))
    as R.
  split.
  - destruct R as [D _]. rewrite D. apply map_ext_in. intros h Hin.
    unfold on_selected. now rewrite selected_ids.
  - eapply relabel_nodup; [| exact R | exact ND].
    intros h. destruct (existsb _ _); auto.
Qed.

Lemma soup_find_all_selected names sp :
  soup_find_all names sp = map h_id (filter (named names) (heads (doc sp))).
Proof. unfold soup_find_all. now rewrite find_all_oids_heads. Qed.

Lemma filter_andb {A} (p q : A -> bool) l :
  filter (fun x => p x && q x) l = filter q (filter p l).
Proof.
  induction l as [| x l IH]; [reflexivity |]. cbn [filter].
  destruct (p x); cbn [andb filter]; [destruct (q x) |]; now rewrite IH.
Qed.

Lemma filter_of_map {A B} (f : A -> B) (q : B -> bool) l :
  filter q (map f l) = map f (filter (fun x => q (f x)) l).
Proof.
  induction l as [| x l IH]; [reflexivity |]. cbn [map filter].
  destruct (q (f x)); cbn [map]; now rewrite IH.
Qed.

Lemma anchors_with_href_selected sp :
  HTMLConverter.anchors_with_href sp
  = map h_id
      (filter (fun h => named ["a"] h && attr_has "href" (h_attrs h))
         (heads (doc sp))).
Proof.
  unfold HTMLConverter.anchors_with_href.
  rewrite (filter_andb (named ["a"]) (fun h => attr_has "href" (h_attrs h))).
  unfold named. rewrite <- filter_named_heads, filter_of_map, map_map.
  reflexivity.
Qed.

(* ================================================================== *)
(** * Further properties: the links of a converted page *)
(* ================================================================== *)

(** what [_update_links] makes of the attributes of an anchor *)
Definition link_attrs (a : attrs) : attrs :=
  match attr_get "href" a with
  | Some v =>
      let href := str_of v in
      if PyStr.startswith href HTMLConverter.site_origin
      then attr_set "href"
             (AStr (PyStr.replace href HTMLConverter.site_origin "")) a
      else if PyStr.startswith href "http://"
           then attr_set "rel" (AStr "noopener noreferrer")
                  (attr_set "target" (AStr "_blank") a)
           else a
  | None => a
  end.

Lemma update_link_acts : acts_as HTMLConverter.update_link link_attrs.
Proof.
  intros i sp ND. unfold HTMLConverter.update_link.
  assert (Hg : forall h, In h (heads (everything sp)) -> h_id h = i ->
                 link_attrs (h_attrs h) = link_attrs (attrs_of i sp)).
  { intros h Hin E. now rewrite (attrs_of_unique sp i h ND Hin E). }
  assert (Hsame : forall psi,
            (forall h, In h (heads (everything sp)) -> h_id h = i ->
                       psi (h_attrs h) = link_attrs (attrs_of i sp)) ->
            forall h, In h (heads (everything sp)) ->
                      on_attrs i psi h = on_attrs i link_attrs h).
  { intros psi Hpsi h Hin. unfold on_attrs.
    destruct (Nat.eqb_spec (h_id h) i) as [E | E]; [| reflexivity].
    now rewrite (Hpsi h Hin E), (Hg h Hin E). }
  assert (Hu := attrs_of_unique sp i).
  unfold link_attrs in Hsame at 1.
  destruct (attr_get "href" (attrs_of i sp)) as [v |] eqn:Eg; cbv zeta in *.
  - destruct (PyStr.startswith (str_of v) HTMLConverter.site_origin) eqn:E1.
    + refine (relabel_ext _ _ _ _ _ (set_attr_relabel i "href" _ sp ND)).
      apply Hsame. intros h Hin E. now rewrite (Hu h ND Hin E).
    + destruct (PyStr.startswith (str_of v) "http://") eqn:E2.
      * pose proof (set_attr_relabel i "target" (AStr "_blank") sp ND) as R1.
        pose proof (relabel_nodup _ _ _ (on_attrs_preserves _ _) R1 ND) as ND1.
        pose proof (set_attr_relabel i "rel" (AStr "noopener noreferrer") _ ND1)
          as R2.
        refine (relabel_ext _ _ _ _ _ (relabel_trans _ _ _ _ _ R1 R2)).
        intros h Hin. cbv beta. rewrite on_attrs_twice.
        apply Hsame; [| exact Hin]. intros h' Hin' E.
        now rewrite (Hu h' ND Hin' E).
      * refine (relabel_ext _ _ _ _ _ (relabel_refl sp)).
        intros h Hin. rewrite <- (Hsame (fun a => a)); [| | exact Hin].
        -- unfold on_attrs. destruct (Nat.eqb (h_id h) i); [| reflexivity].
           symmetry. apply head_eta.
        -- intros h' Hin' E. now rewrite (Hu h' ND Hin' E).
  - refine (relabel_ext _ _ _ _ _ (relabel_refl sp)).
    intros h Hin. rewrite <- (Hsame (fun a => a)); [| | exact Hin].
    + unfold on_attrs. destruct (Nat.eqb (h_id h) i); [| reflexivity].
      symmetry. apply head_eta.
    + intros h' Hin' E. now rewrite (Hu h' ND Hin' E).
Qed.

(** After [_update_links] the elements of the document are the ones it
    had, in the same order; each anchor has the attributes [link_attrs]
    makes of its own: an href below the site's origin loses the origin,
    another href that starts with "http://" keeps its value and gets
    target "_blank" and rel "noopener noreferrer", and every other
    anchor, an "https://" one as well, and every other element is as it
    was. *)
Theorem update_links_rewrites_each_anchor_by_its_own_href :
  forall sp : soup,
    NoDup (oids (everything sp)) ->
    forallb values_as_parsed (heads (doc sp)) = true ->
    heads (doc (HTMLConverter._update_links sp))
    = map (on_selected (named ["a"]) link_attrs) (heads (doc sp)).
Proof.
  intros sp ND _. unfold HTMLConverter._update_links.
  rewrite anchors_with_href_selected.
  destruct (loop_on_selected HTMLConverter.update_link link_attrs
              (fun h => named ["a"] h && attr_has "href" (h_attrs h)) sp
              update_link_acts ND) as [D _].
  rewrite D. apply map_ext. intros h. unfold on_selected.
  destruct (named ["a"] h); cbn [andb]; [| reflexivity].
  unfold attr_has, link_attrs.
  destruct (attr_get "href" (h_attrs h)); [reflexivity |].
  symmetry. apply head_eta.
Qed.

Lemma update_links_witness :
  heads (doc (HTMLConverter._update_links page_for_attributes))
  = [(0, "body", [("id", AStr "top")]);
     (1, "table", [("width", AStr "100%"); ("class", AList ["container"])]);
     (2, "tr", []); (3, "td", []); (4, "p", []);
     (5, "img", [("alt", AStr "")]);
     (6, "p", [("class", AList ["note"])]);
     (7, "a", [("href", AStr "a.html")]);
     (8, "a", [("href", AStr "http://example.com/");
               ("class", AList ["ref"]); ("target", AStr "_blank");
               ("rel", AStr "noopener noreferrer")]);
     (9, "a", [("href", AStr "https://example.com/");
               ("tabindex", AStr "3")])].
Proof.
  rewrite (update_links_rewrites_each_anchor_by_its_own_href
             page_for_attributes).
  - reflexivity.
  - solve_nodup.
  - reflexivity.
Defined.

(* ================================================================== *)
(** * Further properties: the responsive classes *)
(* ================================================================== *)

Definition table_class (a : attrs) : attrs :=
  if attr_is "width" "100%" a
  then attr_set "class" (AList (list_of (attr_get "class" a) ++ ["container"])) a
  else a.

Definition paragraph_class (a : attrs) : attrs :=
  if negb (truthy (attr_get "class" a))
  then attr_set "class" (AList ["responsive-text"]) a
  else a.

Definition link_class (a : attrs) : attrs :=
  match attr_get "href" a with
  | Some href =>
      if PyStr.startswith (str_of href) "http"
      then attr_set "class"
             (AList (list_of (attr_get "class" a) ++ ["external-link"])) a
      else a
  | None => a
  end.

(** what [_add_responsive_classes] makes of one element *)
Definition responsive_head (h : head) : head :=
  if named ["table"] h then (h_id h, h_name h, table_class (h_attrs h))
  else if named ["p"] h then (h_id h, h_name h, paragraph_class (h_attrs h))
  else if named ["a"] h then (h_id h, h_name h, link_class (h_attrs h))
  else h.

Lemma table_class_acts :
  acts_as
    (fun table sp =>
       let a := attrs_of table sp in
       if attr_is "width" "100%" a
       then set_attr table "class"
              (AList (list_of (attr_get "class" a) ++ ["container"])) sp
       else sp)
    table_class.
Proof.
  exact (cond_set_acts (attr_is "width" "100%") "class"
           (fun a => AList (list_of (attr_get "class" a) ++ ["container"]))).
Qed.

Lemma paragraph_class_acts :
  acts_as
    (fun p sp =>
       if negb (truthy (attr_get "class" (attrs_of p sp)))
       then set_attr p "class" (AList ["responsive-text"]) sp
       else sp)
    paragraph_class.
Proof.
  exact (cond_set_acts (fun a => negb (truthy (attr_get "class" a))) "class"
           (fun _ => AList ["responsive-text"])).
Qed.

Lemma link_class_acts :
  acts_as
    (fun link sp =>
       let a := attrs_of link sp in
       match attr_get "href" a with
       | Some href =>
           if PyStr.startswith (str_of href) "http"
           then set_attr link "class"
                  (AList (list_of (attr_get "class" a) ++ ["external-link"])) sp
           else sp
       | None => sp
       end)
    link_class.
Proof.
  intros i sp ND.
  pose proof (cond_set_acts
                (fun a => match attr_get "href" a with
                          | Some href => PyStr.startswith (str_of href) "http"
                          | None => false
                          end) "class"
                (fun a => AList (list_of (attr_get "class" a)
                                 ++ ["external-link"])) i sp ND) as R.
  cbv beta in R. cbv zeta. revert R.
  destruct (attr_get "href" (attrs_of i sp)) as [v |]; intros R;
    (refine (relabel_ext _ _ _ _ _ R); intros h _; unfold on_attrs, link_class;
     destruct (Nat.eqb (h_id h) i); [| reflexivity];
     now destruct (attr_get "href" (h_attrs h))).
Qed.

Lemma responsive_pointwise h :
  on_selected (named ["a"]) link_class
    (on_selected (named ["p"]) paragraph_class
       (on_selected (named ["table"]) table_class h))
  = responsive_head h.
Proof.
  destruct h as [[j nm] a]. unfold on_selected, responsive_head, named.
  cbn [h_id h_name h_attrs fst snd].
  destruct (PyStr.mem nm ["table"]) eqn:E1.
  - apply mem_singleton in E1. subst nm. reflexivity.
  - cbn [h_id h_name h_attrs fst snd].
    destruct (PyStr.mem nm ["p"]) eqn:E2.
    + apply mem_singleton in E2. subst nm. reflexivity.
    + cbn [h_id h_name h_attrs fst snd]. reflexivity.
Qed.

(** After [_add_responsive_classes] the elements of the document are the
    ones it had, in the same order, each as [responsive_head] makes it:
    a table of width "100%" has "container" after the classes it had, a
    paragraph with no class has the class "responsive-text", an anchor
    whose href starts with "http" has "external-link" after the classes
    it had, and every other element is as it was. *)
Theorem responsive_classes_are_added_by_tag_and_attributes :
  forall sp : soup,
    NoDup (oids (everything sp)) ->
    forallb values_as_parsed (heads (doc sp)) = true ->
    heads (doc (HTMLConverter._add_responsive_classes sp))
    = map responsive_head (heads (doc sp)).
Proof.
  intros sp ND _. unfold HTMLConverter._add_responsive_classes. cbv zeta.
  match goal with |- context [for_each (soup_find_all ["table"] sp) ?b sp] =>
    set (b1 := b) end.
  destruct (loop_on_selected b1 table_class (named ["table"]) sp
              table_class_acts ND) as [D1 ND1].
  rewrite <- soup_find_all_selected in D1, ND1.
  set (sp1 := for_each (soup_find_all ["table"] sp) b1 sp) in *.
  match goal with |- context [for_each (soup_find_all ["p"] sp1) ?b sp1] =>
    set (b2 := b) end.
  destruct (loop_on_selected b2 paragraph_class (named ["p"]) sp1
              paragraph_class_acts ND1) as [D2 ND2].
  rewrite <- soup_find_all_selected in D2, ND2.
  set (sp2 := for_each (soup_find_all ["p"] sp1) b2 sp1) in *.
  match goal with |- context [for_each (soup_find_all ["a"] sp2) ?b sp2] =>
    set (b3 := b) end.
  destruct (loop_on_selected b3 link_class (named ["a"]) sp2
              link_class_acts ND2) as [D3 _].
  rewrite <- soup_find_all_selected in D3.
  rewrite D3, D2, D1, !map_map. apply map_ext. exact responsive_pointwise.
Qed.

Lemma responsive_classes_witness :
  heads (doc (HTMLConverter._add_responsive_classes page_for_attributes))
  = [(0, "body", [("id", AStr "top")]);
     (1, "table", [("width", AStr "100%");
                   ("class", AList ["container"; "container"])]);
     (2, "tr", []); (3, "td", []);
     (4, "p", [("class", AList ["responsive-text"])]);
     (5, "img", [("alt", AStr "")]);
     (6, "p", [("class", AList ["note"])]);
     (7, "a", [("href", AStr "http://www.bibletexts.com/a.html");
               ("class", AList ["external-link"])]);
     (8, "a", [("href", AStr "http://example.com/");
               ("class", AList ["ref"; "external-link"])]);
     (9, "a", [("href", AStr "https://example.com/");
               ("tabindex", AStr "3"); ("class", AList ["external-link"])])].
Proof.
  rewrite (responsive_classes_are_added_by_tag_and_attributes
             page_for_attributes).
  - reflexivity.
  - solve_nodup.
  - reflexivity.
Defined.

(* ================================================================== *)
(** * Further properties: the accessibility pass *)
(* ================================================================== *)

Definition with_attrs (g : attrs -> attrs) (h : head) : head :=
  (h_id h, h_name h, g (h_attrs h)).

Definition landmark (a : attrs) : attrs :=
  attr_set "id" (AStr "main-content") (attr_set "role" (AStr "main") a).

Definition alt_filled (a : attrs) : attrs :=
  if negb (truthy (attr_get "alt" a)) then attr_set "alt" (AStr "Image") a
  else a.

Definition tabindex_filled (a : attrs) : attrs :=
  if negb (truthy (attr_get "tabindex" a))
  then attr_set "tabindex" (AStr "0") a
  else a.

(** the tags the pass looks for *)
Definition accessibility_names : list string :=
  "body" :: HTMLConverter.heading_names ++ ["img"; "a"].

(** the first statement of the pass, on one element *)
Definition body_landmark (sp : soup) : head -> head :=
  match soup_find ["body"] sp with
  | Some b => on_attrs b landmark
  | None => fun h => h
  end.

Lemma not_selected (p : head -> bool) H h :
  NoDup (map h_id H) -> In h H -> p h = false ->
  ~ In (h_id h) (map h_id (filter p H)).
Proof.
  intros ND Hin Hp Hi.
  assert (E : existsb (Nat.eqb (h_id h)) (map h_id (filter p H)) = true).
  { apply existsb_exists. exists (h_id h). split; [exact Hi |].
    apply Nat.eqb_refl. }
  rewrite selected_ids in E by assumption. congruence.
Qed.

Lemma soup_find_selected names sp :
  soup_find names sp
  = hd_error (map h_id (filter (named names) (heads (doc sp)))).
Proof.
  unfold soup_find, find_first, named. rewrite <- filter_named_heads.
  now destruct (find_all names (doc sp)).
Qed.

Lemma body_landmark_relabel sp :
  NoDup (oids (everything sp)) ->
  relabel (body_landmark sp) sp
    (match soup_find ["body"] sp with
     | Some main_content =>
         set_attr main_content "id" (AStr "main-content")
           (set_attr main_content "role" (AStr "main") sp)
     | None => sp
     end).
Proof.
  intros ND. unfold body_landmark.
  destruct (soup_find ["body"] sp) as [b |]; [| apply relabel_refl].
  pose proof (set_attr_relabel b "role" (AStr "main") sp ND) as R1.
  pose proof (relabel_nodup _ _ _ (on_attrs_preserves _ _) R1 ND) as ND1.
  pose proof (set_attr_relabel b "id" (AStr "main-content") _ ND1) as R2.
  refine (relabel_ext _ _ _ _ _ (relabel_trans _ _ _ _ _ R1 R2)).
  intros h _. cbv beta. rewrite on_attrs_twice. reflexivity.
Qed.

Lemma body_landmark_preserves sp : preserves (body_landmark sp).
Proof.
  unfold body_landmark.
  destruct (soup_find ["body"] sp); [apply on_attrs_preserves | apply preserves_id].
Qed.

Lemma body_landmark_others sp h :
  NoDup (map h_id (heads (doc sp))) -> In h (heads (doc sp)) ->
  named ["body"] h = false -> body_landmark sp h = h.
Proof.
  intros ND Hin Hn. unfold body_landmark. rewrite soup_find_selected.
  pose proof (not_selected (named ["body"]) _ h ND Hin Hn) as Hnot.
  destruct (filter (named ["body"]) (heads (doc sp))) as [| b rest];
    cbn [map hd_error]; [reflexivity |].
  unfold on_attrs. destruct (Nat.eqb_spec (h_id h) (h_id b)) as [E | E];
    [| reflexivity].
  exfalso. apply Hnot. cbn [map]. left. now symmetry.
Qed.

Lemma body_landmark_bodies sp :
  NoDup (map h_id (heads (doc sp))) ->
  map (body_landmark sp) (filter (named ["body"]) (heads (doc sp)))
  = match filter (named ["body"]) (heads (doc sp)) with
    | [] => []
    | b :: rest => with_attrs landmark b :: rest
    end.
Proof.
  intros ND. unfold body_landmark. rewrite soup_find_selected.
  pose proof (NoDup_map_filter h_id (named ["body"]) _ ND) as NDB.
  revert NDB.
  destruct (filter (named ["body"]) (heads (doc sp))) as [| b rest];
    intros NDB; cbn [map hd_error]; [reflexivity |].
  f_equal.
  - unfold on_attrs. now rewrite Nat.eqb_refl.
  - apply on_attrs_notin. cbn [map] in NDB. now inversion NDB.
Qed.

Lemma filter_map_same (p : head -> bool) phi H :
  (forall h, p (phi h) = p h) ->
  filter p (map phi H) = map phi (filter p H).
Proof.
  intros E. rewrite filter_of_map. f_equal. apply filter_ext. exact E.
Qed.

Lemma enumerate_ids (l : list nat) :
  map (fun p : nat * nat => snd p) (PyStr.enumerate l) = l.
Proof. unfold PyStr.enumerate. apply map_snd_combine_seq. Qed.

Lemma filled_is_truthy k v a :
  truthy (Some v) = true ->
  truthy (attr_get k (if negb (truthy (attr_get k a)) then attr_set k v a
                      else a)) = true.
Proof.
  intros Hv. destruct (truthy (attr_get k a)) eqn:E; cbn [negb].
  - exact E.
  - now rewrite attr_get_set_same.
Qed.

(** how the pass acts on the elements of the document *)
Lemma accessibility_heads sp :
  NoDup (oids (everything sp)) ->
  exists phi2,
    preserves phi2 /\
    (forall h, In h (heads (doc sp)) ->
               named HTMLConverter.heading_names h = false ->
               phi2 (body_landmark sp h) = body_landmark sp h) /\
    heads (doc (HTMLConverter._add_accessibility sp))
    = map (fun h =>
             on_selected (named ["a"]) tabindex_filled
               (on_selected (named ["img"]) alt_filled
                  (phi2 (body_landmark sp h))))
        (heads (doc sp)).
Proof.
  intros ND. unfold HTMLConverter._add_accessibility.
  pose proof (body_landmark_relabel sp ND) as R1.
  pose proof (body_landmark_preserves sp) as P1.
  set (sp1 := match soup_find ["body"] sp with
              | Some main_content =>
                  set_attr main_content "id" (AStr "main-content")
                    (set_attr main_content "role" (AStr "main") sp)
              | None => sp
              end) in *.
  pose proof (relabel_nodup _ _ _ P1 R1 ND) as ND1.
  set (headings := soup_find_all HTMLConverter.heading_names sp1).
  match goal with |- context [for_each (PyStr.enumerate headings) ?b sp1] =>
    set (body2 := b) end.
  set (sp2 := for_each (PyStr.enumerate headings) body2 sp1).
  set (vf := fun i : nat => AStr ("heading-" ++ PyStr.of_nat i)).
  assert (R2 : relabel
                 (fill_heads "id" (fun p : nat * nat => snd p)
                    (fun p => vf (fst p)) (PyStr.enumerate headings))
                 sp1 sp2).
  { apply for_each_fill_relabel; [| exact ND1].
    intros [i x] s. reflexivity. }
  set (phi2 := fill_heads "id" (fun p : nat * nat => snd p)
                 (fun p => vf (fst p)) (PyStr.enumerate headings)) in *.
  assert (P2 : preserves phi2) by apply fill_heads_preserves.
  pose proof (relabel_nodup _ _ _ P2 R2 ND1) as ND2.
  match goal with |- context [for_each (soup_find_all ["img"] sp2) ?b sp2] =>
    set (body3 := b) end.
  destruct (loop_on_selected body3 alt_filled (named ["img"]) sp2
              (cond_set_acts (fun a => negb (truthy (attr_get "alt" a))) "alt"
                 (fun _ => AStr "Image")) ND2) as [D3 ND3].
  rewrite <- soup_find_all_selected in D3, ND3.
  set (sp3 := for_each (soup_find_all ["img"] sp2) body3 sp2) in *.
  match goal with |- context [for_each (soup_find_all ["a"] sp3) ?b sp3] =>
    set (body4 := b) end.
  destruct (loop_on_selected body4 tabindex_filled (named ["a"]) sp3
              (cond_set_acts (fun a => negb (truthy (attr_get "tabindex" a)))
                 "tabindex" (fun _ => AStr "0")) ND3) as [D4 _].
  rewrite <- soup_find_all_selected in D4.
  exists phi2. split; [exact P2 | split].
  - intros h Hin Hn. apply fill_heads_other. rewrite enumerate_ids.
    subst headings. rewrite soup_find_all_selected.
    destruct R1 as [D1 _]. rewrite D1.
    unfold named at 1. rewrite filter_map_preserves by exact P1.
    rewrite (map_preserves_ids _ _ P1).
    destruct (P1 h) as [-> _].
    apply (not_selected (named HTMLConverter.heading_names)); auto.
    now apply NoDup_heads_doc.
  - destruct R1 as [D1 _], R2 as [D2 _].
    rewrite D4, D3, D2, D1, !map_map. reflexivity.
Qed.

Lemma on_selected_yes p g h :
  p h = true -> on_selected p g h = with_attrs g h.
Proof. intros H. unfold on_selected. now rewrite H. Qed.

Lemma on_selected_no p g h : p h = false -> on_selected p g h = h.
Proof. intros H. unfold on_selected. now rewrite H. Qed.

Lemma named_with_attrs names g h :
  named names (with_attrs g h) = named names h.
Proof. reflexivity. Qed.

Lemma named_of_name names h nm :
  h_name h = nm -> named names h = PyStr.mem nm names.
Proof. intros <-. reflexivity. Qed.

(** After [_add_accessibility], with the elements of the document taken
    in document order: the images are the images it had, each with alt
    "Image" unless its alt was non-empty, so every image has a non-empty
    alt; the anchors are the anchors it had, each with tabindex "0"
    unless its tabindex was non-empty; the first body element has role
    "main" and id "main-content", in the place of an id it had, and the
    other body elements are as they were; and the elements that are no
    body, heading, image or anchor are as they were. *)
Theorem accessibility_marks_the_body_the_images_and_the_links :
  forall sp : soup,
    NoDup (oids (everything sp)) ->
    let before := heads (doc sp) in
    let after := heads (doc (HTMLConverter._add_accessibility sp)) in
    (filter (named ["img"]) after
     = map (with_attrs alt_filled) (filter (named ["img"]) before) /\
     Forall (fun h => truthy (attr_get "alt" (h_attrs h)) = true)
       (filter (named ["img"]) after)) /\
    (filter (named ["a"]) after
     = map (with_attrs tabindex_filled) (filter (named ["a"]) before) /\
     Forall (fun h => truthy (attr_get "tabindex" (h_attrs h)) = true)
       (filter (named ["a"]) after)) /\
    filter (named ["body"]) after
    = match filter (named ["body"]) before with
      | [] => []
      | b :: rest => with_attrs landmark b :: rest
      end /\
    filter (fun h => negb (named accessibility_names h)) after
    = filter (fun h => negb (named accessibility_names h)) before.
Proof.
  intros sp ND before after.
  destruct (accessibility_heads sp ND) as (phi2 & P2 & H2 & D).
  pose proof (NoDup_heads_doc sp ND) as NDd.
  pose proof (body_landmark_preserves sp) as P1.
  set (F := fun h =>
              on_selected (named ["a"]) tabindex_filled
                (on_selected (named ["img"]) alt_filled
                   (phi2 (body_landmark sp h)))) in D.
  assert (PF : preserves F).
  { subst F. intros h.
    destruct (on_selected_preserves (named ["a"]) tabindex_filled
                (on_selected (named ["img"]) alt_filled
                   (phi2 (body_landmark sp h)))) as [A1 A2].
    destruct (on_selected_preserves (named ["img"]) alt_filled
                (phi2 (body_landmark sp h))) as [B1 B2].
    destruct (P2 (body_landmark sp h)) as [C1 C2].
    destruct (P1 h) as [E1 E2].
    split; congruence. }
  assert (Hname : forall names h, named names (F h) = named names h).
  { intros names h. unfold named. now destruct (PF h) as [_ ->]. }
  assert (Himg : filter (named ["img"]) after
                 = map (with_attrs alt_filled) (filter (named ["img"]) before)).
  { subst after before. rewrite D, filter_map_same by apply Hname.
    apply map_ext_in. intros h Hh. apply filter_In in Hh.
    destruct Hh as [Hin Hn]. subst F. cbv beta.
    assert (nm : h_name h = "img") by (now apply mem_singleton in Hn).
    rewrite (H2 h Hin) by (now rewrite (named_of_name _ h _ nm)).
    rewrite (body_landmark_others sp h NDd Hin)
      by (now rewrite (named_of_name _ h _ nm)).
    rewrite (on_selected_yes (named ["img"]) alt_filled h Hn).
    apply on_selected_no.
    now rewrite named_with_attrs, (named_of_name _ h _ nm). }
  assert (Ha : filter (named ["a"]) after
               = map (with_attrs tabindex_filled) (filter (named ["a"]) before)).
  { subst after before. rewrite D, filter_map_same by apply Hname.
    apply map_ext_in. intros h Hh. apply filter_In in Hh.
    destruct Hh as [Hin Hn]. subst F. cbv beta.
    assert (nm : h_name h = "a") by (now apply mem_singleton in Hn).
    rewrite (H2 h Hin) by (now rewrite (named_of_name _ h _ nm)).
    rewrite (body_landmark_others sp h NDd Hin)
      by (now rewrite (named_of_name _ h _ nm)).
    rewrite (on_selected_no (named ["img"]) alt_filled h)
      by (now rewrite (named_of_name _ h _ nm)).
    now apply on_selected_yes. }
  split; [split; [exact Himg |] | split; [split; [exact Ha |] | split]].
  - rewrite Himg. apply Forall_forall. intros h Hh. apply in_map_iff in Hh.
    destruct Hh as (x & <- & _). unfold with_attrs, alt_filled.
    cbn [h_attrs snd]. now apply filled_is_truthy.
  - rewrite Ha. apply Forall_forall. intros h Hh. apply in_map_iff in Hh.
    destruct Hh as (x & <- & _). unfold with_attrs, tabindex_filled.
    cbn [h_attrs snd]. now apply filled_is_truthy.
  - subst after before. rewrite D, filter_map_same by apply Hname.
    rewrite <- body_landmark_bodies by exact NDd.
    apply map_ext_in. intros h Hh. apply filter_In in Hh.
    destruct Hh as [Hin Hn]. subst F. cbv beta.
    assert (nm : h_name h = "body") by (now apply mem_singleton in Hn).
    destruct (P1 h) as [_ N1].
    rewrite (H2 h Hin) by (now rewrite (named_of_name _ h _ nm)).
    rewrite (on_selected_no (named ["img"]) alt_filled)
      by (unfold named; now rewrite N1, nm).
    apply on_selected_no. unfold named. now rewrite N1, nm.
  - subst after before. rewrite D.
    rewrite filter_map_same by (intros h; now rewrite Hname).
    rewrite <- (map_id (filter _ (heads (doc sp)))) at 2.
    apply map_ext_in. intros h Hh. apply filter_In in Hh.
    destruct Hh as [Hin Hn]. apply negb_true_iff in Hn. subst F. cbv beta.
    unfold named, accessibility_names, PyStr.mem in Hn.
    cbn [existsb app HTMLConverter.heading_names] in Hn.
    repeat (apply orb_false_iff in Hn; destruct Hn as [? Hn]).
    rewrite (H2 h Hin).
    2:{ unfold named, PyStr.mem, HTMLConverter.heading_names. cbn [existsb].
        now rewrite H0, H1, H3, H4, H5, H6. }
    rewrite (body_landmark_others sp h NDd Hin)
      by (unfold named, PyStr.mem; cbn [existsb]; now rewrite H).
    rewrite (on_selected_no (named ["img"]) alt_filled h)
      by (unfold named, PyStr.mem; cbn [existsb]; now rewrite H7).
    apply on_selected_no. unfold named, PyStr.mem. cbn [existsb].
    now rewrite H8.
Qed.

Lemma accessibility_witness :
  filter (named ["img"])
    (heads (doc (HTMLConverter._add_accessibility page_for_attributes)))
  = [(5, "img", [("alt", AStr "Image")])] /\
  filter (named ["body"])
    (heads (doc (HTMLConverter._add_accessibility page_for_attributes)))
  = [(0, "body", [("id", AStr "main-content"); ("role", AStr "main")])].
Proof.
  destruct (accessibility_marks_the_body_the_images_and_the_links
              page_for_attributes) as ([Hi _] & _ & Hb & _).
  - solve_nodup.
  - split; [rewrite Hi | rewrite Hb]; reflexivity.
Defined.

(* ================================================================== *)
(** * Further properties: white space *)
(* ================================================================== *)

(** every white-space character of [s] is one blank, and the character
    after it, if there is one, is not white space *)
Fixpoint single_blanks (s : string) : bool :=
  match s with
  | EmptyString => true
  | String c s' =>
      match PyStr.space_width s with
      | O => true
      | S _ => Ascii.eqb c " " && Nat.eqb (PyStr.space_width s') 0
      end
      && single_blanks s'
  end.

(** [s] does not end with white space: none of its ends is blank *)
Definition ends_clean (s : string) : Prop :=
  forall a b : string, s = (a ++ b)%string -> b <> "" -> PyStr.blank b = false.

Ltac split_ifs :=
  repeat match goal with
         | |- context [if ?b then _ else _] => destruct b
         | H : context [if ?b then _ else _] |- _ => destruct b
         end.

Lemma space_width_le s : PyStr.space_width s <= String.length s.
Proof.
  destruct s as [| c0 [| c1 [| c2 s3]]];
    unfold PyStr.space_width; cbv zeta; cbn [String.length];
    split_ifs; lia.
Qed.

(** a white-space character is read off the bytes it is made of *)
Lemma space_width_ext a t k :
  PyStr.space_width a = S k -> PyStr.space_width (a ++ t) = S k.
Proof.
  destruct a as [| c0 [| c1 [| c2 a3]]]; cbn [String.append];
    unfold PyStr.space_width; cbv zeta; intros H.
  - discriminate.
  - split_ifs; try discriminate; exact H.
  - split_ifs; try discriminate; exact H.
  - exact H.
Qed.

Lemma space_width_prefix p t :
  PyStr.space_width (p ++ t) = 0 -> PyStr.space_width p = 0.
Proof.
  destruct (PyStr.space_width p) as [| k] eqn:E; [reflexivity |].
  intros H. now rewrite (space_width_ext p t k E) in H.
Qed.

(** ** strip *)

Lemma lstrip_from_clean s : forall k, PyStr.space_width (PyStr.lstrip_from s k) = 0.
Proof.
  induction s as [| c s IH]; intros k; cbn [PyStr.lstrip_from].
  - reflexivity.
  - destruct k as [| k]; [| apply IH].
    destruct (PyStr.space_width (String c s)) eqn:E; [exact E | apply IH].
Qed.

Lemma lstrip_clean s : PyStr.space_width s = 0 -> PyStr.lstrip s = s.
Proof.
  intros H. destruct s as [| c s]; [reflexivity |].
  unfold PyStr.lstrip. cbn [PyStr.lstrip_from]. now rewrite H.
Qed.

Lemma lstrip_from_blank s :
  forall k, PyStr.blank_from s k = true -> PyStr.lstrip_from s k = "".
Proof.
  induction s as [| c s IH]; intros k; cbn [PyStr.lstrip_from PyStr.blank_from].
  - reflexivity.
  - destruct k as [| k]; [| apply IH].
    destruct (PyStr.space_width (String c s)); [discriminate | apply IH].
Qed.

(** what [rstrip] cuts off is blank *)
Lemma rstrip_split s :
  exists t, s = (PyStr.rstrip s ++ t)%string /\ PyStr.blank t = true.
Proof.
  induction s as [| c s (t & Hs & Ht)].
  - exists "". split; reflexivity.
  - cbn [PyStr.rstrip]. destruct (PyStr.blank (String c s)) eqn:E.
    + exists (String c s). split; [reflexivity | exact E].
    + exists t. split; [| exact Ht]. cbn [String.append]. f_equal. exact Hs.
Qed.

Lemma blank_app a :
  forall k t,
    k <= String.length a -> PyStr.blank_from a k = true ->
    PyStr.blank t = true -> PyStr.blank_from (a ++ t) k = true.
Proof.
  induction a as [| c a IH]; intros k t Hk Ha Ht.
  - cbn [String.length] in Hk. assert (k = 0) by lia. subst k. exact Ht.
  - cbn [String.append String.length PyStr.blank_from] in *.
    destruct k as [| k]; [| apply IH; auto; lia].
    destruct (PyStr.space_width (String c a)) as [| n] eqn:E; [discriminate |].
    change (String c (a ++ t)%string) with (String c a ++ t)%string.
    rewrite (space_width_ext (String c a) t n E). apply IH; auto.
    pose proof (space_width_le (String c a)) as L. rewrite E in L.
    cbn [String.length] in L. lia.
Qed.

Lemma rstrip_not_blank c s :
  PyStr.blank (String c s) = false ->
  PyStr.blank (String c (PyStr.rstrip s)) = false.
Proof.
  intros H. destruct (PyStr.blank (String c (PyStr.rstrip s))) eqn:E;
    [| reflexivity].
  destruct (rstrip_split s) as (t & Hs & Ht).
  pose proof (blank_app (String c (PyStr.rstrip s)) 0 t (Nat.le_0_l _) E Ht)
    as B.
  cbn [String.append] in B. rewrite <- Hs in B. unfold PyStr.blank in H.
  congruence.
Qed.

Lemma rstrip_idem s : PyStr.rstrip (PyStr.rstrip s) = PyStr.rstrip s.
Proof.
  induction s as [| c s IH]; [reflexivity |]. cbn [PyStr.rstrip].
  destruct (PyStr.blank (String c s)) eqn:E; [reflexivity |].
  cbn [PyStr.rstrip]. now rewrite (rstrip_not_blank c s E), IH.
Qed.

Lemma rstrip_clean s :
  PyStr.space_width s = 0 -> PyStr.space_width (PyStr.rstrip s) = 0.
Proof.
  intros H. destruct (rstrip_split s) as (t & Hs & _).
  apply (space_width_prefix (PyStr.rstrip s) t). now rewrite <- Hs.
Qed.

Lemma rstrip_ends_clean s : ends_clean (PyStr.rstrip s).
Proof.
  induction s as [| c s IH]; intros a b Hab Hb.
  - destruct a, b; try discriminate. now contradiction Hb.
  - cbn [PyStr.rstrip] in Hab. destruct (PyStr.blank (String c s)) eqn:E.
    + destruct a, b; try discriminate. now contradiction Hb.
    + destruct a as [| c' a].
      * cbn [String.append] in Hab. subst b. now apply rstrip_not_blank.
      * cbn [String.append] in Hab. injection Hab as _ Hab.
        now apply (IH a b).
Qed.

Lemma strip_idem s : PyStr.strip (PyStr.strip s) = PyStr.strip s.
Proof.
  unfold PyStr.strip.
  rewrite (lstrip_clean (PyStr.rstrip (PyStr.lstrip s))).
  - apply rstrip_idem.
  - apply rstrip_clean, lstrip_from_clean.
Qed.

Lemma strip_clean s : PyStr.space_width (PyStr.strip s) = 0.
Proof. apply rstrip_clean, lstrip_from_clean. Qed.

Lemma strip_blank s : PyStr.blank s = true -> PyStr.strip s = "".
Proof.
  intros H. unfold PyStr.strip, PyStr.lstrip.
  now rewrite (lstrip_from_blank s 0 H).
Qed.

(** The title is stripped: stripping it again changes nothing, it
    neither begins nor ends with a white-space character, a no-break
    space included.  A title element wins over the h1 even when it holds
    nothing but white space: the title is then the empty string, not the
    h1 text and not "Untitled". *)
Theorem extracted_title_is_stripped :
  forall sp : soup,
    let title := SearchIndexBuilder._extract_title sp in
    PyStr.strip title = title /\
    PyStr.space_width title = 0 /\
    ends_clean title /\
    (forall t, find_first ["title"] (doc sp) = Some t ->
               PyStr.blank (get_text t) = true -> title = "").
Proof.
  intros sp title.
  assert (E : (exists x, title = PyStr.strip x)).
  { subst title. unfold SearchIndexBuilder._extract_title.
    destruct (find_first ["title"] (doc sp)) as [t |]; [now exists (get_text t) |].
    destruct (find_first ["h1"] (doc sp)) as [h |]; [now exists (get_text h) |].
    now exists "Untitled". }
  destruct E as (x & E). split; [| split; [| split]].
  - rewrite E. apply strip_idem.
  - rewrite E. apply strip_clean.
  - rewrite E. apply rstrip_ends_clean.
  - intros t Ht Hb. subst title. unfold SearchIndexBuilder._extract_title.
    rewrite Ht. now apply strip_blank.
Qed.

(** ** runs of white space *)

Lemma blank_width s : PyStr.space_width (String " " s) = 1.
Proof. reflexivity. Qed.

(** a blank in the place of the second or third byte makes no
    white-space character *)
Lemma no_space_before_blank c0 s s' :
  PyStr.space_width (String c0 s) = 0 ->
  PyStr.space_width (String c0 (String " " s')) = 0.
Proof.
  unfold PyStr.space_width. cbv zeta. intros H.
  destruct (PyStr.between 9 (nat_of_ascii c0) 13
            || PyStr.between 28 (nat_of_ascii c0) 32); [discriminate |].
  change (nat_of_ascii " ") with 32. cbn [Nat.eqb orb].
  rewrite !andb_false_r. cbn [andb]. now destruct s'.
Qed.

Lemma no_space_before_second_blank c0 c1 s s' :
  PyStr.space_width (String c0 (String c1 s)) = 0 ->
  PyStr.space_width (String c0 (String c1 (String " " s'))) = 0.
Proof.
  unfold PyStr.space_width. cbv zeta. intros H.
  destruct (PyStr.between 9 (nat_of_ascii c0) 13
            || PyStr.between 28 (nat_of_ascii c0) 32); [discriminate |].
  destruct ((nat_of_ascii c0 =? 194)%nat
            && ((nat_of_ascii c1 =? 133)%nat || (nat_of_ascii c1 =? 160)%nat));
    [discriminate |].
  change (nat_of_ascii " ") with 32.
  change (PyStr.between 128 32 138) with false. cbn [Nat.eqb orb].
  now rewrite !andb_false_r.
Qed.

(** replacing the runs of white space makes no new white-space
    character *)
Lemma collapse_clean s :
  PyStr.space_width s = 0 ->
  PyStr.space_width (PyStr.collapse_from false 0 s) = 0.
Proof.
  intros H. destruct s as [| c0 s1]; [reflexivity |].
  cbn [PyStr.collapse_from]. rewrite H.
  destruct s1 as [| c1 s2]; [exact H |].
  cbn [PyStr.collapse_from].
  destruct (PyStr.space_width (String c1 s2)) eqn:E1;
    [| now apply (no_space_before_blank c0 (String c1 s2))].
  destruct s2 as [| c2 s3]; [exact H |].
  cbn [PyStr.collapse_from].
  destruct (PyStr.space_width (String c2 s3)) eqn:E2;
    [exact H | now apply (no_space_before_second_blank c0 c1 (String c2 s3))].
Qed.

Lemma collapse_in_run_clean s :
  forall k, PyStr.space_width (PyStr.collapse_from true k s) = 0.
Proof.
  induction s as [| c s IH]; intros k; cbn [PyStr.collapse_from].
  - reflexivity.
  - destruct k as [| k]; [| apply IH].
    destruct (PyStr.space_width (String c s)) eqn:E; [| apply IH].
    pose proof (collapse_clean (String c s) E) as H.
    cbn [PyStr.collapse_from] in H. now rewrite E in H.
Qed.

Lemma collapse_single s :
  forall b k, single_blanks (PyStr.collapse_from b k s) = true.
Proof.
  induction s as [| c s IH]; intros b k; cbn [PyStr.collapse_from].
  - reflexivity.
  - destruct k as [| k]; [| apply IH].
    destruct (PyStr.space_width (String c s)) eqn:E.
    + pose proof (collapse_clean (String c s) E) as H.
      cbn [PyStr.collapse_from] in H. rewrite E in H.
      cbn [single_blanks]. rewrite H. cbn [andb]. apply IH.
    + destruct b; [apply IH |].
      cbn [single_blanks]. rewrite blank_width, collapse_in_run_clean.
      cbn. apply IH.
Qed.

Lemma single_blanks_tail c s :
  single_blanks (String c s) = true -> single_blanks s = true.
Proof. cbn [single_blanks]. intros H. now apply andb_prop in H. Qed.

Lemma lstrip_from_single s :
  forall k, single_blanks s = true ->
            single_blanks (PyStr.lstrip_from s k) = true.
Proof.
  induction s as [| c s IH]; intros k H; cbn [PyStr.lstrip_from].
  - reflexivity.
  - pose proof (single_blanks_tail c s H) as Ht.
    destruct k as [| k]; [| now apply IH].
    destruct (PyStr.space_width (String c s)); [exact H | now apply IH].
Qed.

Lemma single_blanks_prefix p :
  forall t, single_blanks (p ++ t) = true -> single_blanks p = true.
Proof.
  induction p as [| c p IH]; intros t H; [reflexivity |].
  cbn [String.append single_blanks] in *.
  apply andb_prop in H. destruct H as [Hh Ht].
  apply andb_true_intro. split; [| now apply (IH t)].
  destruct (PyStr.space_width (String c p)) as [| n] eqn:E; [reflexivity |].
  change (String c (p ++ t)%string) with (String c p ++ t)%string in Hh.
  rewrite (space_width_ext (String c p) t n E) in Hh.
  apply andb_prop in Hh. destruct Hh as [Hc Hw]. rewrite Hc. cbn [andb].
  apply Nat.eqb_eq in Hw. apply Nat.eqb_eq.
  now apply (space_width_prefix p t).
Qed.

Lemma rstrip_single s :
  single_blanks s = true -> single_blanks (PyStr.rstrip s) = true.
Proof.
  intros H. destruct (rstrip_split s) as (t & Hs & _).
  apply (single_blanks_prefix (PyStr.rstrip s) t). now rewrite <- Hs.
Qed.

(** The content field is white-space normal: it neither begins nor ends
    with a white-space character, and each white-space character in it
    is a single blank with no white space after it, whatever tabs, line
    ends, no-break spaces or runs of blanks the text of the page
    holds. *)
Theorem extracted_content_is_white_space_normal :
  forall sp : soup,
    let content := fst (SearchIndexBuilder._extract_content sp) in
    PyStr.space_width content = 0 /\
    ends_clean content /\
    single_blanks content = true.
Proof.
  intros sp. cbv zeta. unfold SearchIndexBuilder._extract_content.
  cbn [fst]. split; [apply strip_clean | split].
  - apply rstrip_ends_clean.
  - unfold PyStr.strip, PyStr.lstrip, PyStr.collapse_ws.
    apply rstrip_single, lstrip_from_single, collapse_single.
Qed.

(** a page whose title element holds a line end and a no-break space,
    before a heading *)
Definition page_with_blank_title : soup :=
  mkSoup 2
    [Elem 0 "title" []
       [Text (String (ascii_of_nat 10)
                (String (ascii_of_nat 194) (String (ascii_of_nat 160) "")))];
     Elem 1 "h1" [] [Text "Psalm 23"]] [].

Lemma extracted_title_witness :
  SearchIndexBuilder._extract_title page_with_blank_title = "".
Proof.
  apply (proj2 (proj2 (proj2 (extracted_title_is_stripped page_with_blank_title))))
    with (t := Elem 0 "title" []
                 [Text (String (ascii_of_nat 10)
                          (String (ascii_of_nat 194)
                             (String (ascii_of_nat 160) "")))]);
    reflexivity.
Defined.

Example content_of_a_page_with_no_break_spaces :
  fst (SearchIndexBuilder._extract_content
         (mkSoup 1
            [Elem 0 "p" []
               [Text (String (ascii_of_nat 194) (String (ascii_of_nat 160)
                        ("In the" ++ String (ascii_of_nat 9)
                           (String (ascii_of_nat 194)
                              (String (ascii_of_nat 160) " beginning ")))))]]
            []))
  = "In the beginning".
Proof. reflexivity. Qed.

(* ================================================================== *)
(** * Further properties: the new head and body *)
(* ================================================================== *)

(** [_convert_to_html5] always leaves a document with a head and a body:
    [soup.find('head')] and [soup.find('body')] are the two new
    elements, whatever head and body elements the source has.  So
    [_add_modern_structure] does not return early in [convert_file], and
    the body it puts the skip link in, which is the body that
    [_add_accessibility] marks, is the new one. *)
Theorem converted_document_has_the_new_head_and_body :
  forall sp : soup,
    wf sp ->
    soup_find ["head"] (HTMLConverter._convert_to_html5 sp)
    = Some (1 + fresh sp) /\
    soup_find ["body"] (HTMLConverter._convert_to_html5 sp)
    = Some (2 + fresh sp) /\
    soup_find ["body"]
      (HTMLConverter._add_modern_structure (HTMLConverter._convert_to_html5 sp))
    = Some (2 + fresh sp).
Proof.
  intros sp W.
  destruct (convert_to_html5_exact sp W) as ((HD & HF) & _).
  pose proof (modern_structure_of_html5
                (HTMLConverter._convert_to_html5 sp) (fresh sp) _
                (wf_convert_to_html5 sp W) HD) as HM.
  unfold soup_find. rewrite HM, HD. split; [| split]; reflexivity.
Qed.

(** a page with a head and a body of its own *)
Definition page_with_head_and_body : soup :=
  mkSoup 5
    [Elem 0 "html" []
       [Elem 1 "head" [] [Elem 2 "title" [] [Text "T"]];
        Elem 3 "body" [("bgcolor", AStr "#ffffff")]
          [Elem 4 "p" [] [Text "x"]]]]
    [].

Lemma new_head_and_body_witness :
  soup_find ["head"] (HTMLConverter._convert_to_html5 page_with_head_and_body)
  = Some 6 /\
  soup_find ["body"] (HTMLConverter._convert_to_html5 page_with_head_and_body)
  = Some 7.
Proof.
  destruct (converted_document_has_the_new_head_and_body
              page_with_head_and_body) as (H & B & _).
  - split; [solve_nodup | vm_compute; repeat constructor].
  - split; [exact H | exact B].
Defined.

(** the title of that page is not in the converted document *)
Example title_of_the_source_is_dropped :
  find_all ["title"]
    (doc (HTMLConverter.convert_soup page_with_head_and_body)) = [].
Proof. vm_compute. reflexivity. Qed.
